(** * AudioCodes WebRTC client: call-session video state, renegotiation,
      SDP direction analysis and the WebSocket keep-alive monitor.

    A shallow embedding of the relevant parts of [config.js]
    (classes [AudioCodesUA], [AudioCodesSession], [AudioCodesSDP] and the
    object [AudioCodesWebRTCWrapper]) followed by the properties proved
    about them.

    Conventions of the embedding.
    - JavaScript strings are [string]s whose characters are read as code
      units below 256 (session descriptions are ASCII text).
    - JavaScript integers (milliseconds, counters) are [Z].
    - [null]/[undefined] fields are [option]s.
    - Calls of [AudioCodesUA.ac_log] only write to the console and are left
      out, except the keep-alive statistics report, which is kept as an
      output of the monitor.
    - Code outside the repository (JsSIP's session, the browser's
      RTCPeerConnection and media devices) is not given a body: what it
      answers comes from an environment record, and every call made to it
      is written to a trace. Only plain assignments and the track list of a
      MediaStream are computed here. *)

From Stdlib Require Import ZArith String Ascii List Bool Lia DecimalString.
From stdpp Require Import base list.
From Equations Require Import Equations.
Import ListNotations.

Local Open Scope string_scope.
Local Open Scope list_scope.
Local Open Scope Z_scope.

(* ===================================================================== *)
(** * JavaScript values and string primitives                             *)
(* ===================================================================== *)

Module JS.

(** The values this code throws or rejects promises with. *)
Inductive JsVal : Type :=
| JsUndefined                      (* reject() without a reason *)
| JsString (s : string)            (* throw 'text' *)
| JsError (message : string)       (* throw Error('text') *)
| JsTypeError (message : string)   (* property read on null *)
| JsDOMException (name : string).  (* failures reported by the browser *)

(** The state of a promise when it is awaited. [Pending] is a promise
    that is never settled. *)
Inductive Promise (A : Type) : Type :=
| Fulfilled (a : A)
| Rejected (reason : JsVal)
| Pending.
Arguments Fulfilled {A} a.
Arguments Rejected {A} reason.
Arguments Pending {A}.

(** [String.prototype.trim] removes white space at both ends. Below 256
    the white space code units are TAB, LF, VT, FF, CR, SP and NBSP. *)
Definition isWhiteSpace (c : ascii) : bool :=
  let n := N_of_ascii c in
  ((9 <=? n) && (n <=? 13) || (n =? 32) || (n =? 160))%N.

Fixpoint trimStart (s : string) : string :=
  match s with
  | EmptyString => EmptyString
  | String c s' => if isWhiteSpace c then trimStart s' else s
  end.

Fixpoint trimEnd (s : string) : string :=
  match s with
  | EmptyString => EmptyString
  | String c s' =>
      match trimEnd s' with
      | EmptyString => if isWhiteSpace c then EmptyString else String c EmptyString
      | t => String c t
      end
  end.

Definition trim (s : string) : string := trimEnd (trimStart s).

(** [s.split(sep)] for a one-character separator: never the empty list. *)
Fixpoint split (sep : ascii) (s : string) : list string :=
  match s with
  | EmptyString => [EmptyString]
  | String c s' =>
      if Ascii.eqb c sep then EmptyString :: split sep s'
      else match split sep s' with
           | h :: t => String c h :: t
           | [] => [String c EmptyString]
           end
  end.

Definition startsWith (s p : string) : bool := String.prefix p s.

(** [lines.join(sep)] of an array of strings. *)
Definition join (sep : string) (lines : list string) : string := String.concat sep lines.

(** [n.toString()] of an integer. *)
Definition toString (z : Z) : string := NilZero.string_of_int (Z.to_int z).

Definition LF : ascii := ascii_of_nat 10.
Definition CRLF : string := String (ascii_of_nat 13) (String (ascii_of_nat 10) EmptyString).
Definition CRLFCRLF : string := String.append CRLF CRLF.

End JS.
Import JS.

(* ===================================================================== *)
(** * class AudioCodesSDP                                                 *)
(* ===================================================================== *)

Module AudioCodesSDP.

(** [this.start] are the session-level lines, [this.media] one array of
    lines per [m=] section, in order of appearance. *)
Record t : Type := mk { start : list string; media : list (list string) }.

(** [current.push(line)]: [current] aliases [this.start] until the first
    [m=] line, and the array pushed last on [this.media] afterwards. *)
Definition push_current (sdp : t) (line : string) : t :=
  match media sdp with
  | [] => mk (start sdp ++ [line]) []
  | m :: ms => mk (start sdp) (removelast (m :: ms) ++ [List.last (m :: ms) [] ++ [line]])
  end.

(** One turn of the constructor's [for (let line of lines)]. *)
Definition add_line (sdp : t) (line : string) : t :=
  let sdp' := if startsWith line "m=" then mk (start sdp) (media sdp ++ [[]]) else sdp in
  push_current sdp' line.

Definition constructor (sdp : string) : t :=
  let lines := List.filter (fun l => (0 <? Z.of_nat (String.length l))%Z)
                           (List.map trim (split LF sdp)) in
  fold_left add_line lines (mk [] []).

Fixpoint getMedia_from (ms : list (list string)) (type : string) : option (list string) :=
  match ms with
  | [] => None
  | m :: rest =>
      match m with
      | m0 :: _ => if startsWith m0 ("m=" ++ type)%string then Some m else getMedia_from rest type
      | [] => getMedia_from rest type
      end
  end.

Definition getMedia (sdp : t) (type : string) : option (list string) :=
  getMedia_from (media sdp) type.

Definition checkSendRecv (line : string) : option string :=
  if String.eqb line "a=sendrecv" then Some "sendrecv"
  else if String.eqb line "a=sendonly" then Some "sendonly"
  else if String.eqb line "a=recvonly" then Some "recvonly"
  else if String.eqb line "a=inactive" then Some "inactive"
  else None.

(** The body shared by the two [for ... break] loops of
    [getMediaDirectionValue]: the first line that is a direction
    attribute replaces [result]. *)
Fixpoint scan (lines : list string) (result : string) : string :=
  match lines with
  | [] => result
  | line :: rest =>
      match checkSendRecv line with
      | Some t => t
      | None => scan rest result
      end
  end.

Definition getMediaDirectionValue (sdp : t) (type : string) : option string :=
  match getMedia sdp type with
  | None => None
  | Some media =>
      let result := "sendrecv" in
      let result := scan (start sdp) result in
      let result := scan media result in
      Some result
  end.

(** The result array [[send, receive, dir]]; [None] is the [undefined] the
    function returns when no [case] of the switch matches. *)
Definition getMediaDirection (sdp : t) (type : string) (remote : bool)
  : option (bool * bool * option string) :=
  let dir := getMediaDirectionValue sdp type in
  match dir with
  | None => Some (false, false, dir)
  | Some d =>
      if String.eqb d "sendrecv" then Some (true, true, dir)
      else if String.eqb d "sendonly" then
        Some (if remote then (false, true, dir) else (true, false, dir))
      else if String.eqb d "recvonly" then
        Some (if remote then (true, false, dir) else (false, true, dir))
      else if String.eqb d "inactive" then Some (false, false, dir)
      else None
  end.

(** [toString()]: the session-level lines, then the lines of every media
    block ([result = result.concat(m)]), joined by CR LF, and a final CR LF. *)
Definition toString (sdp : t) : string :=
  let result := start sdp in
  let result := fold_left (fun result m => result ++ m) (media sdp) result in
  (join CRLF result ++ CRLF)%string.

End AudioCodesSDP.

(* ===================================================================== *)
(** * Browser and JsSIP objects, as far as the code looks at them         *)
(* ===================================================================== *)

Module WebRTC.

Record MediaStreamTrack : Type := mkTrack { kind : string; label : string }.

(** A transceiver with the track of its sender and of its receiver
    ([None] is [null]) and its [direction] attribute. *)
Record RTCRtpTransceiver : Type := mkTransceiver {
  sender_track : option MediaStreamTrack;
  receiver_track : option MediaStreamTrack;
  direction : string
}.

(** [connection.getTransceivers()]; [getSenders()] lists their senders. *)
Definition RTCPeerConnection : Type := list RTCRtpTransceiver.

Definition MediaStream : Type := list MediaStreamTrack.

Definition getVideoTracks (s : MediaStream) : list MediaStreamTrack :=
  List.filter (fun t => String.eqb (kind t) "video") s.

Definition getAudioTracks (s : MediaStream) : list MediaStreamTrack :=
  List.filter (fun t => String.eqb (kind t) "audio") s.

Definition track_eqb (a b : MediaStreamTrack) : bool :=
  String.eqb (kind a) (kind b) && String.eqb (label a) (label b).

(** [stream.removeTrack(track)]. *)
Definition stream_removeTrack (s : MediaStream) (t : MediaStreamTrack) : MediaStream :=
  List.filter (fun x => negb (track_eqb x t)) s.

End WebRTC.
Import WebRTC.

Module JsSIP.

(** What the code reads from JsSIP's RTCSession: [isEnded()] and
    [isOnHold()]. *)
Record RTCSession : Type := mkRTCSession {
  isEnded : bool;
  isOnHold_local : bool;
  isOnHold_remote : bool
}.

(** The options object handed to [js_session.renegotiate]. *)
Record ReInviteOptions : Type := mkReInviteOptions {
  extraHeaders : option (list string);
  enabledReceiveVideo : option bool;
  showStreams : option bool
}.

(** What [js_session.renegotiate(options, done)] does: it returns
    [false], or it returns [true] and calls [done] later, or never. *)
Inductive RenegotiateResult : Type :=
| ReturnsFalse
| ReturnsTrue (done_called : bool).

(** The event of [js_session.on('sdp', ...)]; [sdp = None] is a value that
    has no [split] method, on which the constructor of AudioCodesSDP
    throws. *)
Record SdpEvent : Type := mkSdpEvent {
  originator : string;
  type : string;
  sdp : option string
}.

End JsSIP.
Import JsSIP.

(* ===================================================================== *)
(** * The world a call session runs in                                    *)
(* ===================================================================== *)

Module Runtime.

(** [this.data._video] of AudioCodesSession. *)
Record Video : Type := mkVideo {
  send : bool;
  receive : bool;
  enabledSend : bool;
  enabledReceive : bool
}.

(** [this.data._screenSharing], when it is not [null]. *)
Record ScreenSharing : Type := mkScreenSharing {
  track : MediaStreamTrack;   (* screen sharing video track *)
  hadSendVideo : bool         (* if was video before screen sharing *)
}.

(** [this.data] of AudioCodesSession (the fields the modelled methods use). *)
Record SessionData : Type := mkData {
  _initial : bool;
  _wasUsedSendVideo : bool;
  _screenSharing : option ScreenSharing;
  _video : Video
}.

Definition set_video (d : SessionData) (v : Video) : SessionData :=
  mkData (_initial d) (_wasUsedSendVideo d) (_screenSharing d) v.
Definition set_initial (d : SessionData) (b : bool) : SessionData :=
  mkData b (_wasUsedSendVideo d) (_screenSharing d) (_video d).
Definition set_wasUsedSendVideo (d : SessionData) (b : bool) : SessionData :=
  mkData (_initial d) b (_screenSharing d) (_video d).
Definition set_screenSharing (d : SessionData) (s : option ScreenSharing) : SessionData :=
  mkData (_initial d) (_wasUsedSendVideo d) s (_video d).

(** Everything the code does to the outside, and every call of a setter
    of the video flags, in the order it happens. *)
Inductive Action : Type :=
| Renegotiate (options : ReInviteOptions)          (* js_session.renegotiate(options, done) *)
| SetTimeout (delay : Z)                           (* setTimeout(resolve, delay), awaited *)
| Hold (set : bool)                                (* js_session.hold / unhold *)
| GetUserMedia                                     (* navigator.mediaDevices.getUserMedia *)
| GetDisplayMedia                                  (* navigator.mediaDevices.getDisplayMedia *)
| SetOnEnded (t : MediaStreamTrack)                (* videoTrack.onended = ... *)
| SetDirection (i : nat) (dir : string)            (* transceiver.direction = dir *)
| AddTrack (t : MediaStreamTrack)                  (* connection.addTrack(track, stream) *)
| ReplaceTrack (i : nat) (t : MediaStreamTrack)    (* sender.replaceTrack(track) *)
| RemoveTrack (i : nat)                            (* connection.removeTrack(sender) *)
| StreamAddTrack (t : MediaStreamTrack)            (* localStream.addTrack(track) *)
| StreamRemoveTrack (t : MediaStreamTrack)         (* localStream.removeTrack(track) *)
| TrackStop (t : MediaStreamTrack)                 (* track.stop() *)
| SetVideoState (send receive : bool)              (* _setVideoState *)
| SetEnabledSendVideo (enable : bool)              (* _setEnabledSendVideo *)
| SetEnabledReceiveVideo (enable : bool)           (* _setEnabledReceiveVideo *)
| CallShowStreams                                  (* listeners.callShowStreams *)
| CallScreenSharingEnded.                          (* listeners.callScreenSharingEnded *)

(** The answers of JsSIP and of the browser. Each is indexed by the
    logical time [now] at which the code asks: [now] grows by one
    whenever the code is suspended on something that takes real time, so
    between two suspensions the outside world does not change. *)
Record Env : Type := mkEnv {
  js_session : nat -> RTCSession;
  js_renegotiate : nat -> RenegotiateResult;
  js_hold : nat -> RenegotiateResult;
  navigator_getUserMedia : nat -> JsVal + MediaStream;
  navigator_hasDisplayMedia : nat -> bool;
  navigator_getDisplayMedia : nat -> JsVal + MediaStream;
  connection_addTrack : nat -> RTCPeerConnection -> MediaStreamTrack -> JsVal + RTCPeerConnection;
  connection_removeTrack : nat -> RTCPeerConnection -> nat -> JsVal + RTCPeerConnection;
  sender_replaceTrack : nat -> RTCPeerConnection -> nat -> MediaStreamTrack -> JsVal + RTCPeerConnection;
  listeners_callScreenSharingEnded : bool
}.

Record World : Type := mkWorld {
  data : SessionData;               (* this.data *)
  connection : RTCPeerConnection;   (* this.js_session.connection *)
  localStream : MediaStream;        (* this.js_session._localMediaStream *)
  now : nat;
  trace : list Action
}.

(** How a piece of code ends: normally, by a thrown value (for an async
    function: its promise is rejected), or never, when it awaits a
    promise that is never settled. *)
Inductive Completion (A : Type) : Type :=
| Normal (a : A)
| Throw (e : JsVal)
| Hang.
Arguments Normal {A} a.
Arguments Throw {A} e.
Arguments Hang {A}.

Definition M (A : Type) : Type := World -> Completion A * World.

Definition ret {A} (a : A) : M A := fun w => (Normal a, w).

Definition bind {A B} (m : M A) (k : A -> M B) : M B :=
  fun w =>
    match m w with
    | (Normal a, w') => k a w'
    | (Throw e, w') => (Throw e, w')
    | (Hang, w') => (Hang, w')
    end.

Definition throw {A} (e : JsVal) : M A := fun w => (Throw e, w).

Definition try_catch {A} (m : M A) (handler : JsVal -> M A) : M A :=
  fun w =>
    match m w with
    | (Throw e, w') => handler e w'
    | r => r
    end.

Definition get : M World := fun w => (Normal w, w).

Definition emit (a : Action) : M unit :=
  fun w => (Normal tt, mkWorld (data w) (connection w) (localStream w) (now w) (trace w ++ [a])).

(** The code is suspended and real time passes. *)
Definition suspend : M unit :=
  fun w => (Normal tt, mkWorld (data w) (connection w) (localStream w) (S (now w)) (trace w)).

(** An assignment to a field of [this.data]. *)
Definition modify_data (f : SessionData -> SessionData) : M unit :=
  fun w => (Normal tt, mkWorld (f (data w)) (connection w) (localStream w) (now w) (trace w)).

Definition put_connection (c : RTCPeerConnection) : M unit :=
  fun w => (Normal tt, mkWorld (data w) c (localStream w) (now w) (trace w)).

Definition put_localStream (s : MediaStream) : M unit :=
  fun w => (Normal tt, mkWorld (data w) (connection w) s (now w) (trace w)).

(** [await p] for a promise whose fate is known. *)
Definition await {A} (p : Promise A) : M A :=
  match p with
  | Fulfilled a => ret a
  | Rejected e => throw e
  | Pending => fun w => (Hang, w)
  end.

(** The promise of a computation that is started and not (yet) awaited. *)
Definition promise_of {A} (m : M A) : M (Promise A) :=
  fun w =>
    match m w with
    | (Normal a, w') => (Normal (Fulfilled a), w')
    | (Throw e, w') => (Normal (Rejected e), w')
    | (Hang, w') => (Normal Pending, w')
    end.

Definition of_sum {A} (r : JsVal + A) : M A :=
  match r with
  | inl e => throw e
  | inr a => ret a
  end.

Declare Scope js_scope.
Delimit Scope js_scope with js.
Notation "'let*' x ':=' m 'in' k" := (bind m (fun x => k))
  (at level 10, x pattern, m at level 100, k at level 200) : js_scope.
Notation "m ';;;' k" := (bind m (fun _ => k))
  (at level 100, k at level 200, right associativity) : js_scope.

End Runtime.
Import Runtime.
Local Open Scope js_scope.

(* ===================================================================== *)
(** * AudioCodesWebRTCWrapper                                             *)
(* ===================================================================== *)

Module AudioCodesWebRTCWrapper.
Section WithEnv.
Variable E : Env.

(** [await getUserMedia(constraints)]. *)
Definition getUserMedia : M MediaStream :=
  emit GetUserMedia ;;;
  let* w := get in
  suspend ;;;
  of_sum (navigator_getUserMedia E (now w)).

Definition hasDisplayMedia : M bool :=
  let* w := get in ret (navigator_hasDisplayMedia E (now w)).

(** [await getDisplayMedia()]. *)
Definition getDisplayMedia : M MediaStream :=
  emit GetDisplayMedia ;;;
  let* w := get in
  suspend ;;;
  of_sum (navigator_getDisplayMedia E (now w)).

(** [transceiver.setDirection]: [transceiver.direction = direction]. *)
Definition setDirection (i : nat) (dir : string) : M unit :=
  emit (SetDirection i dir) ;;;
  let* w := get in
  match connection w !! i with
  | Some t => put_connection (<[i := mkTransceiver (sender_track t) (receiver_track t) dir]> (connection w))
  | None => ret tt
  end.

Definition has_kind (t : option MediaStreamTrack) (k : string) : bool :=
  match t with
  | Some tr => String.eqb (kind tr) k
  | None => false
  end.

(** [connection.getTransceiver]: the index of the first transceiver whose
    sender track or receiver track has the kind. *)
Fixpoint getTransceiver_from (ts : list RTCRtpTransceiver) (k : string) (i : nat) : option nat :=
  match ts with
  | [] => None
  | t :: rest =>
      if has_kind (sender_track t) k then Some i
      else if has_kind (receiver_track t) k then Some i
      else getTransceiver_from rest k (S i)
  end.

Definition getTransceiver (c : RTCPeerConnection) (k : string) : option nat :=
  getTransceiver_from c k 0%nat.

(** The browser's [connection.addTrack], [connection.removeTrack] and
    [sender.replaceTrack]; the last one returns a promise, and this is what
    becomes of it. *)
Definition browser_addTrack (t : MediaStreamTrack) : M unit :=
  emit (AddTrack t) ;;;
  let* w := get in
  let* c := of_sum (connection_addTrack E (now w) (connection w) t) in
  put_connection c.

Definition browser_removeTrack (i : nat) : M unit :=
  emit (RemoveTrack i) ;;;
  let* w := get in
  let* c := of_sum (connection_removeTrack E (now w) (connection w) i) in
  put_connection c.

Definition browser_replaceTrack (i : nat) (t : MediaStreamTrack) : M unit :=
  emit (ReplaceTrack i t) ;;;
  let* w := get in
  let* c := of_sum (sender_replaceTrack E (now w) (connection w) i t) in
  put_connection c.

Definition sender_track_is_null (c : RTCPeerConnection) (i : nat) : bool :=
  match c !! i with
  | Some t => match sender_track t with None => true | Some _ => false end
  | None => false
  end.

(** [connection.addVideo(connection, localStream, videoTrack,
    enabledReceiveVideo, wasUsedSendVideo)], awaited. *)
Definition addVideo (videoTrack : MediaStreamTrack)
           (enabledReceiveVideo wasUsedSendVideo : bool) : M bool :=
  let* w := get in
  let vt := getTransceiver (connection w) "video" in
  match vt with
  | Some i =>
      setDirection i (if enabledReceiveVideo then "sendrecv" else "sendonly") ;;;
      if sender_track_is_null (connection w) i && negb wasUsedSendVideo
      then browser_addTrack videoTrack ;;; ret true
      else
        let* p := promise_of (browser_replaceTrack i videoTrack) in
        suspend ;;;
        await p ;;;   (* await vt.sender.replaceTrack(videoTrack) *)
        ret false
  | None =>
      browser_addTrack videoTrack ;;; ret true
  end.

(** The [for (let track of localStream.getVideoTracks())] of removeVideo. *)
Fixpoint remove_and_stop (tracks : list MediaStreamTrack) : M unit :=
  match tracks with
  | [] => ret tt
  | t :: rest =>
      emit (StreamRemoveTrack t) ;;;
      let* w := get in
      put_localStream (stream_removeTrack (localStream w) t) ;;;
      emit (TrackStop t) ;;;
      remove_and_stop rest
  end.

(** [connection.removeVideo(connection, localStream)], awaited. *)
Definition removeVideo : M unit :=
  let* w := get in
  match getTransceiver (connection w) "video" with
  | None => throw (JsString "no video transceiver found")
  | Some i =>
      browser_removeTrack i ;;;
      let* w := get in
      remove_and_stop (getVideoTracks (localStream w))
  end.

(** The first sender of [connection.getSenders()] whose track has the kind. *)
Fixpoint findSender (ts : list RTCRtpTransceiver) (k : string) (i : nat) : option nat :=
  match ts with
  | [] => None
  | t :: rest => if has_kind (sender_track t) k then Some i else findSender rest k (S i)
  end.

(** [connection.replaceSenderTrack(connection, kind, stream)]: the promise
    it returns. *)
Definition replaceSenderTrack (k : string) : M (Promise unit) :=
  let* w := get in
  match findSender (connection w) k 0%nat with
  | None => ret (Rejected (JsString ("No " ++ k ++ " sender")%string))
  | Some i =>
      let tracks := if String.eqb k "audio" then getAudioTracks (localStream w)
                    else getVideoTracks (localStream w) in
      match tracks with
      | [] => ret (Rejected (JsString ("No " ++ k ++ " track")%string))
      | t0 :: _ => promise_of (browser_replaceTrack i t0)
      end
  end.

End WithEnv.
End AudioCodesWebRTCWrapper.

(* ===================================================================== *)
(** * class AudioCodesSession                                             *)
(* ===================================================================== *)

Module AudioCodesSession.

(** The argument of [_renegotiate]: [{ repeat, delay, ...options }]. *)
Record Options : Type := mkOptions {
  repeat : option Z;
  delay : option Z;
  rest : ReInviteOptions
}.

(** [{}] *)
Definition no_options : Options :=
  mkOptions None None (mkReInviteOptions None None None).

(** [{ extraHeaders: [h] }] *)
Definition header_options (h : string) : Options :=
  mkOptions None None (mkReInviteOptions (Some [h]) None None).

(** The object built by the constructor. *)
Definition constructor : SessionData :=
  mkData true false None (mkVideo false false false false).

Definition hasSendVideo (d : SessionData) : bool := send (_video d).
Definition hasReceiveVideo (d : SessionData) : bool := receive (_video d).
Definition hasVideo (d : SessionData) : bool := hasSendVideo d && hasReceiveVideo d.
Definition getVideoState (d : SessionData) : string :=
  if hasSendVideo d && hasReceiveVideo d then "sendrecv"
  else if hasSendVideo d then "sendonly"
  else if hasReceiveVideo d then "recvonly"
  else "inactive".

Definition hasEnabledSendVideo (d : SessionData) : bool := enabledSend (_video d).
Definition hasEnabledReceiveVideo (d : SessionData) : bool := enabledReceive (_video d).
Definition getEnabledVideoState (d : SessionData) : string :=
  if hasEnabledSendVideo d && hasEnabledReceiveVideo d then "sendrecv"
  else if hasEnabledSendVideo d then "sendonly"
  else if hasEnabledReceiveVideo d then "recvonly"
  else "inactive".

Definition _setVideoState (send receive : bool) : M unit :=
  emit (SetVideoState send receive) ;;;
  modify_data (fun d =>
    let v := _video d in
    set_video d (mkVideo send receive (enabledSend v) (enabledReceive v))).

Definition _setEnabledSendVideo (enable : bool) : M unit :=
  emit (SetEnabledSendVideo enable) ;;;
  modify_data (fun d =>
    let v := _video d in
    set_video d (mkVideo (send v) (receive v) enable (enabledReceive v))).

Definition _setEnabledReceiveVideo (enable : bool) : M unit :=
  emit (SetEnabledReceiveVideo enable) ;;;
  modify_data (fun d =>
    let v := _video d in
    set_video d (mkVideo (send v) (receive v) (enabledSend v) enable)).

Section WithEnv.
Variable E : Env.

Definition isTerminated : M bool :=
  let* w := get in ret (isEnded (js_session E (now w))).
Definition isLocalHold : M bool :=
  let* w := get in ret (isOnHold_local (js_session E (now w))).
Definition isRemoteHold : M bool :=
  let* w := get in ret (isOnHold_remote (js_session E (now w))).

(** [hold(set)], awaited: JsSIP's [hold]/[unhold] returns [false]
    (the promise is rejected), or calls the done callback, or never. *)
Definition hold (set : bool) : M unit :=
  emit (Hold set) ;;;
  let* w := get in
  match js_hold E (now w) with
  | ReturnsFalse => throw JsUndefined
  | ReturnsTrue true => suspend
  | ReturnsTrue false => fun w => (Hang, w)
  end.

(** The promise built by [_doRenegotiate]. The executor runs at once:
    [reject()] when the session is ended, then - in every case - the call
    of [js_session.renegotiate], then [resolve(false)] when that call
    returns false. The first of [reject]/[resolve] settles the promise.
    When JsSIP accepts, [resolve(true)] comes from its done callback, after
    the exchange: the caller has been suspended by then. *)
Definition _doRenegotiate (options : ReInviteOptions) : M (Promise bool) :=
  let* w := get in
  let ended := isEnded (js_session E (now w)) in
  emit (Renegotiate options) ;;;
  match js_renegotiate E (now w) with
  | ReturnsFalse =>
      ret (if ended then Rejected JsUndefined else Fulfilled false)
  | ReturnsTrue done_called =>
      if ended then ret (Rejected JsUndefined)
      else if done_called then suspend ;;; ret (Fulfilled true)
      else ret Pending
  end.

(** [await new Promise(resolve => setTimeout(resolve, delay))] *)
Definition sleep (delay : Z) : M unit :=
  emit (SetTimeout delay) ;;; suspend.

(** The [while (true)] of [_renegotiate], entered with the counter [i]. *)
Equations? renegotiate_loop (repeat delay : Z) (options : ReInviteOptions)
           (i : Z) (w : World) : Completion unit * World
  by wf (Z.to_nat (repeat - i)) lt :=
  renegotiate_loop repeat delay options i w
    with (let* p := _doRenegotiate options in await p) w => {
    | (Normal true, w1) := (Normal tt, w1);
    | (Normal false, w1) with Z_ge_lt_dec (i + 1) repeat => {
        | left _ := (Throw (JsString "Renegotiation failed. Terminated"), w1);
        | right _ := renegotiate_loop repeat delay options (i + 1) (snd (sleep delay w1)) };
    | (Throw e, w1) := (Throw e, w1);
    | (Hang, w1) := (Hang, w1) }.
Proof. lia. Qed.

Definition _renegotiate (o : Options) : M unit :=
  renegotiate_loop (default 30 (repeat o)) (default 500 (delay o)) (rest o) 0.

Definition startSendingVideo (options : Options) : M unit :=
  let enabledReceiveVideo :=
    match enabledReceiveVideo (rest options) with
    | Some false => false
    | _ => true   (* undefined | true => true *)
    end in
  let* w := get in
  if hasEnabledSendVideo (data w) then throw (JsError "video already started")
  else
    let* videoStream :=
      try_catch (AudioCodesWebRTCWrapper.getUserMedia E) (fun e => throw e) in
    match getVideoTracks videoStream with
    | [] => throw (JsTypeError "MediaStream.addTrack: argument is not a MediaStreamTrack")
    | videoTrack :: _ =>
        emit (StreamAddTrack videoTrack) ;;;
        let* w := get in
        put_localStream (localStream w ++ [videoTrack]) ;;;
        _setEnabledSendVideo true ;;;
        _setEnabledReceiveVideo enabledReceiveVideo ;;;
        let* w := get in
        let wasUsedSendVideo := _wasUsedSendVideo (data w) in
        let* _ := try_catch
                    (AudioCodesWebRTCWrapper.addVideo E videoTrack
                       (hasEnabledReceiveVideo (data w)) wasUsedSendVideo)
                    (fun e => throw e) in
        _renegotiate options
    end.

Definition stopSendingVideo (options : Options) : M unit :=
  let* w := get in
  if negb (hasEnabledSendVideo (data w)) then throw (JsError "video already stopped")
  else
    try_catch (AudioCodesWebRTCWrapper.removeVideo E) (fun e => throw e) ;;;
    _setEnabledSendVideo false ;;;
    modify_data (fun d => set_wasUsedSendVideo d true) ;;;
    _renegotiate options.

Definition sendReInvite (options : Options) : M unit :=
  _renegotiate options ;;;
  match showStreams (rest options) with
  | Some true => emit CallShowStreams
  | _ => ret tt
  end.

Definition startScreenSharing : M unit :=
  let* supported := AudioCodesWebRTCWrapper.hasDisplayMedia E in
  if negb supported then throw (JsString "Screen sharing is not supported")
  else
    let* videoTrack :=
      try_catch
        (let* displayStream := AudioCodesWebRTCWrapper.getDisplayMedia E in
         ret (head (getVideoTracks displayStream)))
        (fun e => throw e) in
    match videoTrack with
    | None => throw (JsTypeError "Cannot set properties of undefined (setting 'onended')")
    | Some videoTrack =>
        emit (SetOnEnded videoTrack) ;;;
        modify_data (fun d =>
          set_screenSharing d (Some (mkScreenSharing videoTrack (hasSendVideo d)))) ;;;
        let* w := get in
        let wasUsedSendVideo := _wasUsedSendVideo (data w) in
        let* _ := try_catch
                    (AudioCodesWebRTCWrapper.addVideo E videoTrack
                       (hasEnabledReceiveVideo (data w)) wasUsedSendVideo)
                    (fun e =>
                       modify_data (fun d => set_screenSharing d None) ;;;
                       throw e) in
        _setEnabledSendVideo true ;;;
        _renegotiate (header_options "X-Screen-Sharing: on")
    end.

(** The handler of the screen track's [ended] event. *)
Definition _onEndedScreenSharing : M unit :=
  let* w := get in
  let screenSharing := _screenSharing (data w) in
  modify_data (fun d => set_screenSharing d None) ;;;
  let* terminated := isTerminated in
  if terminated then ret tt
  else
    let options := header_options "X-Screen-Sharing: off" in
    match screenSharing with
    | None => throw (JsTypeError "Cannot read properties of null (reading 'hadSendVideo')")
    | Some screenSharing =>
        (if hadSendVideo screenSharing then
           (* the promise of replaceSenderTrack is not awaited *)
           let* _ := AudioCodesWebRTCWrapper.replaceSenderTrack E "video" in
           _renegotiate options
         else
           stopSendingVideo options) ;;;
        if listeners_callScreenSharingEnded E then emit CallScreenSharingEnded
        else ret tt
    end.

(** [dispatchEvent] runs the handler; what becomes of the handler's promise
    is not looked at. *)
Definition stopScreenSharing : M unit :=
  let* w := get in
  match _screenSharing (data w) with
  | Some screenSharing =>
      emit (TrackStop (track screenSharing)) ;;;
      let* _ := promise_of _onEndedScreenSharing in
      ret tt
  | None => ret tt
  end.

End WithEnv.
End AudioCodesSession.

(* ===================================================================== *)
(** * class AudioCodesUA: the 'sdp' event and the WebSocket keep-alive    *)
(* ===================================================================== *)

Module AudioCodesUA.

Section WithEnv.
Variable E : Env.

(** [_sdp_checking(js_session, e)]; [ac_session = js_session.data.ac_session]
    is the session of the world. The [try] block fails when the constructor
    of AudioCodesSDP throws, or when [getMediaDirection] gives [undefined]
    to the destructuring assignment. *)
Definition _sdp_checking (e : SdpEvent) : M unit :=
  let type := (originator e ++ " " ++ JsSIP.type e)%string in
  let parsed :=
    match sdp e with
    | None => None
    | Some text =>
        match AudioCodesSDP.getMediaDirection (AudioCodesSDP.constructor text) "video"
                (String.eqb (originator e) "remote") with
        | Some (send, recv, _) => Some (send, recv)
        | None => None
        end
    end in
  match parsed with
  | None => ret tt   (* cannot parse SDP *)
  | Some (send, recv) =>
      (* after 1st answer it's not initial SDP negotiation. *)
      (if String.eqb (JsSIP.type e) "answer"
       then modify_data (fun d => set_initial d false) else ret tt) ;;;
      if String.eqb type "remote offer" then ret tt
      else if String.eqb type "remote answer" then
        let* l := AudioCodesSession.isLocalHold E in
        let* r := AudioCodesSession.isRemoteHold E in
        if l || r then ret tt   (* ignore hold re-INVITE *)
        else AudioCodesSession._setVideoState send recv
      else if String.eqb type "local offer" then ret tt
      else if String.eqb type "local answer" then
        let* l := AudioCodesSession.isLocalHold E in
        let* r := AudioCodesSession.isRemoteHold E in
        if l || r then ret tt   (* ignore hold re-INVITE *)
        else AudioCodesSession._setVideoState send recv
      else ret tt
  end.

End WithEnv.

(** ** WebSocket keep-alive *)

(** The interval task remembers the websocket it was started for. *)
Record PingTask : Type := mkPingTask { interval : Z; websocket : nat }.

(** What the monitor does to the outside. WebSockets are named by numbers. *)
Inductive Output : Type :=
| Hook (ws : nat)                          (* websocket.onmessage = this._onMessageHook *)
| Send (ws : nat) (data : string)          (* websocket.send(data) *)
| Close (ws : nat)                         (* this.wsSocket.close() *)
| Forward (data : string)                  (* this.wsOnMessage(arg) *)
| StatsReport (pongs min max : Z) (dist : string).   (* the keep-alive stats log line *)

Record UA : Type := mkUA {
  wsSocket : option nat;
  wsPingTask : option PingTask;
  wsPongTask : option Z;          (* the timeout it was armed with *)
  wsPingMs : Z;
  wsPongMs : Z;
  wsWasPong : bool;
  wsPongStats : Z;
  wsPongStatNum : Z;
  wsPongStatTime : Z;
  wsPongStatDelayMin : Z;
  wsPongStatDelayMax : Z;
  wsPongStatDist : option (list Z);
  output : list Output
}.

(** The fields as the constructor of AudioCodesUA sets them. *)
Definition constructor : UA :=
  mkUA None None None 0 0 false 0 0 0 1000000 0 None [].

Definition set_wsSocket (u : UA) (x : option nat) : UA :=
  mkUA x (wsPingTask u) (wsPongTask u) (wsPingMs u) (wsPongMs u) (wsWasPong u) (wsPongStats u)
       (wsPongStatNum u) (wsPongStatTime u) (wsPongStatDelayMin u) (wsPongStatDelayMax u)
       (wsPongStatDist u) (output u).
Definition set_wsPingTask (u : UA) (x : option PingTask) : UA :=
  mkUA (wsSocket u) x (wsPongTask u) (wsPingMs u) (wsPongMs u) (wsWasPong u) (wsPongStats u)
       (wsPongStatNum u) (wsPongStatTime u) (wsPongStatDelayMin u) (wsPongStatDelayMax u)
       (wsPongStatDist u) (output u).
Definition set_wsPongTask (u : UA) (x : option Z) : UA :=
  mkUA (wsSocket u) (wsPingTask u) x (wsPingMs u) (wsPongMs u) (wsWasPong u) (wsPongStats u)
       (wsPongStatNum u) (wsPongStatTime u) (wsPongStatDelayMin u) (wsPongStatDelayMax u)
       (wsPongStatDist u) (output u).
Definition set_wsPingMs (u : UA) (x : Z) : UA :=
  mkUA (wsSocket u) (wsPingTask u) (wsPongTask u) x (wsPongMs u) (wsWasPong u) (wsPongStats u)
       (wsPongStatNum u) (wsPongStatTime u) (wsPongStatDelayMin u) (wsPongStatDelayMax u)
       (wsPongStatDist u) (output u).
Definition set_wsPongMs (u : UA) (x : Z) : UA :=
  mkUA (wsSocket u) (wsPingTask u) (wsPongTask u) (wsPingMs u) x (wsWasPong u) (wsPongStats u)
       (wsPongStatNum u) (wsPongStatTime u) (wsPongStatDelayMin u) (wsPongStatDelayMax u)
       (wsPongStatDist u) (output u).
Definition set_wsWasPong (u : UA) (x : bool) : UA :=
  mkUA (wsSocket u) (wsPingTask u) (wsPongTask u) (wsPingMs u) (wsPongMs u) x (wsPongStats u)
       (wsPongStatNum u) (wsPongStatTime u) (wsPongStatDelayMin u) (wsPongStatDelayMax u)
       (wsPongStatDist u) (output u).
Definition set_wsPongStats (u : UA) (x : Z) : UA :=
  mkUA (wsSocket u) (wsPingTask u) (wsPongTask u) (wsPingMs u) (wsPongMs u) (wsWasPong u) x
       (wsPongStatNum u) (wsPongStatTime u) (wsPongStatDelayMin u) (wsPongStatDelayMax u)
       (wsPongStatDist u) (output u).
Definition set_wsPongStatNum (u : UA) (x : Z) : UA :=
  mkUA (wsSocket u) (wsPingTask u) (wsPongTask u) (wsPingMs u) (wsPongMs u) (wsWasPong u)
       (wsPongStats u) x (wsPongStatTime u) (wsPongStatDelayMin u) (wsPongStatDelayMax u)
       (wsPongStatDist u) (output u).
Definition set_wsPongStatTime (u : UA) (x : Z) : UA :=
  mkUA (wsSocket u) (wsPingTask u) (wsPongTask u) (wsPingMs u) (wsPongMs u) (wsWasPong u)
       (wsPongStats u) (wsPongStatNum u) x (wsPongStatDelayMin u) (wsPongStatDelayMax u)
       (wsPongStatDist u) (output u).
Definition set_wsPongStatDelayMin (u : UA) (x : Z) : UA :=
  mkUA (wsSocket u) (wsPingTask u) (wsPongTask u) (wsPingMs u) (wsPongMs u) (wsWasPong u)
       (wsPongStats u) (wsPongStatNum u) (wsPongStatTime u) x (wsPongStatDelayMax u)
       (wsPongStatDist u) (output u).
Definition set_wsPongStatDelayMax (u : UA) (x : Z) : UA :=
  mkUA (wsSocket u) (wsPingTask u) (wsPongTask u) (wsPingMs u) (wsPongMs u) (wsWasPong u)
       (wsPongStats u) (wsPongStatNum u) (wsPongStatTime u) (wsPongStatDelayMin u) x
       (wsPongStatDist u) (output u).
Definition set_wsPongStatDist (u : UA) (x : option (list Z)) : UA :=
  mkUA (wsSocket u) (wsPingTask u) (wsPongTask u) (wsPingMs u) (wsPongMs u) (wsWasPong u)
       (wsPongStats u) (wsPongStatNum u) (wsPongStatTime u) (wsPongStatDelayMin u)
       (wsPongStatDelayMax u) x (output u).
Definition put (u : UA) (o : Output) : UA :=
  mkUA (wsSocket u) (wsPingTask u) (wsPongTask u) (wsPingMs u) (wsPongMs u) (wsWasPong u)
       (wsPongStats u) (wsPongStatNum u) (wsPongStatTime u) (wsPongStatDelayMin u)
       (wsPongStatDelayMax u) (wsPongStatDist u) (output u ++ [o]).

(** [new Array(pongSeconds * 4).fill(0)] is only built for [pongDist]
    (seconds are whole and not negative). *)
Definition setWebSocketKeepAlive (pingSeconds pongSeconds pongStats : Z) (pongDist : bool)
           (u : UA) : UA :=
  let u := set_wsPingMs u (pingSeconds * 1000) in
  let u := set_wsPongMs u (pongSeconds * 1000) in
  let u := set_wsPongStats u pongStats in
  if pongDist then set_wsPongStatDist u (Some (replicate (Z.to_nat (pongSeconds * 4)) 0))
  else u.

(** [this.wsPongStatDist[n]++]: an index outside the array (only [-1] can
    occur) leaves every element as it is. *)
Definition increment (dist : list Z) (n : Z) : list Z :=
  if 0 <=? n then
    match dist !! Z.to_nat n with
    | Some x => <[Z.to_nat n := x + 1]> dist
    | None => dist
    end
  else dist.

(** The text of the distribution in the report, from index [i] on. *)
Fixpoint dist_text (dist : list Z) (i : Z) : string :=
  match dist with
  | [] => ""
  | x :: rest =>
      (toString x
       ++ match rest with
          | [] => ""
          | _ => if ((i + 1) mod 4 =? 0)%Z then "," else " "
          end
       ++ dist_text rest (i + 1))%string
  end.

(** [_onPong()]; [now] is the value of [Date.now()]. *)
Definition _onPong (now : Z) (u : UA) : UA :=
  if wsPongMs u =? 0 then u
  else
    let u := set_wsPongTask u None in   (* clearTimeout(this.wsPongTask) *)
    let u := if negb (wsWasPong u) then set_wsWasPong u true else u in
    if wsPongStats u >? 0 then
      let delay := now - wsPongStatTime u in
      let u := if delay <? wsPongStatDelayMin u then set_wsPongStatDelayMin u delay else u in
      let u := if delay >? wsPongStatDelayMax u then set_wsPongStatDelayMax u delay else u in
      let u :=
        match wsPongStatDist u with
        | Some dist =>
            let n := delay / 250 in   (* Math.floor(delay / 250) *)
            let n := if n >=? Z.of_nat (length dist) then Z.of_nat (length dist) - 1 else n in
            set_wsPongStatDist u (Some (increment dist n))
        | None => u
        end in
      let u := set_wsPongStatNum u (wsPongStatNum u + 1) in
      if wsPongStatNum u =? wsPongStats u then
        let dist :=
          match wsPongStatDist u with
          | Some d => (CRLF ++ dist_text d 0)%string
          | None => ""
          end in
        let u :=
          match wsPongStatDist u with
          | Some d => set_wsPongStatDist u (Some (replicate (length d) 0))   (* fill(0) *)
          | None => u
          end in
        let u := put u (StatsReport (wsPongStatNum u) (wsPongStatDelayMin u)
                                    (wsPongStatDelayMax u) dist) in
        let u := set_wsPongStatNum u 0 in
        let u := set_wsPongStatDelayMin u 1000000 in
        set_wsPongStatDelayMax u 0
      else u
    else u.

Definition _onMessageHook (data : string) (now : Z) (u : UA) : UA :=
  if String.eqb data CRLF then _onPong now u
  else put u (Forward data).

Definition _stopWsKeepAlive (u : UA) : UA :=
  let u := match wsPingTask u with Some _ => set_wsPingTask u None | None => u end in
  match wsPongTask u with Some _ => set_wsPongTask u None | None => u end.

(** [this.wsSocket.close()] inside [try]: on [null] the TypeError is caught. *)
Definition _onPongTimeout (u : UA) : UA :=
  let u := set_wsPongTask u None in
  if negb (wsWasPong u) then set_wsPongMs u 0
  else
    let u := _stopWsKeepAlive u in
    match wsSocket u with
    | Some ws => put u (Close ws)
    | None => u
    end.

Definition _startWsKeepAlive (websocket : nat) (u : UA) : UA :=
  let u := set_wsSocket u (Some websocket) in
  if wsPingMs u =? 0 then u
  else
    let u := put u (Hook websocket) in
    let u := _stopWsKeepAlive u in
    set_wsPingTask u (Some (mkPingTask (wsPingMs u) websocket)).

Definition WebSocket_OPEN : Z := 1.

(** The function given to [setInterval], run for the task [task];
    [readyState] is [websocket.readyState] at that moment. *)
Definition ping (task : PingTask) (readyState now : Z) (u : UA) : UA :=
  let u :=
    if (wsPongMs u >? 0) && match wsPongTask u with None => true | Some _ => false end then
      let u := if wsPongStats u >? 0 then set_wsPongStatTime u now else u in
      set_wsPongTask u (Some (wsPongMs u))
    else u in
  if readyState =? WebSocket_OPEN
  then put u (Send (websocket task) CRLFCRLF)
  else u.

(** What can happen to the monitor. *)
Inductive Event : Type :=
| SetKeepAlive (pingSeconds pongSeconds pongStats : Z) (pongDist : bool)
| Connected (websocket : nat)             (* jssipUA.on('connected') *)
| Disconnected                            (* jssipUA.on('disconnected') *)
| Message (data : string) (now : Z)       (* a message on a hooked websocket *)
| PingTick (readyState now : Z)           (* the interval task fires *)
| PongTimeout.                            (* the pong-wait timer fires *)

(** One event; [None] when it cannot happen in this state: a timer that is
    not set does not fire, and no message reaches the hook before a
    websocket was hooked. *)
Definition step (u : UA) (ev : Event) : option UA :=
  match ev with
  | SetKeepAlive ping pong stats dist_ => Some (setWebSocketKeepAlive ping pong stats dist_ u)
  | Connected websocket => Some (_startWsKeepAlive websocket u)
  | Disconnected => Some (_stopWsKeepAlive u)
  | Message data now =>
      if existsb (fun o => match o with Hook _ => true | _ => false end) (output u)
      then Some (_onMessageHook data now u) else None
  | PingTick readyState now =>
      match wsPingTask u with
      | Some task => Some (ping task readyState now u)
      | None => None
      end
  | PongTimeout =>
      match wsPongTask u with
      | Some _ => Some (_onPongTimeout u)
      | None => None
      end
  end.

Fixpoint run (u : UA) (evs : list Event) : option UA :=
  match evs with
  | [] => Some u
  | ev :: rest =>
      match step u ev with
      | Some u' => run u' rest
      | None => None
      end
  end.

End AudioCodesUA.

(* ===================================================================== *)
(** * Vocabulary of the properties                                        *)
(* ===================================================================== *)

(** The lines of a description joined the way [AudioCodesSDP.toString]
    joins them: every line followed by CR LF. *)
Fixpoint sdp_text (lines : list string) : string :=
  match lines with
  | [] => ""
  | l :: rest => (l ++ CRLF ++ sdp_text rest)%string
  end.

(** The direction attribute of a section (the session-level lines, or the
    lines of one media block): the value of its first line that is one of
    [a=sendrecv], [a=sendonly], [a=recvonly], [a=inactive]; [None] when the
    section has no such line. *)
Fixpoint direction_attribute (section : list string) : option string :=
  match section with
  | [] => None
  | line :: rest =>
      match AudioCodesSDP.checkSendRecv line with
      | Some d => Some d
      | None => direction_attribute rest
      end
  end.

(** A description whose session level says send-receive and whose video
    block says send-only. *)
Definition sdp_sendrecv_video_sendonly : string :=
  sdp_text [ "v=0"; "o=- 1 1 IN IP4 127.0.0.1"; "s=-"; "t=0 0"; "a=sendrecv";
             "m=audio 9 UDP/TLS/RTP/SAVPF 111"; "a=mid:0";
             "m=video 9 UDP/TLS/RTP/SAVPF 96"; "a=mid:1"; "a=sendonly" ].

(** A description with a video block and no direction attribute at all. *)
Definition sdp_video_no_direction : string :=
  sdp_text [ "v=0"; "s=-"; "m=video 9 UDP/TLS/RTP/SAVPF 96"; "a=mid:0" ].

(** The text of an 'sdp' event as the switch of [_sdp_checking] sees it. *)
Definition event_name (e : SdpEvent) : string :=
  (originator e ++ " " ++ JsSIP.type e)%string.

(** The call is on hold, locally or remotely, at the time of the world. *)
Definition on_hold (E : Env) (w : World) : bool :=
  isOnHold_local (js_session E (now w)) || isOnHold_remote (js_session E (now w)).

(** [w'] comes after [w]: the session data moved along [okD], and every
    action added to the trace satisfies [okA]. *)
Definition evolves (okD : SessionData -> SessionData -> Prop) (okA : Action -> Prop)
           (w w' : World) : Prop :=
  okD (data w) (data w') /\ exists tr, trace w' = trace w ++ tr /\ Forall okA tr.

(** Whatever world [m] starts in, the world it leaves comes after it. *)
Definition frame {A} (okD : SessionData -> SessionData -> Prop) (okA : Action -> Prop)
           (m : M A) : Prop :=
  forall w, evolves okD okA w (snd (m w)).

Definition same_initial (d d' : SessionData) : Prop := _initial d' = _initial d.

Definition same_enabledSend (d d' : SessionData) : Prop :=
  enabledSend (_video d') = enabledSend (_video d).

Definition any_action (a : Action) : Prop := True.

(** The actions that leave the senders of the connection and the
    enabled-send flag alone: no sender is added or removed, and
    [_setEnabledSendVideo] is not called. *)
Definition keeps_sender (a : Action) : Prop :=
  match a with
  | AddTrack _ | RemoveTrack _ | SetEnabledSendVideo _ => False
  | _ => True
  end.

(** The trace of [n] further attempts, each after a delay. *)
Fixpoint retries (n : nat) (options : ReInviteOptions) (delay : Z) : list Action :=
  match n with
  | O => []
  | S k => SetTimeout delay :: Renegotiate options :: retries k options delay
  end.

Definition is_Renegotiate (a : Action) : bool :=
  match a with Renegotiate _ => true | _ => false end.

Definition is_SetTimeout (a : Action) : bool :=
  match a with SetTimeout _ => true | _ => false end.

(** What can happen to a call session, one thing at a time. *)
Inductive Op : Type :=
| OnSdp (e : SdpEvent)                                  (* the 'sdp' event of the session *)
| DoHold (set : bool)
| DoStartSendingVideo (o : AudioCodesSession.Options)
| DoStopSendingVideo (o : AudioCodesSession.Options)
| DoSendReInvite (o : AudioCodesSession.Options)
| DoStartScreenSharing
| DoStopScreenSharing
| OnEndedScreenSharing                                  (* the screen track's ended event *)
| TimePasses.

Definition perform (E : Env) (op : Op) : M unit :=
  match op with
  | OnSdp e => AudioCodesUA._sdp_checking E e
  | DoHold set => AudioCodesSession.hold E set
  | DoStartSendingVideo o => AudioCodesSession.startSendingVideo E o
  | DoStopSendingVideo o => AudioCodesSession.stopSendingVideo E o
  | DoSendReInvite o => AudioCodesSession.sendReInvite E o
  | DoStartScreenSharing => AudioCodesSession.startScreenSharing E
  | DoStopScreenSharing => AudioCodesSession.stopScreenSharing E
  | OnEndedScreenSharing => AudioCodesSession._onEndedScreenSharing E
  | TimePasses => suspend
  end.

(** The world after a sequence of operations, however each of them ended. *)
Fixpoint perform_all (E : Env) (ops : list Op) (w : World) : World :=
  match ops with
  | [] => w
  | op :: rest => perform_all E rest (snd (perform E op w))
  end.

(** The values of [_initial] after each operation of the sequence. *)
Fixpoint initial_after (E : Env) (ops : list Op) (w : World) : list bool :=
  match ops with
  | [] => []
  | op :: rest =>
      let w' := snd (perform E op w) in
      _initial (data w') :: initial_after E rest w'
  end.

(** An answer event whose description the handler could read. *)
Definition is_processed_answer (op : Op) : bool :=
  match op with
  | OnSdp e =>
      String.eqb (JsSIP.type e) "answer"
      && match sdp e with Some _ => true | None => false end
  | _ => false
  end.

(** How often a flag that was [prev] goes from [from] to [to] along [l]. *)
Fixpoint count_changes (from to prev : bool) (l : list bool) : nat :=
  match l with
  | [] => O
  | b :: rest =>
      ((if Bool.eqb prev from && Bool.eqb b to then 1 else 0)
       + count_changes from to b rest)%nat
  end.

(** The screen-sharing record is still the one of [d], or has been cleared. *)
Definition screenSharing_kept (d d' : SessionData) : Prop :=
  _screenSharing d' = _screenSharing d \/ _screenSharing d' = None.

(** ** Environments and worlds to run the session in *)

(** The call is live and off hold; JsSIP returns false to every
    [renegotiate] and [hold]; the user grants neither camera nor screen. *)
Definition rejecting_env : Env :=
  mkEnv (fun _ => mkRTCSession false false false) (fun _ => ReturnsFalse)
        (fun _ => ReturnsFalse) (fun _ => inl (JsDOMException "NotAllowedError"))
        (fun _ => false) (fun _ => inl (JsDOMException "NotAllowedError"))
        (fun _ c _ => inr c) (fun _ c _ => inr c) (fun _ c _ _ => inr c) true.

(** As [rejecting_env], with the session ended. *)
Definition ended_env : Env :=
  mkEnv (fun _ => mkRTCSession true false false) (fun _ => ReturnsFalse)
        (fun _ => ReturnsFalse) (fun _ => inl (JsDOMException "NotAllowedError"))
        (fun _ => false) (fun _ => inl (JsDOMException "NotAllowedError"))
        (fun _ c _ => inr c) (fun _ c _ => inr c) (fun _ c _ _ => inr c) true.

(** As [rejecting_env], with the session on local hold. *)
Definition local_hold_env : Env :=
  mkEnv (fun _ => mkRTCSession false true false) (fun _ => ReturnsFalse)
        (fun _ => ReturnsFalse) (fun _ => inl (JsDOMException "NotAllowedError"))
        (fun _ => false) (fun _ => inl (JsDOMException "NotAllowedError"))
        (fun _ c _ => inr c) (fun _ c _ => inr c) (fun _ c _ _ => inr c) true.

Definition camera : MediaStreamTrack := mkTrack "video" "camera".
Definition screen : MediaStreamTrack := mkTrack "video" "screen".
Definition microphone : MediaStreamTrack := mkTrack "audio" "microphone".

(** The call is live, JsSIP accepts every renegotiation and completes it,
    the user grants camera and screen, and the browser does what it is
    asked: [addTrack] adds a sender, [removeTrack] and [replaceTrack] set
    the track of the sender. *)
Definition accepting_env : Env :=
  mkEnv (fun _ => mkRTCSession false false false) (fun _ => ReturnsTrue true)
        (fun _ => ReturnsTrue true) (fun _ => inr [camera])
        (fun _ => true) (fun _ => inr [screen])
        (fun _ c t => inr (c ++ [mkTransceiver (Some t) None "sendrecv"]))
        (fun _ c i =>
           inr (match c !! i with
                | Some t => <[i := mkTransceiver None (receiver_track t) (direction t)]> c
                | None => c
                end))
        (fun _ c i t =>
           inr (match c !! i with
                | Some tr => <[i := mkTransceiver (Some t) (receiver_track tr) (direction tr)]> c
                | None => c
                end))
        true.

(** A session just constructed. *)
Definition new_world : World :=
  mkWorld AudioCodesSession.constructor [] [] 0 [].

(** An established video call: microphone and camera are sent, video is
    negotiated and enabled both ways. *)
Definition sending_world : World :=
  mkWorld (mkData false false None (mkVideo true true true true))
          [ mkTransceiver (Some microphone) (Some (mkTrack "audio" "remote")) "sendrecv";
            mkTransceiver (Some camera) (Some (mkTrack "video" "remote")) "sendrecv" ]
          [ microphone; camera ] 0 [].

(** [sending_world] after [startScreenSharing] in [accepting_env]: the video
    sender carries the screen track, the camera track is still in the local
    stream. *)
Definition sharing_world : World :=
  mkWorld (mkData false false (Some (mkScreenSharing screen true))
                  (mkVideo true true true true))
          [ mkTransceiver (Some microphone) (Some (mkTrack "audio" "remote")) "sendrecv";
            mkTransceiver (Some screen) (Some (mkTrack "video" "remote")) "sendrecv" ]
          [ microphone; camera ] 3
          [ GetDisplayMedia; SetOnEnded screen; SetDirection 1 "sendrecv";
            ReplaceTrack 1 screen; SetEnabledSendVideo true;
            Renegotiate (mkReInviteOptions (Some ["X-Screen-Sharing: on"]) None None) ].

(** A description whose video block is inactive. *)
Definition sdp_video_inactive : string :=
  sdp_text [ "v=0"; "s=-"; "m=audio 9 UDP/TLS/RTP/SAVPF 111"; "a=sendrecv";
             "m=video 9 UDP/TLS/RTP/SAVPF 96"; "a=inactive" ].

(** ** Keep-alive vocabulary *)

(** The server's pong: a CRLF message. *)
Definition is_pong (ev : AudioCodesUA.Event) : bool :=
  match ev with
  | AudioCodesUA.Message data _ => String.eqb data CRLF
  | _ => false
  end.

(** The pongs that arrived on the current transport: the CRLF messages since
    the last 'connected' event. *)
Definition pongs_on_current_transport (evs : list AudioCodesUA.Event) : nat :=
  fold_left (fun n ev =>
               match ev with
               | AudioCodesUA.Connected _ => O
               | _ => if is_pong ev then S n else n
               end) evs O.

(** Whether the monitor, run from [u] over [evs], has handled a pong while
    pong checking was on - on whatever transport. *)
Fixpoint pong_observed (u : AudioCodesUA.UA) (evs : list AudioCodesUA.Event) : bool :=
  match evs with
  | [] => false
  | ev :: rest =>
      match AudioCodesUA.step u ev with
      | Some u' =>
          (is_pong ev && negb (AudioCodesUA.wsPongMs u =? 0)) || pong_observed u' rest
      | None => false
      end
  end.

Definition is_Close (o : AudioCodesUA.Output) : bool :=
  match o with AudioCodesUA.Close _ => true | _ => false end.

(** Any event but a new call of [setWebSocketKeepAlive]. *)
Definition not_reconfigured (ev : AudioCodesUA.Event) : Prop :=
  match ev with AudioCodesUA.SetKeepAlive _ _ _ _ => False | _ => True end.

(** While the pong-wait timer is set the interval task is set, and while the
    interval task is set the monitor has a websocket. *)
Definition armed_ok (u : AudioCodesUA.UA) : Prop :=
  (AudioCodesUA.wsPongTask u <> None -> AudioCodesUA.wsPingTask u <> None)
  /\ (AudioCodesUA.wsPingTask u <> None -> AudioCodesUA.wsSocket u <> None).

(** Pong checking is off and no timer waits for a pong. *)
Definition checking_off (u : AudioCodesUA.UA) : Prop :=
  AudioCodesUA.wsPongMs u = 0 /\ AudioCodesUA.wsPongTask u = None.

(** The bucket a delay would fall in if every bucket covered a quarter of the
    pong timeout (both in milliseconds). *)
Definition quarter_of_timeout_bucket (pongMs delay : Z) : Z := delay / (pongMs / 4).

(** The events that bring a new monitor to the phone's default settings
    (keepAlivePing 10, keepAlivePong 10, keepAliveStats 60) with the
    distribution on, connected, one probe sent at time 1000. *)
Definition first_probe : list AudioCodesUA.Event :=
  [ AudioCodesUA.SetKeepAlive 10 10 60 true; AudioCodesUA.Connected 1;
    AudioCodesUA.PingTick 1 1000 ].

(** The monitor after [first_probe]: the interval task runs, the pong-wait
    timer is set, no pong was seen. *)
Definition after_first_probe : AudioCodesUA.UA :=
  AudioCodesUA.mkUA (Some 1%nat) (Some (AudioCodesUA.mkPingTask 10000 1)) (Some 10000)
    10000 10000 false 60 0 1000 1000000 0 (Some (replicate 40 0))
    [AudioCodesUA.Hook 1; AudioCodesUA.Send 1 CRLFCRLF].

(** A pong on a first transport, then a reconnection and a probe that the
    new transport never answers. *)
Definition reconnect_then_silence : list AudioCodesUA.Event :=
  [ AudioCodesUA.SetKeepAlive 10 10 60 false; AudioCodesUA.Connected 1;
    AudioCodesUA.PingTick 1 1000; AudioCodesUA.Message CRLF 1300;
    AudioCodesUA.Disconnected; AudioCodesUA.Connected 2;
    AudioCodesUA.PingTick 1 50000 ].

(** The monitor after [reconnect_then_silence]: connected to the second
    websocket, the pong-wait timer set, a pong seen on the first one. *)
Definition after_reconnect_then_silence : AudioCodesUA.UA :=
  AudioCodesUA.mkUA (Some 2%nat) (Some (AudioCodesUA.mkPingTask 10000 2)) (Some 10000)
    10000 10000 true 60 1 50000 300 300 None
    [AudioCodesUA.Hook 1; AudioCodesUA.Send 1 CRLFCRLF;
     AudioCodesUA.Hook 2; AudioCodesUA.Send 2 CRLFCRLF].

(* ===================================================================== *)
(** * Vocabulary of the further properties                                *)
(* ===================================================================== *)

(** JsSIP returns false to the [renegotiate] calls made before time 2 and
    accepts from then on; otherwise as [accepting_env]. *)
Definition accepting_after_two : Env :=
  mkEnv (js_session accepting_env)
        (fun t => if (t <? 2)%nat then ReturnsFalse else ReturnsTrue true)
        (js_hold accepting_env) (navigator_getUserMedia accepting_env)
        (navigator_hasDisplayMedia accepting_env) (navigator_getDisplayMedia accepting_env)
        (connection_addTrack accepting_env) (connection_removeTrack accepting_env)
        (sender_replaceTrack accepting_env) (listeners_callScreenSharingEnded accepting_env).

(** The user grants the camera, and JsSIP returns false to every
    [renegotiate]; otherwise as [accepting_env]. *)
Definition camera_only_env : Env :=
  mkEnv (js_session accepting_env) (fun _ => ReturnsFalse)
        (js_hold accepting_env) (navigator_getUserMedia accepting_env)
        (navigator_hasDisplayMedia accepting_env) (navigator_getDisplayMedia accepting_env)
        (connection_addTrack accepting_env) (connection_removeTrack accepting_env)
        (sender_replaceTrack accepting_env) (listeners_callScreenSharingEnded accepting_env).

(** A call enabled to send video whose connection has an audio transceiver
    only. *)
Definition enabled_without_transceiver : World :=
  mkWorld (mkData false false None (mkVideo false false true false))
          [ mkTransceiver (Some microphone) (Some (mkTrack "audio" "remote")) "sendrecv" ]
          [ microphone ] 0 [].

(** Screen sharing on a call that was sending camera video, after the
    camera track was taken out of the local stream. *)
Definition sharing_without_camera : World :=
  mkWorld (mkData false false (Some (mkScreenSharing screen true))
                  (mkVideo true true true true))
          [ mkTransceiver (Some microphone) (Some (mkTrack "audio" "remote")) "sendrecv";
            mkTransceiver (Some screen) (Some (mkTrack "video" "remote")) "sendrecv" ]
          [ microphone ] 0 [].

(** ** More keep-alive vocabulary *)

(** The messages handed on to the handler the websocket had before the
    hook ([this.wsOnMessage]), in order. *)
Definition forwarded (outs : list AudioCodesUA.Output) : list string :=
  flat_map (fun o => match o with AudioCodesUA.Forward d => [d] | _ => [] end) outs.

(** The messages among the events that are not the server's pong. *)
Definition other_messages (evs : list AudioCodesUA.Event) : list string :=
  flat_map (fun ev => match ev with
                      | AudioCodesUA.Message d _ => if String.eqb d CRLF then [] else [d]
                      | _ => []
                      end) evs.

(** What the monitor does to no websocket: handing a message on and
    writing the statistics line. *)
Definition touches_no_websocket (o : AudioCodesUA.Output) : Prop :=
  match o with
  | AudioCodesUA.Forward _ | AudioCodesUA.StatsReport _ _ _ _ => True
  | _ => False
  end.

Definition not_Connected (ev : AudioCodesUA.Event) : Prop :=
  match ev with AudioCodesUA.Connected _ => False | _ => True end.

(** The interval task pings the websocket the monitor holds, and runs only
    with a ping interval. *)
Definition pings_current_websocket (u : AudioCodesUA.UA) : Prop :=
  forall task, AudioCodesUA.wsPingTask u = Some task ->
               AudioCodesUA.wsSocket u = Some (AudioCodesUA.websocket task)
               /\ AudioCodesUA.wsPingMs u <> 0.

(** Some SIP traffic around a pong, on a monitor set to ping. *)
Definition traffic_with_pong : list AudioCodesUA.Event :=
  [ AudioCodesUA.SetKeepAlive 10 10 0 false; AudioCodesUA.Connected 1;
    AudioCodesUA.Message "SIP/2.0 200 OK" 5; AudioCodesUA.PingTick 1 1000;
    AudioCodesUA.Message CRLF 1300; AudioCodesUA.Message "NOTIFY" 1400 ].

(** A connection, a disconnection and a new connection of a monitor that
    was never set to ping. *)
Definition reconnection : list AudioCodesUA.Event :=
  [ AudioCodesUA.Connected 1; AudioCodesUA.Disconnected; AudioCodesUA.Connected 2 ].

(** The monitor after [traffic_with_pong]. *)
Definition after_traffic_with_pong : AudioCodesUA.UA :=
  AudioCodesUA.mkUA (Some 1%nat) (Some (AudioCodesUA.mkPingTask 10000 1)) None
    10000 10000 true 0 0 0 1000000 0 None
    [AudioCodesUA.Hook 1; AudioCodesUA.Forward "SIP/2.0 200 OK";
     AudioCodesUA.Send 1 CRLFCRLF; AudioCodesUA.Forward "NOTIFY"].

(** A pong and a message that arrive after 'disconnected'. *)
Definition late_traffic : list AudioCodesUA.Event :=
  [ AudioCodesUA.Message CRLF 1300; AudioCodesUA.Message "NOTIFY" 1400;
    AudioCodesUA.Disconnected ].

(** [after_first_probe] after 'disconnected' and [late_traffic]. *)
Definition after_late_traffic : AudioCodesUA.UA :=
  AudioCodesUA.mkUA (Some 1%nat) None None 10000 10000 true 60 1 1000 300 300
    (Some (<[1%nat := 1]> (replicate 40 0)))
    [AudioCodesUA.Hook 1; AudioCodesUA.Send 1 CRLFCRLF; AudioCodesUA.Forward "NOTIFY"].

(** A new monitor after [reconnection]. *)
Definition after_reconnection : AudioCodesUA.UA :=
  AudioCodesUA.mkUA (Some 2%nat) None None 0 0 false 0 0 0 1000000 0 None [].

(** The time stamps of the events do not go back, starting at [t]. *)
Fixpoint chronological (t : Z) (evs : list AudioCodesUA.Event) : Prop :=
  match evs with
  | [] => True
  | AudioCodesUA.Message _ now :: rest | AudioCodesUA.PingTick _ now :: rest =>
      t <= now /\ chronological now rest
  | _ :: rest => chronological t rest
  end.

(** The number of pongs a distribution counts. *)
Definition counted (dist : list Z) : Z := fold_right Z.add 0 dist.

(** The distribution has [L] buckets and counts the pongs since the last
    report; the time of the last probe is not after [t]. *)
Definition hist_ok (L : nat) (t : Z) (u : AudioCodesUA.UA) : Prop :=
  exists d, AudioCodesUA.wsPongStatDist u = Some d /\ length d = L
            /\ counted d = AudioCodesUA.wsPongStatNum u
            /\ AudioCodesUA.wsPongStatTime u <= t.

(** A monitor configured as the phone does by default (ping 10 s, pong 10 s,
    report every 60 pongs, distribution on), before it connects. *)
Definition configured : AudioCodesUA.UA :=
  AudioCodesUA.setWebSocketKeepAlive 10 10 60 true AudioCodesUA.constructor.

(** A probe answered after 300 ms, a reconnection, and a second probe
    answered after 2600 ms. *)
Definition two_probes : list AudioCodesUA.Event :=
  [ AudioCodesUA.Connected 1; AudioCodesUA.PingTick 1 1000; AudioCodesUA.Message CRLF 1300;
    AudioCodesUA.Disconnected; AudioCodesUA.Connected 2;
    AudioCodesUA.PingTick 1 11000; AudioCodesUA.Message CRLF 13600 ].

(** The monitor after [two_probes]. *)
Definition after_two_probes : AudioCodesUA.UA :=
  AudioCodesUA.mkUA (Some 2%nat) (Some (AudioCodesUA.mkPingTask 10000 2)) None
    10000 10000 true 60 2 11000 300 2600
    (Some (<[10%nat := 1]> (<[1%nat := 1]> (replicate 40 0))))
    [AudioCodesUA.Hook 1; AudioCodesUA.Send 1 CRLFCRLF;
     AudioCodesUA.Hook 2; AudioCodesUA.Send 2 CRLFCRLF].

(** ** Vocabulary for the text of a description *)

(** The lines the constructor of AudioCodesSDP works on: the pieces of the
    text between line feeds, trimmed, without the empty ones. *)
Definition sdp_lines (text : string) : list string :=
  List.filter (fun l => (0 <? Z.of_nat (String.length l))%Z)
              (List.map trim (split LF text)).

(** All lines of a parsed description, in the order [toString] prints them. *)
Definition all_lines (sdp : AudioCodesSDP.t) : list string :=
  AudioCodesSDP.start sdp ++ List.concat (AudioCodesSDP.media sdp).

Fixpoint has_char (c : ascii) (s : string) : bool :=
  match s with
  | EmptyString => false
  | String a s' => Ascii.eqb a c || has_char c s'
  end.

(** A line as the constructor keeps it: not empty, with no white space at
    either end and no line feed inside. *)
Definition is_line (l : string) : bool :=
  (0 <? Z.of_nat (String.length l))%Z && String.eqb (trim l) l && negb (has_char LF l).

Definition is_media_line (l : string) : bool := startsWith l "m=".

(** A media block: an [m=] line, then lines that are not [m=] lines. *)
Definition is_block (m : list string) : bool :=
  match m with
  | [] => false
  | m0 :: rest => is_media_line m0 && forallb (fun l => negb (is_media_line l)) rest
  end && forallb is_line m.

(** A description as the constructor builds it: session-level lines without
    an [m=] line, then media blocks. *)
Definition well_formed (sdp : AudioCodesSDP.t) : bool :=
  forallb is_line (AudioCodesSDP.start sdp)
  && forallb (fun l => negb (is_media_line l)) (AudioCodesSDP.start sdp)
  && forallb is_block (AudioCodesSDP.media sdp).

(** An audio and video description, as an object. *)
Definition parsed_audio_video : AudioCodesSDP.t :=
  AudioCodesSDP.mk
    [ "v=0"; "o=- 1 1 IN IP4 127.0.0.1"; "s=-"; "t=0 0"; "a=sendrecv" ]
    [ [ "m=audio 9 UDP/TLS/RTP/SAVPF 111"; "a=mid:0" ];
      [ "m=video 9 UDP/TLS/RTP/SAVPF 96"; "a=mid:1"; "a=sendonly" ] ].

(* ===================================================================== *)
(** * Making and answering calls                                          *)
(* ===================================================================== *)

(** [AudioCodesUA._convertIceList], [_callOptions] and [call], the part of
    the 'newRTCSession' and 'connecting' handlers that deals with video, and
    [AudioCodesSession.answer]. The fields of the phone and of [this.data]
    that only this code uses have records of their own here. *)
Module Calls.

(** [phone.AUDIO], [phone.VIDEO], [phone.RECVONLY_VIDEO]. *)
Inductive Symbol : Type := AUDIO | VIDEO | RECVONLY_VIDEO.

Definition Symbol_eqb (a b : Symbol) : bool :=
  match a, b with
  | AUDIO, AUDIO | VIDEO, VIDEO | RECVONLY_VIDEO, RECVONLY_VIDEO => true
  | _, _ => false
  end.

Definition description (s : Symbol) : string :=
  match s with
  | AUDIO => "audio"
  | VIDEO => "video"
  | RECVONLY_VIDEO => "recvonly_video"
  end.

(** [symbol.toString()] *)
Definition Symbol_toString (s : Symbol) : string :=
  ("Symbol(" ++ description s ++ ")")%string.

(** A value given as [videoOption]: a boolean, one of the symbols of the
    phone, or something else, of which the code only calls [toString()]:
    it returns a text or throws (a TypeError on [null] and [undefined]). *)
Inductive VideoOption : Type :=
| OfBoolean (b : bool)
| OfSymbol (s : Symbol)
| OtherValue (toString : JsVal + string).

(** The browsers [_detectBrowser] tells apart. *)
Inductive Browser : Type := chrome | firefox | safari | ios_safari | other.

Definition Browser_eqb (a b : Browser) : bool :=
  match a, b with
  | chrome, chrome | firefox, firefox | safari, safari
  | ios_safari, ios_safari | other, other => true
  | _, _ => false
  end.

(** A constraint for getUserMedia: true, false or a constraints object
    (by its JSON text). *)
Inductive Constraint : Type :=
| OfBool (b : bool)
| OfObject (json : string).

(** [this.constraints[browser]] *)
Record BrowserConstraints : Type := mkBrowserConstraints {
  audio : Constraint;
  video : Constraint
}.

(** [options.mediaConstraints]: [video] is only there for a video call. *)
Record MediaConstraints : Type := mkMediaConstraints {
  mc_audio : Constraint;
  mc_video : option Constraint
}.

(** An entry of the list given to [setServerConfig]: the short form, an
    address, or an RTCIceServer object. *)
Inductive IceEntry : Type :=
| IceAddress (address : string)
| IceServer (urls : string) (username credential : option string).

(** [options.pcConfig]; [pc_rest] are its other properties, by name and
    JSON text. *)
Record PcConfig : Type := mkPcConfig {
  pc_iceServers : option (list IceEntry);
  pc_rest : list (string * string)
}.

(** The options object of a call: [extraOptions] as given by the user, and
    [options] as handed to JsSIP; [rest] are the properties this code does
    not look at. *)
Record Options : Type := mkOptions {
  mediaConstraints : option MediaConstraints;
  pcConfig : option PcConfig;
  extraHeaders : option (list string);
  mediaStream : option MediaStream;
  rest : list (string * string)
}.

Definition set_mediaStream (o : Options) (s : option MediaStream) : Options :=
  mkOptions (mediaConstraints o) (pcConfig o) (extraHeaders o) s (rest o).

(** The fields of AudioCodesUA this code reads. *)
Record Phone : Type := mkPhone {
  browser : Browser;
  constraints : Browser -> BrowserConstraints;
  iceServers : option (list IceEntry);     (* this.serverConfig.iceServers *)
  enableAddVideo : bool;
  video_call_audio_answer_fix : bool;      (* this.modes.video_call_audio_answer_fix *)
  oauthToken : option string;
  oauthTokenUseInInvite : bool
}.

Definition _convertIceList (ices : list IceEntry) : list IceEntry :=
  List.map (fun entry =>
              match entry with
              | IceAddress address => IceServer ("stun:" ++ address) None None
              | _ => entry
              end) ices.

(** [setServerConfig]: the field [serverConfig.iceServers] it sets. *)
Definition setServerConfig (p : Phone) (iceServers : list IceEntry) : Phone :=
  mkPhone (browser p) (constraints p) (Some (_convertIceList iceServers)) (enableAddVideo p)
          (video_call_audio_answer_fix p) (oauthToken p) (oauthTokenUseInInvite p).

Definition _callOptions (p : Phone) (sendVideo isOutgoing : bool)
           (extraHeaders0 : option (list string)) (extraOptions : option Options) : Options :=
  let options :=
    match extraOptions with
    | Some o => o                        (* Object.assign(options, extraOptions) *)
    | None => mkOptions None None None None []
    end in
  let mc := mkMediaConstraints (audio (constraints p (browser p)))
                               (if sendVideo then Some (video (constraints p (browser p)))
                                else None) in
  let pc := match pcConfig options with
            | Some pc => pc
            | None => mkPcConfig None []
            end in
  let pc := mkPcConfig (iceServers p) (pc_rest pc) in
  let headers :=
    match oauthToken p with
    | Some token =>
        if oauthTokenUseInInvite p && isOutgoing
        then Some (default [] extraHeaders0 ++ ["Authorization: Bearer " ++ token]%string)
        else extraHeaders0
    | None => extraHeaders0
    end in
  mkOptions (Some mc) (Some pc)
            (match headers with
             | Some h => Some h
             | None => extraHeaders options
             end)
            (mediaStream options) (rest options).

(** "Convert boolean value to Symbol" *)
Definition convert (videoOption : VideoOption) : VideoOption :=
  match videoOption with
  | OfBoolean false => OfSymbol AUDIO
  | OfBoolean true => OfSymbol VIDEO
  | v => v
  end.

(** The check [typeof videoOption !== 'symbol' || !allowed.includes(videoOption)]
    and the [throw] that follows it. *)
Definition legal (allowed : list Symbol) (videoOption : VideoOption) : JsVal + Symbol :=
  match videoOption with
  | OfSymbol s =>
      if existsb (Symbol_eqb s) allowed then inr s
      else inl (JsString ("Illegal videoOption=" ++ Symbol_toString s))
  | OfBoolean b =>
      inl (JsString ("Illegal videoOption=" ++ (if b then "true" else "false")))
  | OtherValue (inr text) => inl (JsString ("Illegal videoOption=" ++ text))
  | OtherValue (inl e) => inl e
  end.

(** The fields of [this.data] of a session that [answer] and the handlers
    of 'connecting', 'confirmed' and 'track' share; [false] and [None] are
    [undefined]. *)
Record AnswerData : Type := mkAnswerData {
  _answer_called : bool;
  _answer_set_video_transceiver : option string;
  _video_call_audio_answer : bool
}.

(** What the code asks of the JsSIP session in the end. *)
Inductive JsSipCall : Type :=
| JsAnswer (options : Options)          (* js_session.answer(options) *)
| JsTerminate (status_code : Z).        (* js_session.terminate({ status_code }) *)

(** The 'newRTCSession' handler, for what it does to the video flags of the
    new call: [originator] is [e.originator] and [body] is [e.request.body]
    ([None], like the empty string, is a request without a description). The
    session handlers it installs, the fields [_user], [_host],
    [_display_name], [_create_time] and the call of the listener
    [incomingCall] are left out. *)
Definition newRTCSession (p : Phone) (originator : string) (body : option string) : M unit :=
  modify_data (fun _ => AudioCodesSession.constructor) ;;;   (* new AudioCodesSession *)
  AudioCodesSession._setEnabledReceiveVideo (enableAddVideo p) ;;;
  if String.eqb originator "remote" then
    let* flags :=
      match body with
      | Some (String c text) =>
          match AudioCodesSDP.getMediaDirection
                  (AudioCodesSDP.constructor (String c text)) "video" true with
          | Some (send, recv, _) => ret (send, recv)
          | None => throw (JsTypeError "undefined is not iterable")
          end
      | _ => ret (true, true)   (* to enable answer with or without video. *)
      end in
    AudioCodesSession._setVideoState (fst flags) (snd flags)
  else ret tt.

(** [answer(videoOption, extraHeaders, extraOptions)] together with the
    promise chain it starts; the result is [None] when the call is ignored,
    else the options built by [_callOptions] (their [mediaConstraints] go to
    [getUserMedia]) and what is asked of JsSIP. [js_answer] tells what
    [js_session.answer] throws, if it does. *)
Definition answer (p : Phone) (E : Env) (js_answer : Options -> option JsVal)
           (videoOption : VideoOption)
           (extraHeaders0 : option (list string)) (extraOptions : option Options)
           (a : AnswerData) (w : World)
  : Completion (option (Options * list JsSipCall)) * (AnswerData * World) :=
  if _answer_called a then (Normal None, (a, w))   (* already called. [Ignored] *)
  else
    let a := mkAnswerData true (_answer_set_video_transceiver a) (_video_call_audio_answer a) in
    match legal [AUDIO; RECVONLY_VIDEO; VIDEO] (convert videoOption) with
    | inl e => (Throw e, (a, w))
    | inr videoOption =>
        let hasVideo := AudioCodesSession.hasVideo (data w) in
        let videoOption :=
          if negb hasVideo
             && (Symbol_eqb videoOption RECVONLY_VIDEO || Symbol_eqb videoOption VIDEO)
          then AUDIO   (* incoming INVITE without video, so answer can be only "audio" *)
          else videoOption in
        let a :=
          if hasVideo then
            match videoOption with
            | AUDIO =>
                let a := mkAnswerData (_answer_called a) (Some "inactive")
                                      (_video_call_audio_answer a) in
                if video_call_audio_answer_fix p
                   && existsb (Browser_eqb (browser p)) [safari; ios_safari; firefox]
                then mkAnswerData (_answer_called a) (_answer_set_video_transceiver a) true
                else a
            | RECVONLY_VIDEO =>
                mkAnswerData (_answer_called a) (Some "recvonly") (_video_call_audio_answer a)
            | VIDEO => a
            end
          else a in
        let flags : M unit :=
          match videoOption with
          | AUDIO =>
              AudioCodesSession._setEnabledSendVideo false ;;;
              (let* w := get in
               AudioCodesSession._setEnabledReceiveVideo
                 (if AudioCodesSession.hasVideo (data w) then false else enableAddVideo p)) ;;;
              AudioCodesSession._setVideoState false false
          | VIDEO =>
              AudioCodesSession._setEnabledSendVideo true ;;;
              AudioCodesSession._setEnabledReceiveVideo true ;;;
              AudioCodesSession._setVideoState true true
          | RECVONLY_VIDEO =>
              AudioCodesSession._setEnabledSendVideo false ;;;
              AudioCodesSession._setEnabledReceiveVideo true ;;;
              AudioCodesSession._setVideoState false true
          end in
        let options := _callOptions p (Symbol_eqb videoOption VIDEO) false
                                    extraHeaders0 extraOptions in
        let chain : M (list JsSipCall) :=
          let* stream := promise_of (AudioCodesWebRTCWrapper.getUserMedia E) in
          match stream with
          | Fulfilled stream =>
              let options := set_mediaStream options (Some stream) in
              match js_answer options with
              | None => ret [JsAnswer options]
              | Some _ => ret [JsAnswer options; JsTerminate 488]   (* .catch: this.reject(488) *)
              end
          | Rejected _ => ret [JsTerminate 488]
          | Pending => fun w => (Hang, w)
          end in
        match (flags ;;; chain) w with
        | (Normal calls, w') => (Normal (Some (options, calls)), (a, w'))
        | (Throw e, w') => (Throw e, (a, w'))
        | (Hang, w') => (Hang, (a, w'))
        end
    end.

(** The handler of the session's 'connecting' event. *)
Definition connecting (a : AnswerData) : M AnswerData :=
  match _answer_set_video_transceiver a with
  | Some dir =>
      let a := mkAnswerData (_answer_called a) None (_video_call_audio_answer a) in   (* delete *)
      let* w := get in
      match AudioCodesWebRTCWrapper.getTransceiver (connection w) "video" with
      | Some vt => AudioCodesWebRTCWrapper.setDirection vt dir ;;; ret a
      | None => ret a
      end
  | None => ret a
  end.

(** [call(videoOption, call_to, extraHeaders, extraOptions)], run in the
    world of the session JsSIP creates: [jssipUA.call] throws what
    [jssip_call] says, or fires 'newRTCSession' for the new session and
    returns it. The result is the options given to JsSIP. *)
Definition call (p : Phone) (jssip_call : string -> Options -> option JsVal)
           (videoOption : VideoOption) (call_to : string)
           (extraHeaders0 : option (list string)) (extraOptions : option Options)
  : M Options :=
  match legal [AUDIO; VIDEO] (convert videoOption) with
  | inl e => throw e
  | inr videoOption =>
      let options := _callOptions p (Symbol_eqb videoOption VIDEO) true
                                  extraHeaders0 extraOptions in
      match jssip_call call_to options with
      | Some e => throw e
      | None =>
          newRTCSession p "local" None ;;;
          AudioCodesSession._setEnabledSendVideo (Symbol_eqb videoOption VIDEO) ;;;
          (if Symbol_eqb videoOption VIDEO
           then AudioCodesSession._setEnabledReceiveVideo true else ret tt) ;;;
          ret options
      end
  end.

End Calls.

(** ** Vocabulary for calls *)

(** The option [answer] goes by: audio, whatever was asked, when the INVITE
    offered no video. *)
Definition effective_option (hasVideo : bool) (s : Calls.Symbol) : Calls.Symbol :=
  if hasVideo then s else Calls.AUDIO.

(** The video flags [answer] leaves. *)
Definition answered_video (p : Calls.Phone) (hasVideo : bool) (s : Calls.Symbol) : Video :=
  match effective_option hasVideo s with
  | Calls.AUDIO => mkVideo false false false (if hasVideo then false else Calls.enableAddVideo p)
  | Calls.VIDEO => mkVideo true true true true
  | Calls.RECVONLY_VIDEO => mkVideo false true false true
  end.

(** The setters [answer] calls, in order. *)
Definition answered_actions (p : Calls.Phone) (hasVideo : bool) (s : Calls.Symbol)
  : list Action :=
  let v := answered_video p hasVideo s in
  [ SetEnabledSendVideo (enabledSend v); SetEnabledReceiveVideo (enabledReceive v);
    SetVideoState (send v) (receive v) ].

(** A value that is one of the three symbols, or a boolean. *)
Definition as_symbol (videoOption : Calls.VideoOption) : option Calls.Symbol :=
  match videoOption with
  | Calls.OfBoolean b => Some (if b then Calls.VIDEO else Calls.AUDIO)
  | Calls.OfSymbol s => Some s
  | Calls.OtherValue _ => None
  end.

(** A phone with the settings of the constructor, on Chrome. *)
Definition default_phone : Calls.Phone :=
  Calls.mkPhone Calls.chrome
    (fun _ => Calls.mkBrowserConstraints (Calls.OfBool true) (Calls.OfBool true))
    None false true None true.

(** [this.data] of a session on which [answer] was not called. *)
Definition not_answered : Calls.AnswerData := Calls.mkAnswerData false None false.

(** An incoming call that offers video both ways: the session after
    'newRTCSession' for an INVITE without a description. *)
Definition video_offer : World :=
  mkWorld (mkData true false None (mkVideo true true false false)) [] [] 0 [].

(** The description of an INVITE that offers audio only. *)
Definition audio_only_invite : string :=
  sdp_text [ "v=0"; "s=-"; "m=audio 9 UDP/TLS/RTP/SAVPF 111"; "a=sendrecv" ].

(** A direction seen from the other side. *)
Definition mirrored (d : string) : string :=
  if String.eqb d "sendonly" then "recvonly"
  else if String.eqb d "recvonly" then "sendonly"
  else d.

(* ===================================================================== *)
(** * AudioCodesSDP: the direction of a media kind                        *)
(* ===================================================================== *)

Section SDPFacts.
Import AudioCodesSDP.

Lemma checkSendRecv_Some line d :
  checkSendRecv line = Some d ->
  d = "sendrecv" \/ d = "sendonly" \/ d = "recvonly" \/ d = "inactive".
Proof.
  unfold checkSendRecv.
  repeat match goal with |- context [String.eqb ?a ?b] => destruct (String.eqb a b) end;
    intros H; inversion H; auto.
Qed.

Lemma scan_direction_attribute lines result :
  scan lines result = default result (direction_attribute lines).
Proof.
  induction lines as [|line rest IH]; simpl; [reflexivity|].
  destruct (checkSendRecv line); [reflexivity | exact IH].
Qed.

Lemma direction_attribute_Some lines d :
  direction_attribute lines = Some d ->
  d = "sendrecv" \/ d = "sendonly" \/ d = "recvonly" \/ d = "inactive".
Proof.
  induction lines as [|line rest IH]; simpl; [discriminate|].
  destruct (checkSendRecv line) eqn:Hc; [|exact IH].
  intros H; inversion H; subst. eapply checkSendRecv_Some; eauto.
Qed.

(** The resolved direction, in terms of the two sections. *)
Lemma getMediaDirectionValue_resolved sdp type :
  getMediaDirectionValue sdp type =
  match getMedia sdp type with
  | None => None
  | Some m =>
      Some (default (default "sendrecv" (direction_attribute (start sdp)))
                    (direction_attribute m))
  end.
Proof.
  unfold getMediaDirectionValue. destruct (getMedia sdp type); [|reflexivity].
  now rewrite !scan_direction_attribute.
Qed.

Lemma getMediaDirectionValue_Some sdp type d :
  getMediaDirectionValue sdp type = Some d ->
  d = "sendrecv" \/ d = "sendonly" \/ d = "recvonly" \/ d = "inactive".
Proof.
  rewrite getMediaDirectionValue_resolved.
  destruct (getMedia sdp type) as [m|]; [|discriminate].
  intros H; inversion H; subst; clear H.
  destruct (direction_attribute m) eqn:Hm; simpl.
  - eapply direction_attribute_Some; eauto.
  - destruct (direction_attribute (start sdp)) eqn:Hs; simpl; [|auto].
    eapply direction_attribute_Some; eauto.
Qed.

(** The switch of [getMediaDirection] always finds its case. *)
Lemma getMediaDirection_is_Some sdp type remote :
  exists send recv,
    getMediaDirection sdp type remote = Some (send, recv, getMediaDirectionValue sdp type).
Proof.
  unfold getMediaDirection.
  destruct (getMediaDirectionValue sdp type) as [d|] eqn:Hd; [|eauto].
  destruct (getMediaDirectionValue_Some _ _ _ Hd) as [-> | [-> | [-> | ->]]];
    simpl; destruct remote; eauto.
Qed.

(** C5. The resolved direction of a media kind is turned into
    (canSend, canReceive) as seen by the analysing party: send-receive gives
    (true, true); send-only gives (false, true) for a remote description and
    (true, false) for a local one; receive-only gives (true, false) for a
    remote description and (false, true) for a local one; inactive, and a
    description without a block of the kind, give (false, false). These
    cases cover every description. In particular a description with a
    session-level send-receive and a send-only video block, read as remote,
    yields (false, true). *)
Theorem getMediaDirection_perspective (sdp : AudioCodesSDP.t) (type : string) (remote : bool) :
  let dir := getMediaDirectionValue sdp type in
  let result := getMediaDirection sdp type remote in
  ((dir = Some "sendrecv" /\ result = Some (true, true, dir))
   \/ (dir = Some "sendonly"
       /\ result = Some (if remote then (false, true, dir) else (true, false, dir)))
   \/ (dir = Some "recvonly"
       /\ result = Some (if remote then (true, false, dir) else (false, true, dir)))
   \/ (dir = Some "inactive" /\ result = Some (false, false, dir))
   \/ (getMedia sdp type = None /\ dir = None /\ result = Some (false, false, dir)))
  /\ getMediaDirection (constructor sdp_sendrecv_video_sendonly) "video" true
     = Some (false, true, Some "sendonly").
Proof.
  cbn zeta. split; [|reflexivity].
  unfold getMediaDirection.
  destruct (getMediaDirectionValue sdp type) as [d|] eqn:Hd.
  - destruct (getMediaDirectionValue_Some _ _ _ Hd) as [-> | [-> | [-> | ->]]]; simpl; auto 6.
  - do 4 right. repeat split.
    unfold getMediaDirectionValue in Hd. destruct (getMedia sdp type); [discriminate | reflexivity].
Qed.

(** C6. When the description has a block of the requested kind: if the
    session level and that block both carry a direction attribute, the
    resolved direction is the block's; if neither does, it is send-receive. *)
Theorem media_direction_overrides_session
        (sdp : AudioCodesSDP.t) (type : string) (m : list string)
        (Hmedia : getMedia sdp type = Some m) :
  (forall ds dm,
      direction_attribute (start sdp) = Some ds ->
      direction_attribute m = Some dm ->
      getMediaDirectionValue sdp type = Some dm)
  /\ (direction_attribute (start sdp) = None ->
      direction_attribute m = None ->
      getMediaDirectionValue sdp type = Some "sendrecv").
Proof.
  rewrite getMediaDirectionValue_resolved, Hmedia. split.
  - intros ds dm _ ->. reflexivity.
  - intros -> ->. reflexivity.
Qed.

Lemma media_direction_overrides_session_witness :
  getMediaDirectionValue (constructor sdp_sendrecv_video_sendonly) "video" = Some "sendonly"
  /\ getMediaDirectionValue (constructor sdp_video_no_direction) "video" = Some "sendrecv".
Proof.
  split.
  - apply (proj1 (media_direction_overrides_session
                    (constructor sdp_sendrecv_video_sendonly) "video"
                    ["m=video 9 UDP/TLS/RTP/SAVPF 96"; "a=mid:1"; "a=sendonly"]
                    eq_refl) "sendrecv" "sendonly"); reflexivity.
  - apply (proj2 (media_direction_overrides_session
                    (constructor sdp_video_no_direction) "video"
                    ["m=video 9 UDP/TLS/RTP/SAVPF 96"; "a=mid:0"]
                    eq_refl)); reflexivity.
Defined.

End SDPFacts.

(* ===================================================================== *)
(** * Frame rules: what a piece of code leaves alone                      *)
(* ===================================================================== *)

#[export] Instance same_initial_preorder : PreOrder same_initial.
Proof. split; unfold same_initial; [intros d | intros a b c H1 H2]; congruence. Qed.

#[export] Instance same_enabledSend_preorder : PreOrder same_enabledSend.
Proof. split; unfold same_enabledSend; [intros d | intros a b c H1 H2]; congruence. Qed.

Section FrameRules.
Variable okD : SessionData -> SessionData -> Prop.
Variable okA : Action -> Prop.
Context `{!PreOrder okD}.

Lemma evolves_refl w : evolves okD okA w w.
Proof.
  split; [reflexivity|]. exists []. split; [now rewrite app_nil_r | constructor].
Qed.

Lemma evolves_trans w1 w2 w3 :
  evolves okD okA w1 w2 -> evolves okD okA w2 w3 -> evolves okD okA w1 w3.
Proof.
  intros [Hd1 (t1 & Ht1 & Hf1)] [Hd2 (t2 & Ht2 & Hf2)]. split.
  - etransitivity; eauto.
  - exists (t1 ++ t2). split.
    + now rewrite Ht2, Ht1, app_assoc.
    + apply Forall_app; auto.
Qed.

Lemma frame_ret {A} (a : A) : frame okD okA (ret a).
Proof. intros w. apply evolves_refl. Qed.

Lemma frame_throw {A} e : frame okD okA (@throw A e).
Proof. intros w. apply evolves_refl. Qed.

Lemma frame_get : frame okD okA get.
Proof. intros w. apply evolves_refl. Qed.

Lemma frame_suspend : frame okD okA suspend.
Proof.
  intros w. split; simpl; [reflexivity|].
  exists []. split; [now rewrite app_nil_r | constructor].
Qed.

Lemma frame_put_connection c : frame okD okA (put_connection c).
Proof.
  intros w. split; simpl; [reflexivity|].
  exists []. split; [now rewrite app_nil_r | constructor].
Qed.

Lemma frame_put_localStream s : frame okD okA (put_localStream s).
Proof.
  intros w. split; simpl; [reflexivity|].
  exists []. split; [now rewrite app_nil_r | constructor].
Qed.

Lemma frame_await {A} (p : Promise A) : frame okD okA (await p).
Proof. destruct p; intros w; apply evolves_refl. Qed.

Lemma frame_of_sum {A} (r : JsVal + A) : frame okD okA (of_sum r).
Proof. destruct r; intros w; apply evolves_refl. Qed.

Lemma frame_hang {A} : frame okD okA (fun w => (@Hang A, w)).
Proof. intros w. apply evolves_refl. Qed.

Lemma frame_emit a : okA a -> frame okD okA (emit a).
Proof.
  intros Ha w. split; simpl; [reflexivity|].
  exists [a]. split; [reflexivity | repeat constructor; exact Ha].
Qed.

Lemma frame_modify_data f : (forall d, okD d (f d)) -> frame okD okA (modify_data f).
Proof.
  intros Hf w. split; simpl; [apply Hf|].
  exists []. split; [now rewrite app_nil_r | constructor].
Qed.

Lemma frame_bind {A B} (m : M A) (k : A -> M B) :
  frame okD okA m -> (forall a, frame okD okA (k a)) -> frame okD okA (bind m k).
Proof.
  intros Hm Hk w. unfold bind. specialize (Hm w).
  destruct (m w) as [[a|e|] w1]; simpl in *; try exact Hm.
  eapply evolves_trans; [exact Hm | apply Hk].
Qed.

Lemma frame_try_catch {A} (m : M A) (h : JsVal -> M A) :
  frame okD okA m -> (forall e, frame okD okA (h e)) -> frame okD okA (try_catch m h).
Proof.
  intros Hm Hh w. unfold try_catch. specialize (Hm w).
  destruct (m w) as [[a|e|] w1]; simpl in *; try exact Hm.
  eapply evolves_trans; [exact Hm | apply Hh].
Qed.

Lemma frame_promise_of {A} (m : M A) :
  frame okD okA m -> frame okD okA (promise_of m).
Proof.
  intros Hm w. unfold promise_of. specialize (Hm w).
  destruct (m w) as [[a|e|] w1]; simpl in *; exact Hm.
Qed.

End FrameRules.

Create HintDb frame.
#[export] Hint Resolve same_initial_preorder same_enabledSend_preorder : frame.

(** One rule at a time; side conditions by computation or from the context. *)
Ltac frame_side :=
  first [ assumption | exact I | reflexivity | solve [auto] | solve [eauto with frame] ].

Ltac frame_tac :=
  repeat match goal with
    | |- PreOrder _ => exact _
    | |- forall _, _ => intro
    | |- frame _ _ (ret _) => apply frame_ret
    | |- frame _ _ (throw _) => apply frame_throw
    | |- frame _ _ get => apply frame_get
    | |- frame _ _ suspend => apply frame_suspend
    | |- frame _ _ (put_connection _) => apply frame_put_connection
    | |- frame _ _ (put_localStream _) => apply frame_put_localStream
    | |- frame _ _ (await _) => apply frame_await
    | |- frame _ _ (of_sum _) => apply frame_of_sum
    | |- frame _ _ (emit _) => apply frame_emit
    | |- frame _ _ (modify_data _) => apply frame_modify_data
    | |- frame _ _ (bind _ _) => apply frame_bind
    | |- frame _ _ (try_catch _ _) => apply frame_try_catch
    | |- frame _ _ (promise_of _) => apply frame_promise_of
    | |- frame _ _ (fun w => (Hang, w)) => apply frame_hang
    | |- frame _ _ (match ?x with _ => _ end) => destruct x
    | |- frame _ _ _ => solve [eauto with frame]
    | |- _ => frame_side
    end.


Section SessionFrames.
Variable E : Env.
Variable okD : SessionData -> SessionData -> Prop.
Variable okA : Action -> Prop.
Context `{!PreOrder okD}.
Hypothesis ok_Renegotiate : forall o, okA (Renegotiate o).
Hypothesis ok_SetTimeout : forall d, okA (SetTimeout d).

Lemma doRenegotiate_frame o : frame okD okA (AudioCodesSession._doRenegotiate E o).
Proof. unfold AudioCodesSession._doRenegotiate. frame_tac. Qed.

Lemma sleep_frame d : frame okD okA (AudioCodesSession.sleep d).
Proof. unfold AudioCodesSession.sleep. frame_tac. Qed.

(** One turn of the loop of [_renegotiate], as the source writes it. *)
Lemma renegotiate_loop_unfold repeat delay options i w :
  AudioCodesSession.renegotiate_loop E repeat delay options i w =
  match (let* p := AudioCodesSession._doRenegotiate E options in await p) w with
  | (Normal true, w1) => (Normal tt, w1)
  | (Normal false, w1) =>
      if i + 1 >=? repeat then (Throw (JsString "Renegotiation failed. Terminated"), w1)
      else AudioCodesSession.renegotiate_loop E repeat delay options (i + 1)
             (snd (AudioCodesSession.sleep delay w1))
  | (Throw e, w1) => (Throw e, w1)
  | (Hang, w1) => (Hang, w1)
  end.
Proof.
  rewrite AudioCodesSession.renegotiate_loop_equation_1.
  destruct ((let* p := AudioCodesSession._doRenegotiate E options in await p) w)
    as [[[|]| |] w1]; simp renegotiate_loop; try reflexivity.
  destruct (Z_ge_lt_dec (i + 1) repeat) as [Hge|Hlt]; simp renegotiate_loop;
    destruct (Z.geb_spec (i + 1) repeat); first [reflexivity | lia].
Qed.

Lemma renegotiate_loop_frame repeat delay o (n : nat) :
  forall i w, (Z.to_nat (repeat - i) <= n)%nat ->
    evolves okD okA w (snd (AudioCodesSession.renegotiate_loop E repeat delay o i w)).
Proof.
  induction n as [|n IH]; intros i w Hn; rewrite renegotiate_loop_unfold.
  all: assert (Hatt : frame okD okA
         (let* p := AudioCodesSession._doRenegotiate E o in await p))
    by (pose proof doRenegotiate_frame; frame_tac).
  all: specialize (Hatt w).
  all: destruct ((let* p := AudioCodesSession._doRenegotiate E o in await p) w)
    as [[[|]| |] w1]; simpl in *; try exact Hatt.
  all: destruct (Z.geb_spec (i + 1) repeat); simpl; try exact Hatt; try lia.
  eapply evolves_trans; [exact _ | exact Hatt |].
  eapply evolves_trans; [exact _ | apply sleep_frame |].
  apply IH. lia.
Qed.

Lemma renegotiate_frame o : frame okD okA (AudioCodesSession._renegotiate E o).
Proof.
  intros w. unfold AudioCodesSession._renegotiate.
  eapply renegotiate_loop_frame. reflexivity.
Qed.

End SessionFrames.

#[export] Hint Resolve doRenegotiate_frame sleep_frame renegotiate_frame : frame.

Section WrapperFrames.
Variable E : Env.
Variable okD : SessionData -> SessionData -> Prop.
Variable okA : Action -> Prop.
Context `{!PreOrder okD}.
Hypothesis ok_ReplaceTrack : forall i t, okA (ReplaceTrack i t).

Lemma browser_replaceTrack_frame i t :
  frame okD okA (AudioCodesWebRTCWrapper.browser_replaceTrack E i t).
Proof. unfold AudioCodesWebRTCWrapper.browser_replaceTrack. frame_tac. Qed.

Lemma replaceSenderTrack_frame k :
  frame okD okA (AudioCodesWebRTCWrapper.replaceSenderTrack E k).
Proof.
  pose proof browser_replaceTrack_frame.
  unfold AudioCodesWebRTCWrapper.replaceSenderTrack. frame_tac.
Qed.

End WrapperFrames.

#[export] Hint Resolve browser_replaceTrack_frame replaceSenderTrack_frame : frame.

Lemma any_action_ok a : any_action a.
Proof. exact I. Qed.

#[export] Hint Resolve any_action_ok : frame.

(** The wrapper functions never touch [this.data]. *)
Section AnyActionFrames.
Variable E : Env.
Variable okD : SessionData -> SessionData -> Prop.
Context `{!PreOrder okD}.
Local Abbreviation keeps := (frame okD any_action).

Lemma getUserMedia_frame : keeps (AudioCodesWebRTCWrapper.getUserMedia E).
Proof. unfold AudioCodesWebRTCWrapper.getUserMedia. frame_tac. Qed.

Lemma hasDisplayMedia_frame : keeps (AudioCodesWebRTCWrapper.hasDisplayMedia E).
Proof. unfold AudioCodesWebRTCWrapper.hasDisplayMedia. frame_tac. Qed.

Lemma getDisplayMedia_frame : keeps (AudioCodesWebRTCWrapper.getDisplayMedia E).
Proof. unfold AudioCodesWebRTCWrapper.getDisplayMedia. frame_tac. Qed.

Lemma setDirection_frame i d : keeps (AudioCodesWebRTCWrapper.setDirection i d).
Proof. unfold AudioCodesWebRTCWrapper.setDirection. frame_tac. Qed.

Lemma browser_addTrack_frame t : keeps (AudioCodesWebRTCWrapper.browser_addTrack E t).
Proof. unfold AudioCodesWebRTCWrapper.browser_addTrack. frame_tac. Qed.

Lemma browser_removeTrack_frame i : keeps (AudioCodesWebRTCWrapper.browser_removeTrack E i).
Proof. unfold AudioCodesWebRTCWrapper.browser_removeTrack. frame_tac. Qed.

Lemma addVideo_frame t r u : keeps (AudioCodesWebRTCWrapper.addVideo E t r u).
Proof.
  pose proof setDirection_frame. pose proof browser_addTrack_frame.
  pose proof (browser_replaceTrack_frame E okD any_action (fun _ _ => I)).
  unfold AudioCodesWebRTCWrapper.addVideo. frame_tac.
Qed.

Lemma remove_and_stop_frame ts : keeps (AudioCodesWebRTCWrapper.remove_and_stop ts).
Proof. induction ts as [|t ts IH]; simpl; frame_tac. Qed.

Lemma removeVideo_frame : keeps (AudioCodesWebRTCWrapper.removeVideo E).
Proof.
  pose proof browser_removeTrack_frame. pose proof remove_and_stop_frame.
  unfold AudioCodesWebRTCWrapper.removeVideo. frame_tac.
Qed.

Lemma hold_frame b : keeps (AudioCodesSession.hold E b).
Proof. unfold AudioCodesSession.hold. frame_tac. Qed.

Lemma renegotiate_any_frame o : keeps (AudioCodesSession._renegotiate E o).
Proof. apply renegotiate_frame; first [ exact _ | intros; exact I ]. Qed.

End AnyActionFrames.

#[export] Hint Resolve getUserMedia_frame hasDisplayMedia_frame getDisplayMedia_frame
  setDirection_frame browser_addTrack_frame browser_removeTrack_frame addVideo_frame
  remove_and_stop_frame removeVideo_frame hold_frame renegotiate_any_frame : frame.

(** Every method of the session except the 'sdp' handler leaves [_initial]
    alone. *)
Section InitialFrames.
Variable E : Env.
Local Abbreviation keeps := (frame same_initial any_action).

Lemma setVideoState_keeps s r : keeps (AudioCodesSession._setVideoState s r).
Proof. unfold AudioCodesSession._setVideoState. frame_tac. Qed.

Lemma setEnabledSendVideo_keeps b : keeps (AudioCodesSession._setEnabledSendVideo b).
Proof. unfold AudioCodesSession._setEnabledSendVideo. frame_tac. Qed.

Lemma setEnabledReceiveVideo_keeps b : keeps (AudioCodesSession._setEnabledReceiveVideo b).
Proof. unfold AudioCodesSession._setEnabledReceiveVideo. frame_tac. Qed.

Lemma hold_keeps b : keeps (AudioCodesSession.hold E b).
Proof. frame_tac. Qed.

Lemma startSendingVideo_keeps o : keeps (AudioCodesSession.startSendingVideo E o).
Proof.
  pose proof setEnabledSendVideo_keeps. pose proof setEnabledReceiveVideo_keeps.
  unfold AudioCodesSession.startSendingVideo. frame_tac.
Qed.

Lemma stopSendingVideo_keeps o : keeps (AudioCodesSession.stopSendingVideo E o).
Proof.
  pose proof setEnabledSendVideo_keeps.
  unfold AudioCodesSession.stopSendingVideo. frame_tac.
Qed.

Lemma sendReInvite_keeps o : keeps (AudioCodesSession.sendReInvite E o).
Proof. unfold AudioCodesSession.sendReInvite. frame_tac. Qed.

Lemma startScreenSharing_keeps : keeps (AudioCodesSession.startScreenSharing E).
Proof.
  pose proof setEnabledSendVideo_keeps.
  unfold AudioCodesSession.startScreenSharing. frame_tac.
Qed.

Lemma onEndedScreenSharing_keeps : keeps (AudioCodesSession._onEndedScreenSharing E).
Proof.
  pose proof stopSendingVideo_keeps.
  unfold AudioCodesSession._onEndedScreenSharing, AudioCodesSession.isTerminated. frame_tac.
Qed.

Lemma stopScreenSharing_keeps : keeps (AudioCodesSession.stopScreenSharing E).
Proof.
  pose proof onEndedScreenSharing_keeps.
  unfold AudioCodesSession.stopScreenSharing. frame_tac.
Qed.

End InitialFrames.

(* ===================================================================== *)
(** * The initial-negotiation flag                                        *)
(* ===================================================================== *)

Lemma sdp_checking_initial E e w :
  _initial (data (snd (AudioCodesUA._sdp_checking E e w)))
  = _initial (data w) && negb (is_processed_answer (OnSdp e)).
Proof.
  unfold AudioCodesUA._sdp_checking, is_processed_answer.
  destruct (sdp e) as [text|]; simpl.
  2: { now rewrite andb_false_r, andb_true_r. }
  destruct (getMediaDirection_is_Some (AudioCodesSDP.constructor text) "video"
              (String.eqb (originator e) "remote")) as (s & r & ->).
  rewrite andb_true_r.
  unfold bind, AudioCodesSession.isLocalHold, AudioCodesSession.isRemoteHold,
    AudioCodesSession._setVideoState, modify_data, emit, get, ret.
  destruct (String.eqb (JsSIP.type e) "answer"); simpl;
    repeat match goal with
           | |- context [if ?b then _ else _] => destruct b; simpl
           end;
    first [ now rewrite andb_true_r | now rewrite andb_false_r ].
Qed.

Lemma perform_initial E op w :
  _initial (data (snd (perform E op w)))
  = _initial (data w) && negb (is_processed_answer op).
Proof.
  destruct op; try apply sdp_checking_initial; simpl; rewrite andb_true_r.
  - apply (hold_keeps E set w).
  - apply (startSendingVideo_keeps E o w).
  - apply (stopSendingVideo_keeps E o w).
  - apply (sendReInvite_keeps E o w).
  - apply (startScreenSharing_keeps E w).
  - apply (stopScreenSharing_keeps E w).
  - apply (onEndedScreenSharing_keeps E w).
  - reflexivity.
Qed.

Lemma count_changes_all_false from E ops : forall w,
  _initial (data w) = false ->
  count_changes from (negb from) false (initial_after E ops w) = 0%nat.
Proof.
  induction ops as [|op ops IH]; intros w Hw; simpl; [reflexivity|].
  rewrite perform_initial, Hw. simpl.
  rewrite IH by (now rewrite perform_initial, Hw).
  destruct from; reflexivity.
Qed.

(** The flag after the [k]-th operation, from the operations up to it. *)
Lemma initial_after_prefix E ops : forall w,
  initial_after E ops w
  = List.map (fun k => _initial (data w)
                       && negb (existsb is_processed_answer (take (S k) ops)))
             (seq 0 (length ops)).
Proof.
  induction ops as [|op ops IH]; intros w; [reflexivity|].
  cbn [initial_after length seq List.map]. f_equal.
  - cbn [take existsb]. rewrite perform_initial, take_0. cbn [existsb].
    now rewrite orb_false_r.
  - rewrite IH, <- seq_shift, List.map_map. apply List.map_ext. intros k.
    rewrite perform_initial. cbn [take existsb].
    destruct (_initial (data w)), (is_processed_answer op); reflexivity.
Qed.

(** C7. The flag [_initial] is true in a new session. Over any sequence of
    operations on the call (sdp events, hold, start and stop of video and
    of screen sharing, re-INVITE, time passing) it is true afterwards
    exactly when it was true before and no answer event was processed among
    them - so after each operation it is false from the first processed
    answer on; along the sequence it goes from true to false once if it
    starts true and an answer is processed, and never otherwise; and it
    never goes from false to true. *)
Theorem initial_flag_falls_once (E : Env) (ops : list Op) (w : World) :
  _initial AudioCodesSession.constructor = true
  /\ _initial (data (perform_all E ops w))
     = _initial (data w) && negb (existsb is_processed_answer ops)
  /\ initial_after E ops w
     = List.map (fun k => _initial (data w)
                          && negb (existsb is_processed_answer (take (S k) ops)))
                (seq 0 (length ops))
  /\ count_changes true false (_initial (data w)) (initial_after E ops w)
     = (if _initial (data w) && existsb is_processed_answer ops then 1 else 0)%nat
  /\ count_changes false true (_initial (data w)) (initial_after E ops w) = 0%nat.
Proof.
  split; [reflexivity|].
  split; [|split; [apply initial_after_prefix|]]; revert w.
  - induction ops as [|op ops IH]; intros w; simpl.
    + now rewrite andb_true_r.
    + rewrite IH, perform_initial.
      destruct (_initial (data w)), (is_processed_answer op); reflexivity.
  - induction ops as [|op ops IH]; intros w; simpl.
    + rewrite andb_false_r. auto.
    + destruct (IH (snd (perform E op w))) as (IH2 & IH3).
      rewrite IH2, IH3, !perform_initial.
      destruct (_initial (data w)), (is_processed_answer op),
        (existsb is_processed_answer ops); simpl; auto.
Qed.

(* ===================================================================== *)
(** * Renegotiation                                                       *)
(* ===================================================================== *)

Section RejectedAttempts.
Variable E : Env.
Hypothesis Hlive : forall t, isEnded (js_session E t) = false.
Hypothesis Hreject : forall t, js_renegotiate E t = ReturnsFalse.

Lemma attempt_rejected o w :
  (let* p := AudioCodesSession._doRenegotiate E o in await p) w
  = (Normal false,
     mkWorld (data w) (connection w) (localStream w) (now w) (trace w ++ [Renegotiate o])).
Proof.
  unfold AudioCodesSession._doRenegotiate, bind, get, emit. simpl.
  now rewrite Hreject, Hlive.
Qed.

Lemma renegotiate_loop_exhausts repeat delay o (k : nat) : forall i w,
  repeat - i = Z.of_nat (S k) ->
  AudioCodesSession.renegotiate_loop E repeat delay o i w
  = (Throw (JsString "Renegotiation failed. Terminated"),
     mkWorld (data w) (connection w) (localStream w) (now w + k)
             (trace w ++ Renegotiate o :: retries k o delay)).
Proof.
  induction k as [|k IH]; intros i w Hi;
    rewrite renegotiate_loop_unfold, attempt_rejected.
  - destruct (Z.geb_spec (i + 1) repeat); [|lia].
    simpl. now rewrite Nat.add_0_r.
  - destruct (Z.geb_spec (i + 1) repeat); [lia|].
    rewrite IH by lia. simpl.
    f_equal. f_equal; [lia|].
    rewrite <- !app_assoc. reflexivity.
Qed.

End RejectedAttempts.

Lemma retries_count k o d :
  length (List.filter is_Renegotiate (retries k o d)) = k
  /\ length (List.filter is_SetTimeout (retries k o d)) = k
  /\ List.last (Renegotiate o :: retries k o d) (SetTimeout d) = Renegotiate o.
Proof.
  induction k as [|k (IH1 & IH2 & IH3)]; simpl; [auto|].
  rewrite IH1, IH2. repeat split.
  destruct (retries k o d); simpl in *; congruence.
Qed.

(** C3. When no attempt finds the session ended and JsSIP returns false to
    every [renegotiate] call, [_renegotiate] with [repeat = N] (N >= 1) makes
    exactly N calls, with one wait of [delay] ms between two consecutive
    calls and none after the last, and then throws
    'Renegotiation failed. Terminated'. Without [repeat] and [delay] in the
    options the limit is 30 and the delay 500. *)
Theorem renegotiate_gives_up_after_repeat_attempts
        (E : Env) (N delay : Z) (o : ReInviteOptions) (w : World)
        (HN : 1 <= N)
        (Hlive : forall t, isEnded (js_session E t) = false)
        (Hreject : forall t, js_renegotiate E t = ReturnsFalse) :
  let k := Z.to_nat (N - 1) in
  let actions := Renegotiate o :: retries k o delay in
  AudioCodesSession._renegotiate E (AudioCodesSession.mkOptions (Some N) (Some delay) o) w
  = (Throw (JsString "Renegotiation failed. Terminated"),
     mkWorld (data w) (connection w) (localStream w) (now w + k) (trace w ++ actions))
  /\ Z.of_nat (length (List.filter is_Renegotiate actions)) = N
  /\ Z.of_nat (length (List.filter is_SetTimeout actions)) = N - 1
  /\ List.last actions (SetTimeout delay) = Renegotiate o
  /\ AudioCodesSession._renegotiate E (AudioCodesSession.mkOptions None None o) w
     = AudioCodesSession._renegotiate E (AudioCodesSession.mkOptions (Some 30) (Some 500) o) w.
Proof.
  cbn zeta.
  destruct (retries_count (Z.to_nat (N - 1)) o delay) as (H1 & H2 & H3).
  repeat split.
  - unfold AudioCodesSession._renegotiate. simpl.
    apply renegotiate_loop_exhausts; auto. lia.
  - simpl. rewrite H1. lia.
  - simpl. rewrite H2. lia.
  - exact H3.
Qed.

Lemma renegotiate_gives_up_after_repeat_attempts_witness :
  AudioCodesSession._renegotiate rejecting_env
    (AudioCodesSession.mkOptions (Some 3) (Some 500) (mkReInviteOptions None None None))
    new_world
  = (Throw (JsString "Renegotiation failed. Terminated"),
     mkWorld AudioCodesSession.constructor [] [] 2
       [ Renegotiate (mkReInviteOptions None None None); SetTimeout 500;
         Renegotiate (mkReInviteOptions None None None); SetTimeout 500;
         Renegotiate (mkReInviteOptions None None None) ]).
Proof.
  exact (proj1 (renegotiate_gives_up_after_repeat_attempts rejecting_env 3 500
                  (mkReInviteOptions None None None) new_world
                  ltac:(lia) (fun _ => eq_refl) (fun _ => eq_refl))).
Defined.

(** C8. When the session is already ended as an attempt runs, the promise of
    [_doRenegotiate] is rejected at once (with no reason) and [_renegotiate]
    throws that rejection without waiting for the retry delay - but the
    executor goes on after [reject()] and still calls
    [js_session.renegotiate] for that attempt. *)
Theorem renegotiate_on_ended_session_still_asks_jssip
        (E : Env) (o : AudioCodesSession.Options) (w : World)
        (Hended : isEnded (js_session E (now w)) = true) :
  let w' := mkWorld (data w) (connection w) (localStream w) (now w)
                    (trace w ++ [Renegotiate (AudioCodesSession.rest o)]) in
  AudioCodesSession._doRenegotiate E (AudioCodesSession.rest o) w
  = (Normal (Rejected JsUndefined), w')
  /\ AudioCodesSession._renegotiate E o w = (Throw JsUndefined, w')
  /\ In (Renegotiate (AudioCodesSession.rest o)) (trace w').
Proof.
  cbn zeta.
  assert (Hdo : AudioCodesSession._doRenegotiate E (AudioCodesSession.rest o) w
                = (Normal (Rejected JsUndefined),
                   mkWorld (data w) (connection w) (localStream w) (now w)
                           (trace w ++ [Renegotiate (AudioCodesSession.rest o)]))).
  { unfold AudioCodesSession._doRenegotiate, bind, get, emit. simpl.
    rewrite Hended. destruct (js_renegotiate E (now w)); reflexivity. }
  repeat split.
  - exact Hdo.
  - unfold AudioCodesSession._renegotiate.
    rewrite renegotiate_loop_unfold. unfold bind at 1. now rewrite Hdo.
  - simpl. apply in_or_app. right. now left.
Qed.

Lemma renegotiate_on_ended_session_still_asks_jssip_witness :
  AudioCodesSession._renegotiate ended_env AudioCodesSession.no_options new_world
  = (Throw JsUndefined,
     mkWorld AudioCodesSession.constructor [] [] 0
             [Renegotiate (mkReInviteOptions None None None)]).
Proof.
  exact (proj1 (proj2 (renegotiate_on_ended_session_still_asks_jssip
                         ended_env AudioCodesSession.no_options new_world eq_refl))).
Defined.

(* ===================================================================== *)
(** * Start and stop of sending video                                     *)
(* ===================================================================== *)

(** C9. [startSendingVideo] on a session whose enabled-send flag is set
    throws Error('video already started') and [stopSendingVideo] on a
    session whose flag is clear throws Error('video already stopped'); in
    both cases before anything else is done: the world is the one the call
    started in (same flags, same connection and stream, nothing added to the
    trace, no suspension). *)
Theorem video_toggle_misuse_fails_first
        (E : Env) (o : AudioCodesSession.Options) (w : World) :
  (AudioCodesSession.hasEnabledSendVideo (data w) = true ->
   AudioCodesSession.startSendingVideo E o w
   = (Throw (JsError "video already started"), w))
  /\ (AudioCodesSession.hasEnabledSendVideo (data w) = false ->
      AudioCodesSession.stopSendingVideo E o w
      = (Throw (JsError "video already stopped"), w)).
Proof.
  split; intros H.
  - unfold AudioCodesSession.startSendingVideo, bind, get. simpl. now rewrite H.
  - unfold AudioCodesSession.stopSendingVideo, bind, get. simpl. now rewrite H.
Qed.

Lemma video_toggle_misuse_fails_first_witness :
  AudioCodesSession.startSendingVideo rejecting_env AudioCodesSession.no_options sending_world
  = (Throw (JsError "video already started"), sending_world)
  /\ AudioCodesSession.hasEnabledSendVideo (data sending_world) = true
  /\ AudioCodesSession.stopSendingVideo rejecting_env AudioCodesSession.no_options new_world
     = (Throw (JsError "video already stopped"), new_world)
  /\ AudioCodesSession.hasEnabledSendVideo (data new_world) = false.
Proof.
  split; [|split; [reflexivity|split; [|reflexivity]]].
  - exact (proj1 (video_toggle_misuse_fails_first rejecting_env
                    AudioCodesSession.no_options sending_world) eq_refl).
  - exact (proj2 (video_toggle_misuse_fails_first rejecting_env
                    AudioCodesSession.no_options new_world) eq_refl).
Defined.

(* ===================================================================== *)
(** * The 'sdp' event and the negotiated video flags                      *)
(* ===================================================================== *)

(** Peel a string equation [o ++ rest = "literal"] one character at a time. *)
Ltac peel o H :=
  repeat (destruct o as [|? o]; simpl in H;
          [ try discriminate H
          | first [ discriminate H | injection H as ? H; subst ] ]).

Lemma event_name_remote_answer o t :
  (o ++ " " ++ t)%string = "remote answer" -> o = "remote" /\ t = "answer".
Proof.
  intros H. peel o H; try (injection H as H; subst); auto; try discriminate.
Qed.

Lemma event_name_local_answer o t :
  (o ++ " " ++ t)%string = "local answer" -> o = "local" /\ t = "answer".
Proof.
  intros H. peel o H; try (injection H as H; subst); auto; try discriminate.
Qed.

(** The video flags after the handler, in one formula. *)
Lemma sdp_checking_video E e w :
  let w' := snd (AudioCodesUA._sdp_checking E e w) in
  exists send recv,
    (forall text, sdp e = Some text ->
       exists dir,
         AudioCodesSDP.getMediaDirection (AudioCodesSDP.constructor text) "video"
           (String.eqb (originator e) "remote") = Some (send, recv, dir))
    /\ _video (data w') =
       match sdp e with
       | None => _video (data w)
       | Some _ =>
           if (String.eqb (event_name e) "remote answer"
               || String.eqb (event_name e) "local answer") && negb (on_hold E w)
           then mkVideo send recv (enabledSend (_video (data w)))
                        (enabledReceive (_video (data w)))
           else _video (data w)
       end.
Proof.
  cbn zeta. unfold AudioCodesUA._sdp_checking, on_hold.
  fold (event_name e).
  destruct (sdp e) as [text|]; simpl.
  2: { exists false, false. split; [discriminate | reflexivity]. }
  destruct (getMediaDirection_is_Some (AudioCodesSDP.constructor text) "video"
              (String.eqb (originator e) "remote")) as (s & r & Hdir).
  exists s, r. split.
  { intros text' [= <-]. eauto. }
  rewrite Hdir.
  unfold bind, AudioCodesSession.isLocalHold, AudioCodesSession.isRemoteHold,
    AudioCodesSession._setVideoState, modify_data, emit, get, ret.
  generalize (event_name e). intros name.
  destruct (String.eqb (JsSIP.type e) "answer"); simpl.
  all: destruct (String.eqb_spec name "remote offer") as [->|_]; simpl; [reflexivity|].
  all: destruct (String.eqb_spec name "remote answer") as [->|_]; simpl.
  all: try (destruct (isOnHold_local (js_session E (now w))),
              (isOnHold_remote (js_session E (now w))); reflexivity).
  all: destruct (String.eqb_spec name "local offer") as [->|_]; simpl; [reflexivity|].
  all: destruct (String.eqb_spec name "local answer") as [->|_]; simpl.
  all: try (destruct (isOnHold_local (js_session E (now w))),
              (isOnHold_remote (js_session E (now w))); reflexivity).
Qed.

(** C1. For every 'sdp' event the handler processes: an offer leaves the
    negotiated video flags as they are; so does any event that arrives while
    the call is on local or remote hold; the flags change only on
    'remote answer' or 'local answer' off hold; and on such an answer they
    become the direction read from the description (the enabled flags are
    never touched). *)
Theorem negotiated_video_only_from_answers_off_hold
        (E : Env) (e : SdpEvent) (w : World) :
  let w' := snd (AudioCodesUA._sdp_checking E e w) in
  (JsSIP.type e = "offer" -> _video (data w') = _video (data w))
  /\ (on_hold E w = true -> _video (data w') = _video (data w))
  /\ (_video (data w') <> _video (data w) ->
      (event_name e = "remote answer" \/ event_name e = "local answer")
      /\ JsSIP.type e = "answer" /\ on_hold E w = false)
  /\ (forall text send recv dir,
        event_name e = "remote answer" \/ event_name e = "local answer" ->
        on_hold E w = false ->
        sdp e = Some text ->
        AudioCodesSDP.getMediaDirection (AudioCodesSDP.constructor text) "video"
          (String.eqb (originator e) "remote") = Some (send, recv, dir) ->
        _video (data w') = mkVideo send recv (enabledSend (_video (data w)))
                                   (enabledReceive (_video (data w)))).
Proof.
  cbn zeta.
  destruct (sdp_checking_video E e w) as (s & r & Hdir & Hv). cbn zeta in Hv.
  assert (Hans : event_name e = "remote answer" \/ event_name e = "local answer" ->
                 JsSIP.type e = "answer").
  { unfold event_name.
    intros [H|H]; [apply event_name_remote_answer in H | apply event_name_local_answer in H];
      tauto. }
  split; [|split; [|split]].
  - intros Hoffer. rewrite Hv. destruct (sdp e); [|reflexivity].
    destruct (String.eqb_spec (event_name e) "remote answer") as [H1|_].
    { rewrite Hans in Hoffer by auto. discriminate. }
    destruct (String.eqb_spec (event_name e) "local answer") as [H2|_].
    { rewrite Hans in Hoffer by auto. discriminate. }
    reflexivity.
  - intros Hhold. rewrite Hv, Hhold, andb_false_r. now destruct (sdp e).
  - intros Hne. rewrite Hv in Hne. destruct (sdp e); [|congruence].
    destruct (String.eqb_spec (event_name e) "remote answer") as [H1|_];
      [|destruct (String.eqb_spec (event_name e) "local answer") as [H2|_]];
      simpl in Hne; try congruence;
      (destruct (on_hold E w); simpl in Hne; [congruence|]); auto.
  - intros text send recv dir Hname Hhold Htext Hd.
    destruct (Hdir text Htext) as (dir' & Hd'). rewrite Hd in Hd'.
    injection Hd' as <- <- _.
    rewrite Hv, Htext, Hhold.
    destruct Hname as [-> | ->]; reflexivity.
Qed.

Lemma negotiated_video_only_from_answers_off_hold_witness :
  (* a local answer with a contradictory direction, while on local hold *)
  _video (data (snd (AudioCodesUA._sdp_checking local_hold_env
                       (mkSdpEvent "local" "answer" (Some sdp_video_inactive))
                       sending_world)))
  = _video (data sending_world)
  (* the same answer off hold *)
  /\ _video (data (snd (AudioCodesUA._sdp_checking rejecting_env
                          (mkSdpEvent "local" "answer" (Some sdp_video_inactive))
                          sending_world)))
     = mkVideo false false true true.
Proof.
  split.
  - exact (proj1 (proj2 (negotiated_video_only_from_answers_off_hold local_hold_env
                           (mkSdpEvent "local" "answer" (Some sdp_video_inactive))
                           sending_world)) eq_refl).
  - exact (proj2 (proj2 (proj2 (negotiated_video_only_from_answers_off_hold rejecting_env
                                  (mkSdpEvent "local" "answer" (Some sdp_video_inactive))
                                  sending_world)))
             sdp_video_inactive false false (Some "inactive")
             (or_intror eq_refl) eq_refl eq_refl eq_refl).
Defined.

(* ===================================================================== *)
(** * The end of screen sharing                                           *)
(* ===================================================================== *)

#[export] Instance screenSharing_kept_preorder : PreOrder screenSharing_kept.
Proof.
  split; unfold screenSharing_kept.
  - intros d. now left.
  - intros a b c [H1|H1] [H2|H2]; rewrite ?H2, ?H1; auto.
Qed.

#[export] Hint Resolve screenSharing_kept_preorder : frame.

(** [_renegotiate] begins with the call of [js_session.renegotiate]. *)
Lemma renegotiate_trace_starts E o w :
  exists tr,
    trace (snd (AudioCodesSession._renegotiate E o w))
    = trace w ++ Renegotiate (AudioCodesSession.rest o) :: tr.
Proof.
  unfold AudioCodesSession._renegotiate. rewrite renegotiate_loop_unfold.
  set (r := AudioCodesSession.rest o).
  assert (Hatt : exists w1,
             snd ((let* p := AudioCodesSession._doRenegotiate E r in await p) w) = w1
             /\ trace w1 = trace w ++ [Renegotiate r]).
  { unfold AudioCodesSession._doRenegotiate, bind, get, emit. simpl.
    destruct (js_renegotiate E (now w)) as [|[|]],
      (isEnded (js_session E (now w))); simpl; eauto. }
  destruct Hatt as (w1 & Hw1 & Htr).
  destruct ((let* p := AudioCodesSession._doRenegotiate E r in await p) w)
    as [[[|]| |] w1']; simpl in Hw1; subst w1'; cbn [snd];
    try (exists []; exact Htr).
  match goal with
  | |- context [?a >=? ?b] => destruct (Z.geb_spec a b)
  end; cbn [snd]; [exists []; exact Htr|].
  destruct (renegotiate_loop_frame E same_initial any_action
              (fun _ => I) (fun _ => I)
              (default 30 (AudioCodesSession.repeat o))
              (default 500 (AudioCodesSession.delay o)) r
              (Z.to_nat (default 30 (AudioCodesSession.repeat o) - (0 + 1))) (0 + 1)
              (snd (AudioCodesSession.sleep (default 500 (AudioCodesSession.delay o)) w1))
              (Nat.le_refl _)) as (_ & tr & Htr' & _).
  rewrite Htr'. cbn [AudioCodesSession.sleep bind emit suspend snd trace].
  rewrite Htr, <- !app_assoc. simpl. eauto.
Qed.

(** [startScreenSharing], once it has the display track, records whether
    video was being sent. *)
Lemma startScreenSharing_records_video E w ss :
  _screenSharing (data w) = None ->
  _screenSharing (data (snd (AudioCodesSession.startScreenSharing E w))) = Some ss ->
  hadSendVideo ss = AudioCodesSession.hasSendVideo (data w).
Proof.
  intros Hnone.
  unfold AudioCodesSession.startScreenSharing.
  unfold bind at 1. unfold AudioCodesWebRTCWrapper.hasDisplayMedia at 1.
  unfold bind at 1, get at 1, ret at 1.
  destruct (navigator_hasDisplayMedia E (now w)); simpl;
    [|rewrite Hnone; discriminate].
  unfold bind at 1, try_catch at 1.
  assert (Hdisp : frame eq any_action
            (let* displayStream := AudioCodesWebRTCWrapper.getDisplayMedia E in
             ret (head (getVideoTracks displayStream))))
    by (pose proof (getDisplayMedia_frame E eq); frame_tac).
  specialize (Hdisp w). destruct Hdisp as (Hd & _).
  destruct ((let* displayStream := AudioCodesWebRTCWrapper.getDisplayMedia E in
             ret (head (getVideoTracks displayStream))) w) as [[[t|]|e|] w1];
    simpl in Hd |- *; try (rewrite <- Hd, Hnone; discriminate).
  unfold bind at 1, emit at 1. unfold bind at 1, modify_data at 1. simpl.
  match goal with
  | |- _screenSharing (data (snd (?m ?w2))) = _ -> _ =>
      assert (Hrest : frame screenSharing_kept any_action m);
      [|specialize (Hrest w2); destruct Hrest as (Hk & _);
        unfold screenSharing_kept in Hk]
  end.
  { assert (forall b, frame screenSharing_kept any_action
                        (AudioCodesSession._setEnabledSendVideo b)).
    { intros b. unfold AudioCodesSession._setEnabledSendVideo. frame_tac.
      unfold screenSharing_kept. now left. }
    frame_tac. unfold screenSharing_kept. now right. }
  intros Hfin. destruct Hk as [Hk|Hk]; rewrite Hk in Hfin; simpl in Hfin;
    [|discriminate].
  injection Hfin as <-. simpl. now rewrite Hd.
Qed.



(* ===================================================================== *)
(** * The WebSocket keep-alive monitor                                    *)
(* ===================================================================== *)

Section KeepAlive.
Import AudioCodesUA.

Ltac split_cases :=
  repeat match goal with
         | |- context [if ?b then _ else _] => destruct b eqn:?; simpl
         | |- context [match ?x with _ => _ end] => destruct x eqn:?; simpl
         end.

Lemma onPong_tasks now u :
  wsPingTask (_onPong now u) = wsPingTask u
  /\ wsSocket (_onPong now u) = wsSocket u
  /\ wsPongMs (_onPong now u) = wsPongMs u
  /\ (wsPongTask (_onPong now u) = None \/ _onPong now u = u)
  /\ wsWasPong (_onPong now u) = wsWasPong u || negb (wsPongMs u =? 0)
  /\ exists outs, output (_onPong now u) = output u ++ outs
                  /\ Forall (fun o => is_Close o = false) outs.
Proof.
  destruct u as [sock pingT pongT pingMs pongMs was stats num time dmin dmax dist out].
  unfold _onPong. simpl.
  destruct (pongMs =? 0); simpl.
  { rewrite orb_false_r. repeat split; auto.
    exists []. split; [now rewrite app_nil_r | constructor]. }
  assert (Hnil : out = out ++ [] /\ Forall (fun o => is_Close o = false) [])
    by (split; [now rewrite app_nil_r | constructor]).
  destruct was; simpl;
    destruct (stats >? 0); simpl; try (repeat split; auto; exists []; apply Hnil);
    destruct (now - time <? dmin); simpl;
    destruct (now - time >? dmax); simpl;
    destruct dist as [d|]; simpl;
    destruct (num + 1 =? stats); simpl;
    repeat split; auto;
    first [ exists []; apply Hnil
          | eexists [_]; split; [reflexivity | repeat constructor] ].
Qed.

Lemma step_armed_ok u ev u' : armed_ok u -> step u ev = Some u' -> armed_ok u'.
Proof.
  unfold armed_ok. intros [Hok1 Hok2] Hstep.
  destruct ev as [pingS pongS stats pongDist|ws| |msg t|readyState t|]; simpl in Hstep.
  - injection Hstep as <-. unfold setWebSocketKeepAlive.
    destruct pongDist; simpl; auto.
  - injection Hstep as <-. unfold _startWsKeepAlive, _stopWsKeepAlive. simpl.
    split_cases; intuition congruence.
  - injection Hstep as <-. unfold _stopWsKeepAlive.
    split_cases; intuition congruence.
  - destruct (existsb _ (output u)); [|discriminate]. injection Hstep as <-.
    unfold _onMessageHook. destruct (String.eqb msg CRLF); [|simpl; auto].
    destruct (onPong_tasks t u) as (H1 & H2 & _ & [H4|H4] & _).
    + rewrite H1, H2, H4. intuition congruence.
    + rewrite H4. auto.
  - destruct (wsPingTask u) as [task|] eqn:Htask; [|discriminate].
    injection Hstep as <-. unfold ping.
    split_cases; rewrite ?Htask; intuition congruence.
  - destruct (wsPongTask u) eqn:Hp; [|discriminate]. injection Hstep as <-.
    unfold _onPongTimeout, _stopWsKeepAlive. simpl.
    split_cases; intuition congruence.
Qed.

Lemma run_armed_ok evs : forall u u', armed_ok u -> run u evs = Some u' -> armed_ok u'.
Proof.
  induction evs as [|ev evs IH]; simpl; intros u u' Hok Hrun.
  - now injection Hrun as <-.
  - destruct (step u ev) as [u1|] eqn:Hstep; [|discriminate].
    eapply IH; [|exact Hrun]. eapply step_armed_ok; eauto.
Qed.

Lemma constructor_armed_ok : armed_ok constructor.
Proof. split; simpl; congruence. Qed.

(** The flag [wsWasPong] tells whether the monitor has handled a pong. *)
Lemma step_wsWasPong u ev u' :
  step u ev = Some u' ->
  wsWasPong u' = wsWasPong u || (is_pong ev && negb (wsPongMs u =? 0)).
Proof.
  intros Hstep.
  destruct ev as [pingS pongS stats pongDist|ws| |msg t|readyState t|];
    simpl in Hstep |- *; rewrite ?orb_false_r.
  - injection Hstep as <-. unfold setWebSocketKeepAlive. now destruct pongDist.
  - injection Hstep as <-. unfold _startWsKeepAlive, _stopWsKeepAlive. simpl.
    split_cases; reflexivity.
  - injection Hstep as <-. unfold _stopWsKeepAlive. split_cases; reflexivity.
  - destruct (existsb _ (output u)); [|discriminate]. injection Hstep as <-.
    unfold _onMessageHook. destruct (String.eqb msg CRLF); simpl;
      [|now rewrite orb_false_r].
    apply onPong_tasks.
  - destruct (wsPingTask u); [|discriminate]. injection Hstep as <-.
    unfold ping. split_cases; reflexivity.
  - destruct (wsPongTask u); [|discriminate]. injection Hstep as <-.
    unfold _onPongTimeout, _stopWsKeepAlive. simpl. split_cases; reflexivity.
Qed.

Lemma run_wsWasPong evs : forall u u',
  run u evs = Some u' -> wsWasPong u' = wsWasPong u || pong_observed u evs.
Proof.
  induction evs as [|ev evs IH]; simpl; intros u u' Hrun.
  - injection Hrun as <-. now rewrite orb_false_r.
  - destruct (step u ev) as [u1|] eqn:Hstep; [|discriminate].
    rewrite (IH _ _ Hrun), (step_wsWasPong _ _ _ Hstep). now rewrite orb_assoc.
Qed.

(** Once pong checking is off and no timer waits for a pong, it stays so
    until the monitor is configured again, and the monitor closes nothing. *)
Lemma step_checking_off u ev u' :
  checking_off u -> not_reconfigured ev -> step u ev = Some u' ->
  checking_off u'
  /\ exists outs, output u' = output u ++ outs
                  /\ Forall (fun o => is_Close o = false) outs.
Proof.
  unfold checking_off. intros [Hms Htask] Hev Hstep.
  destruct u as [sock pingT pongT pingMs pongMs was stats num time dmin dmax dist out].
  simpl in Hms, Htask. subst pongMs pongT.
  assert (Hnil : out = out ++ [] /\ Forall (fun o => is_Close o = false) [])
    by (split; [now rewrite app_nil_r | constructor]).
  destruct ev as [pingS pongS stats' pongDist|ws| |msg t|readyState t|];
    simpl in Hstep; try contradiction.
  - injection Hstep as <-. unfold _startWsKeepAlive, _stopWsKeepAlive. simpl.
    destruct (pingMs =? 0); simpl.
    + split; [auto | exists []; apply Hnil].
    + destruct pingT; simpl; (split; [auto|]);
        eexists [_]; (split; [reflexivity | repeat constructor]).
  - injection Hstep as <-. unfold _stopWsKeepAlive. simpl.
    destruct pingT; simpl; (split; [auto | exists []; apply Hnil]).
  - destruct (existsb _ out); [|discriminate]. injection Hstep as <-.
    unfold _onMessageHook. destruct (String.eqb msg CRLF).
    + unfold _onPong. simpl. split; [auto | exists []; apply Hnil].
    + simpl. split; [auto|]. eexists [_]. split; [reflexivity | repeat constructor].
  - destruct pingT as [task|]; [|discriminate]. injection Hstep as <-.
    unfold ping. simpl.
    destruct (readyState =? WebSocket_OPEN); simpl; (split; [auto|]).
    + eexists [_]. split; [reflexivity | repeat constructor].
    + exists []. apply Hnil.
  - discriminate.
Qed.

Lemma run_checking_off evs : forall u u',
  checking_off u -> Forall not_reconfigured evs -> run u evs = Some u' ->
  checking_off u'
  /\ exists outs, output u' = output u ++ outs
                  /\ Forall (fun o => is_Close o = false) outs.
Proof.
  induction evs as [|ev evs IH]; simpl; intros u u' Hoff Hevs Hrun.
  - injection Hrun as <-. split; [exact Hoff|].
    exists []. split; [now rewrite app_nil_r | constructor].
  - destruct (step u ev) as [u1|] eqn:Hstep; [|discriminate].
    inversion Hevs as [|? ? Hev Hrest]; subst.
    destruct (step_checking_off _ _ _ Hoff Hev Hstep) as (Hoff1 & o1 & Ho1 & Hf1).
    destruct (IH _ _ Hoff1 Hrest Hrun) as (Hoff2 & o2 & Ho2 & Hf2).
    split; [exact Hoff2|]. exists (o1 ++ o2). split.
    + now rewrite Ho2, Ho1, app_assoc.
    + apply Forall_app; auto.
Qed.

(** C2 (as the code has it). Take a monitor reached from a new user agent
    by any events, with the pong-wait timer set. The flag [wsWasPong] tells
    whether the monitor has ever handled a pong - on any transport, since
    connecting a new websocket does not reset it. When the timer fires and
    the flag is clear, the pong timeout becomes 0 and nothing is closed; the
    interval task stays, each later tick on an open websocket sends the
    probe, and until [setWebSocketKeepAlive] is called again the timeout
    stays 0, the timer is never set again and the monitor closes nothing.
    When the timer fires and the flag is set, both timers are cancelled and
    the websocket is closed. *)
Theorem pong_timeout_policy (evs : list Event) (u : UA)
        (Hrun : run constructor evs = Some u)
        (Harmed : wsPongTask u <> None) :
  let u' := _onPongTimeout u in
  step u PongTimeout = Some u'
  /\ wsWasPong u = pong_observed constructor evs
  /\ (forall ws, wsWasPong (_startWsKeepAlive ws u) = wsWasPong u)
  /\ (wsWasPong u = false ->
      wsPongMs u' = 0 /\ wsPongTask u' = None /\ output u' = output u
      /\ wsPingTask u' = wsPingTask u /\ wsPingTask u <> None
      /\ (forall task now,
            wsPingTask u = Some task ->
            step u' (PingTick WebSocket_OPEN now)
            = Some (put u' (Send (websocket task) CRLFCRLF)))
      /\ (forall later u'',
            Forall not_reconfigured later -> run u' later = Some u'' ->
            wsPongMs u'' = 0 /\ wsPongTask u'' = None
            /\ exists outs, output u'' = output u ++ outs
                            /\ Forall (fun o => is_Close o = false) outs))
  /\ (wsWasPong u = true ->
      exists ws, wsSocket u = Some ws
                 /\ wsPingTask u' = None /\ wsPongTask u' = None
                 /\ output u' = output u ++ [Close ws]).
Proof.
  cbn zeta.
  destruct (run_armed_ok _ _ _ constructor_armed_ok Hrun) as [Hok1 Hok2].
  pose proof (run_wsWasPong _ _ _ Hrun) as Hflag. simpl in Hflag.
  split; [|split; [exact Hflag|split]].
  - simpl. destruct (wsPongTask u); [reflexivity | congruence].
  - intros ws. unfold _startWsKeepAlive, _stopWsKeepAlive. simpl. split_cases; reflexivity.
  - split.
    + intros Hwas. unfold _onPongTimeout. simpl. rewrite Hwas. simpl.
      repeat split; auto.
      * intros task now Htask. simpl. rewrite Htask. unfold ping. simpl. reflexivity.
      * eapply (run_checking_off later); eauto. split; reflexivity.
      * eapply (run_checking_off later); eauto. split; reflexivity.
      * destruct (run_checking_off later (set_wsPongMs (set_wsPongTask u None) 0) u'')
          as (_ & outs & Hout & Hf); auto. split; reflexivity.
        exists outs. split; auto.
    + intros Hwas. unfold _onPongTimeout, _stopWsKeepAlive. simpl. rewrite Hwas. simpl.
      destruct (wsPingTask u) as [task|] eqn:Htask; [|tauto].
      destruct (wsSocket u) as [ws|] eqn:Hws; [|exfalso; apply Hok2; congruence].
      exists ws. simpl. rewrite Hws. auto.
Qed.

Lemma pong_timeout_policy_witness :
  run constructor first_probe = Some after_first_probe
  /\ wsPongMs (_onPongTimeout after_first_probe) = 0
  /\ output (_onPongTimeout after_first_probe) = output after_first_probe.
Proof.
  split; [reflexivity|].
  assert (Hrun : run constructor first_probe = Some after_first_probe) by reflexivity.
  assert (Harmed : wsPongTask after_first_probe <> None) by discriminate.
  pose proof (pong_timeout_policy first_probe after_first_probe Hrun Harmed) as H.
  cbn zeta in H. destruct H as (_ & _ & _ & H & _).
  destruct (H eq_refl) as (Hms & _ & Hout & _).
  split; [exact Hms | exact Hout].
Defined.

(** C2 as the specification words it fails: after a pong on a first transport and
    a reconnection, the second transport - on which no pong was ever seen -
    is closed when the pong-wait timer fires, and pong checking stays on. *)
Lemma pong_on_earlier_transport_fails_the_new_one :
  run constructor reconnect_then_silence = Some after_reconnect_then_silence
  /\ pongs_on_current_transport reconnect_then_silence = 0%nat
  /\ wsSocket after_reconnect_then_silence = Some 2%nat
  /\ step after_reconnect_then_silence PongTimeout
     = Some (_onPongTimeout after_reconnect_then_silence)
  /\ output (_onPongTimeout after_reconnect_then_silence)
     = output after_reconnect_then_silence ++ [Close 2]
  /\ wsPongMs (_onPongTimeout after_reconnect_then_silence) = 10000.
Proof. vm_compute. repeat split. Qed.

(** ** The pong statistics *)

Lemma increment_in_range (dist : list Z) (n : Z) :
  0 <= n < Z.of_nat (length dist) ->
  increment dist n = <[Z.to_nat n := default 0 (dist !! Z.to_nat n) + 1]> dist.
Proof.
  intros Hn. unfold increment.
  destruct (Z.leb_spec 0 n); [|lia].
  destruct (dist !! Z.to_nat n) as [x|] eqn:Hx; [reflexivity|].
  apply lookup_ge_None in Hx. lia.
Qed.




End KeepAlive.

(* ===================================================================== *)
(** * AudioCodesSDP: parsing and printing                                 *)
(* ===================================================================== *)

Section SDPText.
Import AudioCodesSDP.

(** ** Strings *)

Lemma append_assoc (a b c : string) : ((a ++ b) ++ c = a ++ (b ++ c))%string.
Proof. induction a as [|x a IH]; simpl; [reflexivity | now rewrite IH]. Qed.

Lemma split_line (sep : ascii) (l rest : string) :
  has_char sep l = false ->
  split sep (l ++ String sep rest) = l :: split sep rest.
Proof.
  induction l as [|c l IH]; simpl; intros Hl.
  - now rewrite Ascii.eqb_refl.
  - apply orb_false_iff in Hl as [Hc Hl]. rewrite Hc, (IH Hl). reflexivity.
Qed.

Lemma split_pieces sep s : Forall (fun p => has_char sep p = false) (split sep s).
Proof.
  induction s as [|c s IH]; simpl; [repeat constructor|].
  destruct (Ascii.eqb c sep) eqn:Hc; [constructor; [reflexivity | exact IH]|].
  destruct (split sep s) as [|h t]; [repeat constructor; simpl; now rewrite Hc|].
  inversion IH as [|? ? Hh Ht]; subst.
  constructor; [simpl; now rewrite Hc | exact Ht].
Qed.

Lemma has_char_trimStart c s : has_char c s = false -> has_char c (trimStart s) = false.
Proof.
  induction s as [|a s IH]; simpl; [auto|]. intros H.
  apply orb_false_iff in H as [Ha Hs].
  destruct (isWhiteSpace a); [auto|]. simpl. now rewrite Ha, Hs.
Qed.

Lemma has_char_trimEnd c s : has_char c s = false -> has_char c (trimEnd s) = false.
Proof.
  induction s as [|a s IH]; simpl; [auto|]. intros H.
  apply orb_false_iff in H as [Ha Hs]. specialize (IH Hs).
  destruct (trimEnd s) as [|b t].
  - destruct (isWhiteSpace a); simpl; [reflexivity | now rewrite Ha].
  - simpl in *. now rewrite Ha, IH.
Qed.

Lemma has_char_app c a b : has_char c (a ++ b) = has_char c a || has_char c b.
Proof. induction a as [|x a IH]; simpl; [reflexivity | now rewrite IH, orb_assoc]. Qed.

Lemma trimStart_head s c r : trimStart s = String c r -> isWhiteSpace c = false.
Proof.
  induction s as [|a s IH]; simpl; [discriminate|].
  destruct (isWhiteSpace a) eqn:Ha; [exact IH|]. now intros [= <- _].
Qed.

Lemma trimStart_fix c s : isWhiteSpace c = false -> trimStart (String c s) = String c s.
Proof. intros H. simpl. now rewrite H. Qed.

Lemma trimEnd_head c s : isWhiteSpace c = false -> exists r, trimEnd (String c s) = String c r.
Proof. intros H. simpl. destruct (trimEnd s); rewrite ?H; eauto. Qed.

Lemma trimEnd_idem s : trimEnd (trimEnd s) = trimEnd s.
Proof.
  induction s as [|c s IH]; simpl; [reflexivity|].
  destruct (trimEnd s) as [|b t] eqn:Ht.
  - destruct (isWhiteSpace c) eqn:Hc; simpl; [reflexivity | now rewrite Hc].
  - change (trimEnd (String c (String b t))) with
      (match trimEnd (String b t) with
       | EmptyString => if isWhiteSpace c then EmptyString else String c EmptyString
       | x => String c x
       end).
    now rewrite IH.
Qed.

Lemma trim_idem s : trim (trim s) = trim s.
Proof.
  unfold trim. destruct (trimStart s) as [|c r] eqn:Hs; [reflexivity|].
  pose proof (trimStart_head _ _ _ Hs) as Hc.
  destruct (trimEnd_head c r Hc) as (r' & Hr). rewrite Hr.
  rewrite (trimStart_fix c r' Hc), <- Hr. apply trimEnd_idem.
Qed.

Lemma length_trimStart s : (String.length (trimStart s) <= String.length s)%nat.
Proof.
  induction s as [|c s IH]; simpl; [lia|]. destruct (isWhiteSpace c); simpl; lia.
Qed.

Lemma length_trimEnd s : (String.length (trimEnd s) <= String.length s)%nat.
Proof.
  induction s as [|c s IH]; simpl; [lia|].
  destruct (trimEnd s); [destruct (isWhiteSpace c)|]; simpl in *; lia.
Qed.

Lemma trimEnd_snoc_white s c :
  isWhiteSpace c = true -> trimEnd (s ++ String c "") = trimEnd s.
Proof.
  intros Hc. induction s as [|a s IH]; simpl; [now rewrite Hc | now rewrite IH].
Qed.

(** A kept line followed by a carriage return is trimmed back to the line. *)
Lemma trim_line_CR l :
  is_line l = true -> trim (l ++ String (ascii_of_nat 13) "") = l /\ has_char LF l = false
                      /\ l <> "".
Proof.
  unfold is_line. intros H.
  apply andb_true_iff in H as [H Hlf]. apply andb_true_iff in H as [Hlen Htrim].
  apply String.eqb_eq in Htrim. apply negb_true_iff in Hlf.
  split; [|split; [exact Hlf|]].
  2: { intros ->. discriminate. }
  destruct l as [|c l]; [discriminate|].
  assert (Hc : isWhiteSpace c = false).
  { destruct (isWhiteSpace c) eqn:Hc; [|reflexivity]. exfalso.
    unfold trim in Htrim. simpl in Htrim. rewrite Hc in Htrim.
    pose proof (length_trimEnd (trimStart l)). pose proof (length_trimStart l).
    rewrite Htrim in *. simpl in *. lia. }
  unfold trim in *. simpl in Htrim |- *. rewrite Hc in Htrim |- *.
  change (String c (l ++ String (ascii_of_nat 13) ""))
    with (String c l ++ String (ascii_of_nat 13) "")%string.
  now rewrite trimEnd_snoc_white.
Qed.

Lemma sdp_lines_cons l rest :
  is_line l = true -> sdp_lines (l ++ CRLF ++ rest) = l :: sdp_lines rest.
Proof.
  intros Hl. destruct (trim_line_CR l Hl) as (Htrim & Hlf & Hne).
  unfold sdp_lines.
  change (l ++ CRLF ++ rest)%string
    with (l ++ (String (ascii_of_nat 13) "" ++ String LF rest))%string.
  rewrite <- append_assoc, split_line.
  - simpl. rewrite Htrim. destruct l; [congruence | reflexivity].
  - rewrite has_char_app, Hlf. reflexivity.
Qed.

Lemma sdp_lines_text lines :
  forallb is_line lines = true -> sdp_lines (sdp_text lines) = lines.
Proof.
  induction lines as [|l lines IH]; intros H; [reflexivity|].
  cbn [forallb] in H. apply andb_true_iff in H as [Hl H].
  cbn [sdp_text]. rewrite sdp_lines_cons by exact Hl. now rewrite IH.
Qed.

Lemma join_text lines : lines <> [] -> (join CRLF lines ++ CRLF)%string = sdp_text lines.
Proof.
  unfold join. induction lines as [|l lines IH]; [congruence|]. intros _.
  destruct lines as [|l' lines]; [reflexivity|].
  change (String.concat CRLF (l :: l' :: lines))
    with (l ++ CRLF ++ String.concat CRLF (l' :: lines))%string.
  rewrite !append_assoc, IH by discriminate. reflexivity.
Qed.

Lemma sdp_lines_join lines :
  forallb is_line lines = true -> sdp_lines (join CRLF lines ++ CRLF) = lines.
Proof.
  destruct lines as [|l lines]; [reflexivity|]. intros H.
  rewrite join_text by discriminate. now apply sdp_lines_text.
Qed.

Lemma sdp_lines_are_lines text : forallb is_line (sdp_lines text) = true.
Proof.
  unfold sdp_lines. pose proof (split_pieces LF text) as Hp.
  induction Hp as [|p ps Hp Hps IH]; simpl; [reflexivity|].
  destruct (0 <? Z.of_nat (String.length (trim p))) eqn:Hlen; [|exact IH].
  simpl. rewrite IH, andb_true_r. unfold is_line.
  rewrite Hlen, trim_idem, String.eqb_refl. simpl.
  unfold trim. now rewrite has_char_trimEnd by now apply has_char_trimStart.
Qed.

(** ** Grouping the lines *)

Lemma push_current_snoc st ms m l :
  push_current (mk st (ms ++ [m])) l = mk st (ms ++ [m ++ [l]]).
Proof.
  unfold push_current. cbn [media start].
  destruct (ms ++ [m]) as [|x xs] eqn:H; [now destruct ms|].
  rewrite <- H, removelast_last, last_last. reflexivity.
Qed.

Lemma add_line_media st ms l :
  is_media_line l = true -> add_line (mk st ms) l = mk st (ms ++ [[l]]).
Proof.
  unfold is_media_line, add_line. intros ->. cbn [media start].
  apply (push_current_snoc st ms [] l).
Qed.

Lemma add_line_start st l :
  is_media_line l = false -> add_line (mk st []) l = mk (st ++ [l]) [].
Proof. unfold is_media_line, add_line. intros ->. reflexivity. Qed.

Lemma add_line_block st ms m l :
  is_media_line l = false -> add_line (mk st (ms ++ [m])) l = mk st (ms ++ [m ++ [l]]).
Proof. unfold is_media_line, add_line. intros ->. apply push_current_snoc. Qed.

Lemma last_block (ms : list (list string)) : ms = [] \/ exists ms' m, ms = ms' ++ [m].
Proof.
  destruct ms as [|x xs]; [now left|]. right.
  destruct (exists_last (l := x :: xs) ltac:(discriminate)) as (ms' & m & H). eauto.
Qed.

Lemma all_lines_add_line s l : all_lines (add_line s l) = all_lines s ++ [l].
Proof.
  destruct s as [st ms]. unfold all_lines.
  destruct (is_media_line l) eqn:Hl.
  - rewrite add_line_media by exact Hl. cbn [start media].
    rewrite concat_app. simpl. now rewrite app_assoc.
  - destruct (last_block ms) as [-> | (ms' & m & ->)].
    + rewrite add_line_start by exact Hl. simpl. now rewrite !app_nil_r.
    + rewrite add_line_block by exact Hl. cbn [start media].
      rewrite !concat_app. simpl. now rewrite !app_nil_r, !app_assoc.
Qed.

Lemma fold_all_lines lines : forall s,
  all_lines (fold_left add_line lines s) = all_lines s ++ lines.
Proof.
  induction lines as [|l lines IH]; intros s; simpl; [now rewrite app_nil_r|].
  now rewrite IH, all_lines_add_line, <- app_assoc.
Qed.

Lemma toString_all_lines s : toString s = (join CRLF (all_lines s) ++ CRLF)%string.
Proof.
  unfold toString, all_lines. cbn zeta. do 2 f_equal.
  generalize (start s). induction (media s) as [|m ms IH]; intros st; simpl.
  - now rewrite app_nil_r.
  - now rewrite IH, app_assoc.
Qed.

(** X1. Printing a parsed description gives back its text in a normal form:
    the constructor drops no line and keeps their order - the lines of the
    object, session level first and then block after block, are the trimmed
    non-empty lines of the text - and [toString] writes them joined by CR LF
    with a final CR LF. *)
Theorem toString_of_parsed_text (text : string) :
  all_lines (constructor text) = sdp_lines text
  /\ toString (constructor text) = (join CRLF (sdp_lines text) ++ CRLF)%string.
Proof.
  assert (H : all_lines (constructor text) = sdp_lines text).
  { unfold constructor. fold (sdp_lines text). now rewrite fold_all_lines. }
  split; [exact H|]. now rewrite toString_all_lines, H.
Qed.

Lemma well_formed_add_line s l :
  well_formed s = true -> is_line l = true -> well_formed (add_line s l) = true.
Proof.
  destruct s as [st ms]. unfold well_formed. cbn [start media].
  intros H Hl. apply andb_true_iff in H as [H Hms]. apply andb_true_iff in H as [Hst Hnm].
  destruct (is_media_line l) eqn:Hm.
  - rewrite add_line_media by exact Hm. cbn [start media].
    rewrite Hst, Hnm, forallb_app, Hms. simpl. unfold is_block. simpl.
    now rewrite Hm, Hl.
  - destruct (last_block ms) as [-> | (ms' & m & ->)].
    + rewrite add_line_start by exact Hm. cbn [start media].
      rewrite !forallb_app, Hst, Hnm. simpl. now rewrite Hl, Hm.
    + rewrite add_line_block by exact Hm. cbn [start media].
      rewrite Hst, Hnm. rewrite forallb_app in Hms |- *.
      apply andb_true_iff in Hms as [Hms' Hb]. rewrite Hms'. simpl in *.
      rewrite andb_true_r in Hb |- *. unfold is_block in *.
      destruct m as [|m0 rest]; [discriminate|]. cbn [app].
      apply andb_true_iff in Hb as [Hb1 Hb2]. apply andb_true_iff in Hb1 as [Hb1 Hb3].
      change (forallb is_line ((m0 :: rest) ++ [l]))
        with (forallb is_line (m0 :: rest ++ [l])) .
      cbn [forallb] in Hb2 |- *. rewrite !forallb_app. cbn [forallb].
      apply andb_true_iff in Hb2 as [Hb2 Hb4].
      now rewrite Hb1, Hb3, Hb2, Hb4, Hl, Hm.
Qed.

Lemma well_formed_fold lines : forall s,
  well_formed s = true -> forallb is_line lines = true ->
  well_formed (fold_left add_line lines s) = true.
Proof.
  induction lines as [|l lines IH]; intros s Hs H; simpl in *; [exact Hs|].
  apply andb_true_iff in H as [Hl H]. apply IH; [|exact H].
  now apply well_formed_add_line.
Qed.

Lemma constructor_well_formed text : well_formed (constructor text) = true.
Proof.
  unfold constructor. fold (sdp_lines text).
  apply well_formed_fold; [reflexivity | apply sdp_lines_are_lines].
Qed.

(** X2. What the constructor of AudioCodesSDP builds is well formed, whatever
    the text: no line is empty, has white space at an end or a line feed
    inside; no session-level line is an [m=] line; no media block is empty,
    every block starts with its [m=] line and has no other [m=] line. So
    [getMedia] never meets an empty block. *)
Theorem constructor_builds_media_blocks (text : string) :
  well_formed (constructor text) = true
  /\ Forall (fun m => exists m0 rest,
                 m = m0 :: rest /\ startsWith m0 "m=" = true
                 /\ Forall (fun l => startsWith l "m=" = false) rest)
            (media (constructor text))
  /\ Forall (fun l => startsWith l "m=" = false) (start (constructor text)).
Proof.
  pose proof (constructor_well_formed text) as H. split; [exact H|].
  unfold well_formed in H.
  apply andb_true_iff in H as [H Hms]. apply andb_true_iff in H as [_ Hst].
  split.
  - apply List.Forall_forall. intros m Hm.
    rewrite forallb_forall in Hms. specialize (Hms m Hm). unfold is_block in Hms.
    destruct m as [|m0 rest]; [discriminate|]. exists m0, rest.
    apply andb_true_iff in Hms as [Hms _]. apply andb_true_iff in Hms as [H0 Hr].
    repeat split; auto. apply List.Forall_forall. intros l Hl.
    rewrite forallb_forall in Hr. specialize (Hr l Hl). now apply negb_true_iff in Hr.
  - apply List.Forall_forall. intros l Hl.
    rewrite forallb_forall in Hst. specialize (Hst l Hl). now apply negb_true_iff in Hst.
Qed.

Lemma fold_start lines : forall st,
  forallb (fun l => negb (is_media_line l)) lines = true ->
  fold_left add_line lines (mk st []) = mk (st ++ lines) [].
Proof.
  induction lines as [|l lines IH]; intros st H; simpl in *; [now rewrite app_nil_r|].
  apply andb_true_iff in H as [Hl H]. apply negb_true_iff in Hl.
  rewrite add_line_start by exact Hl. rewrite IH by exact H.
  now rewrite <- app_assoc.
Qed.

Lemma fold_block_rest rest : forall st ms m,
  forallb (fun l => negb (is_media_line l)) rest = true ->
  fold_left add_line rest (mk st (ms ++ [m])) = mk st (ms ++ [m ++ rest]).
Proof.
  induction rest as [|l rest IH]; intros st ms m H; simpl in *; [now rewrite app_nil_r|].
  apply andb_true_iff in H as [Hl H]. apply negb_true_iff in Hl.
  rewrite add_line_block by exact Hl. rewrite IH by exact H.
  now rewrite <- app_assoc.
Qed.

Lemma fold_blocks blocks : forall st ms,
  forallb is_block blocks = true ->
  fold_left add_line (concat blocks) (mk st ms) = mk st (ms ++ blocks).
Proof.
  induction blocks as [|b blocks IH]; intros st ms H; simpl in *; [now rewrite app_nil_r|].
  apply andb_true_iff in H as [Hb H]. unfold is_block in Hb.
  destruct b as [|m0 rest]; [discriminate|].
  apply andb_true_iff in Hb as [Hb _]. apply andb_true_iff in Hb as [H0 Hr].
  rewrite fold_left_app. cbn [fold_left].
  rewrite add_line_media by exact H0.
  rewrite fold_block_rest by exact Hr. cbn [app].
  rewrite IH by exact H. now rewrite <- app_assoc.
Qed.

Lemma all_lines_are_lines s : well_formed s = true -> forallb is_line (all_lines s) = true.
Proof.
  unfold well_formed, all_lines. intros H.
  apply andb_true_iff in H as [H Hms]. apply andb_true_iff in H as [Hst _].
  rewrite forallb_app, Hst. simpl.
  induction (media s) as [|m ms IH]; simpl in *; [reflexivity|].
  apply andb_true_iff in Hms as [Hm Hms]. rewrite forallb_app, (IH Hms), andb_true_r.
  unfold is_block in Hm. now apply andb_true_iff in Hm as [_ Hm].
Qed.

(** The lines of a well-formed object are grouped back into that object. *)
Lemma regroup s :
  well_formed s = true -> fold_left add_line (all_lines s) (mk [] []) = s.
Proof.
  unfold well_formed. intros H.
  apply andb_true_iff in H as [H Hms]. apply andb_true_iff in H as [_ Hst].
  unfold all_lines. rewrite fold_left_app.
  rewrite (fold_start (start s) []) by exact Hst.
  rewrite (fold_blocks (media s) _ []) by exact Hms.
  now destruct s.
Qed.

(** X3. Parsing undoes printing: for a well-formed description object (lines
    that are not empty, untrimmed or broken; session-level lines without an
    [m=] line; blocks that start with their only [m=] line) the constructor
    applied to the text [toString] prints builds the same object again. *)
Theorem constructor_inverts_toString (sdp : AudioCodesSDP.t)
        (Hwf : well_formed sdp = true) :
  constructor (toString sdp) = sdp.
Proof.
  unfold constructor. fold (sdp_lines (toString sdp)).
  rewrite toString_all_lines.
  rewrite sdp_lines_join by (apply all_lines_are_lines; exact Hwf).
  apply regroup. exact Hwf.
Qed.

Lemma constructor_inverts_toString_witness :
  constructor (toString parsed_audio_video) = parsed_audio_video
  /\ constructor sdp_sendrecv_video_sendonly = parsed_audio_video.
Proof.
  split; [|reflexivity].
  exact (constructor_inverts_toString parsed_audio_video eq_refl).
Defined.

(** X4. Printing and parsing again changes nothing: the object parsed from the
    text printed for a parsed description is that description, whatever
    text it came from (line feeds alone, blank lines, indented lines). *)
Theorem parse_print_parse (text : string) :
  constructor (toString (constructor text)) = constructor text.
Proof.
  pose proof (constructor_well_formed text) as Hwf.
  unfold constructor at 1. fold (sdp_lines (toString (constructor text))).
  rewrite toString_all_lines.
  rewrite sdp_lines_join by (apply all_lines_are_lines; exact Hwf).
  apply regroup. exact Hwf.
Qed.

End SDPText.

(* ===================================================================== *)
(** * The video state after an answer                                     *)
(* ===================================================================== *)

(** X5. After an answer is processed off hold, [getVideoState] tells the
    direction of the video block of that answer, as this side sees it: the
    resolved direction of a local answer, the mirrored one (sendonly for
    recvonly and back) of a remote answer, and inactive when the answer
    has no video block. *)
Theorem video_state_is_the_answered_direction
        (E : Env) (e : SdpEvent) (w : World) (text : string)
        (Htext : sdp e = Some text)
        (Htype : JsSIP.type e = "answer")
        (Horiginator : originator e = "local" \/ originator e = "remote")
        (Hoff : on_hold E w = false) :
  AudioCodesSession.getVideoState (data (snd (AudioCodesUA._sdp_checking E e w)))
  = match AudioCodesSDP.getMediaDirectionValue (AudioCodesSDP.constructor text) "video" with
    | Some d => if String.eqb (originator e) "remote" then mirrored d else d
    | None => "inactive"
    end.
Proof.
  destruct (sdp_checking_video E e w) as (send & recv & Hdir & Hv). cbn zeta in Hv.
  destruct (Hdir text Htext) as (dir & Hd).
  rewrite Htext, Hoff in Hv.
  assert (Hname : String.eqb (event_name e) "remote answer"
                  || String.eqb (event_name e) "local answer" = true).
  { unfold event_name. rewrite Htype. destruct Horiginator as [-> | ->]; reflexivity. }
  rewrite Hname in Hv. cbn [andb negb] in Hv.
  unfold AudioCodesSession.getVideoState, AudioCodesSession.hasSendVideo,
    AudioCodesSession.hasReceiveVideo. rewrite Hv. cbn [Runtime.send receive].
  unfold AudioCodesSDP.getMediaDirection in Hd.
  destruct (AudioCodesSDP.getMediaDirectionValue (AudioCodesSDP.constructor text) "video")
    as [d|] eqn:Hval.
  - destruct (getMediaDirectionValue_Some _ _ _ Hval) as [-> | [-> | [-> | ->]]];
      destruct Horiginator as [Ho | Ho]; rewrite Ho in *; simpl in Hd;
        inversion Hd; subst; reflexivity.
  - inversion Hd; subst. reflexivity.
Qed.

Lemma video_state_is_the_answered_direction_witness :
  AudioCodesSession.getVideoState
    (data (snd (AudioCodesUA._sdp_checking rejecting_env
                  (mkSdpEvent "remote" "answer" (Some sdp_sendrecv_video_sendonly))
                  sending_world)))
  = "recvonly".
Proof.
  exact (video_state_is_the_answered_direction rejecting_env
           (mkSdpEvent "remote" "answer" (Some sdp_sendrecv_video_sendonly))
           sending_world sdp_sendrecv_video_sendonly eq_refl eq_refl
           (or_intror eq_refl) eq_refl).
Defined.

(* ===================================================================== *)
(** * More on renegotiation                                               *)
(* ===================================================================== *)

Section AcceptedAttempt.
Variable E : Env.
Hypothesis Hlive : forall t, isEnded (js_session E t) = false.

Lemma attempt_refused o w :
  js_renegotiate E (now w) = ReturnsFalse ->
  (let* p := AudioCodesSession._doRenegotiate E o in await p) w
  = (Normal false,
     mkWorld (data w) (connection w) (localStream w) (now w) (trace w ++ [Renegotiate o])).
Proof.
  intros H. unfold AudioCodesSession._doRenegotiate, bind, get, emit. simpl.
  now rewrite H, Hlive.
Qed.

Lemma attempt_accepted o w :
  js_renegotiate E (now w) = ReturnsTrue true ->
  (let* p := AudioCodesSession._doRenegotiate E o in await p) w
  = (Normal true,
     mkWorld (data w) (connection w) (localStream w) (S (now w)) (trace w ++ [Renegotiate o])).
Proof.
  intros H. unfold AudioCodesSession._doRenegotiate, bind, get, emit. simpl.
  now rewrite H, Hlive.
Qed.

Lemma renegotiate_loop_succeeds repeat delay o (k : nat) : forall i w,
  i + Z.of_nat k < repeat ->
  (forall j, (j < k)%nat -> js_renegotiate E (now w + j) = ReturnsFalse) ->
  js_renegotiate E (now w + k) = ReturnsTrue true ->
  AudioCodesSession.renegotiate_loop E repeat delay o i w
  = (Normal tt,
     mkWorld (data w) (connection w) (localStream w) (S (now w + k))
             (trace w ++ Renegotiate o :: retries k o delay)).
Proof.
  induction k as [|k IH]; intros i w Hi Hno Hyes; rewrite renegotiate_loop_unfold.
  - rewrite Nat.add_0_r in Hyes. rewrite attempt_accepted by exact Hyes.
    now rewrite Nat.add_0_r.
  - rewrite attempt_refused by (rewrite <- (Nat.add_0_r (now w)); apply Hno; lia).
    destruct (Z.geb_spec (i + 1) repeat); [lia|].
    rewrite IH; simpl.
    + f_equal. f_equal; [lia|]. rewrite <- !app_assoc. reflexivity.
    + lia.
    + intros j Hj. replace (S (now w + j))%nat with (now w + S j)%nat by lia.
      apply Hno. lia.
    + replace (S (now w + k))%nat with (now w + S k)%nat by lia. exact Hyes.
Qed.

End AcceptedAttempt.

(** X6. [_renegotiate] tries until JsSIP accepts: when JsSIP returns false to
    the first [k] calls and accepts the next one, with [k] below the limit
    [repeat], on a session that is not ended, [_renegotiate] resolves; it
    has made [k + 1] calls with one wait of [delay] ms before each but the
    first. *)
Theorem renegotiate_resolves_on_first_accepted_attempt
        (E : Env) (N delay : Z) (o : ReInviteOptions) (w : World) (k : nat)
        (Hk : Z.of_nat k < N)
        (Hlive : forall t, isEnded (js_session E t) = false)
        (Hrefused : forall j, (j < k)%nat -> js_renegotiate E (now w + j) = ReturnsFalse)
        (Haccepted : js_renegotiate E (now w + k) = ReturnsTrue true) :
  AudioCodesSession._renegotiate E (AudioCodesSession.mkOptions (Some N) (Some delay) o) w
  = (Normal tt,
     mkWorld (data w) (connection w) (localStream w) (S (now w + k))
             (trace w ++ Renegotiate o :: retries k o delay))
  /\ length (List.filter is_Renegotiate (Renegotiate o :: retries k o delay)) = S k
  /\ length (List.filter is_SetTimeout (Renegotiate o :: retries k o delay)) = k.
Proof.
  destruct (retries_count k o delay) as (H1 & H2 & _).
  split; [|split].
  - unfold AudioCodesSession._renegotiate. simpl.
    apply renegotiate_loop_succeeds; auto.
  - simpl. now rewrite H1.
  - simpl. exact H2.
Qed.

(** [rejecting_env] until time 2, [accepting_env] from then on. *)
Lemma renegotiate_resolves_on_first_accepted_attempt_witness :
  AudioCodesSession._renegotiate accepting_after_two
    (AudioCodesSession.mkOptions (Some 30) (Some 500) (mkReInviteOptions None None None))
    new_world
  = (Normal tt,
     mkWorld AudioCodesSession.constructor [] [] 3
       [ Renegotiate (mkReInviteOptions None None None); SetTimeout 500;
         Renegotiate (mkReInviteOptions None None None); SetTimeout 500;
         Renegotiate (mkReInviteOptions None None None) ]).
Proof.
  refine (proj1 (renegotiate_resolves_on_first_accepted_attempt accepting_after_two 30 500
                   (mkReInviteOptions None None None) new_world 2
                   ltac:(lia) (fun _ => eq_refl) _ eq_refl)).
  intros [|[|j]] Hj; [reflexivity | reflexivity | lia].
Defined.

(** X7. A limit [repeat] of 1, of 0 or below 0 all mean one attempt: when JsSIP
    returns false to the first call (on a session that is not ended),
    [_renegotiate] throws 'Renegotiation failed. Terminated' at once, with no
    wait and no second call. *)
Theorem renegotiate_makes_one_attempt_at_least
        (E : Env) (N delay : Z) (o : ReInviteOptions) (w : World)
        (HN : N <= 1)
        (Hlive : isEnded (js_session E (now w)) = false)
        (Hrefused : js_renegotiate E (now w) = ReturnsFalse) :
  AudioCodesSession._renegotiate E (AudioCodesSession.mkOptions (Some N) (Some delay) o) w
  = (Throw (JsString "Renegotiation failed. Terminated"),
     mkWorld (data w) (connection w) (localStream w) (now w) (trace w ++ [Renegotiate o])).
Proof.
  unfold AudioCodesSession._renegotiate. simpl.
  rewrite renegotiate_loop_unfold.
  unfold AudioCodesSession._doRenegotiate, bind, get, emit. simpl.
  rewrite Hrefused, Hlive. simpl.
  destruct (Z.geb_spec (0 + 1) N); [reflexivity | lia].
Qed.

Lemma renegotiate_makes_one_attempt_at_least_witness :
  AudioCodesSession._renegotiate rejecting_env
    (AudioCodesSession.mkOptions (Some 0) (Some 500) (mkReInviteOptions None None None))
    new_world
  = (Throw (JsString "Renegotiation failed. Terminated"),
     mkWorld AudioCodesSession.constructor [] [] 0
       [ Renegotiate (mkReInviteOptions None None None) ]).
Proof.
  exact (renegotiate_makes_one_attempt_at_least rejecting_env 0 500
           (mkReInviteOptions None None None) new_world ltac:(lia) eq_refl eq_refl).
Defined.

(* ===================================================================== *)
(** * More on starting and stopping video                                 *)
(* ===================================================================== *)

(** X8. [startSendingVideo] asks for the camera before it touches the call:
    when the browser refuses the camera, the promise is rejected with the
    browser's reason, and flags, connection and local stream are as before;
    the only thing done is the call of [getUserMedia]. *)
Theorem startSendingVideo_without_camera_changes_nothing
        (E : Env) (o : AudioCodesSession.Options) (w : World) (e : JsVal)
        (Hoff : AudioCodesSession.hasEnabledSendVideo (data w) = false)
        (Hdenied : navigator_getUserMedia E (now w) = inl e) :
  AudioCodesSession.startSendingVideo E o w
  = (Throw e,
     mkWorld (data w) (connection w) (localStream w) (S (now w)) (trace w ++ [GetUserMedia])).
Proof.
  unfold AudioCodesSession.startSendingVideo, AudioCodesWebRTCWrapper.getUserMedia,
    bind, try_catch, get, emit, suspend. simpl.
  rewrite Hoff, Hdenied. reflexivity.
Qed.

Lemma startSendingVideo_without_camera_changes_nothing_witness :
  AudioCodesSession.startSendingVideo rejecting_env AudioCodesSession.no_options new_world
  = (Throw (JsDOMException "NotAllowedError"),
     mkWorld AudioCodesSession.constructor [] [] 1 [GetUserMedia]).
Proof.
  exact (startSendingVideo_without_camera_changes_nothing rejecting_env
           AudioCodesSession.no_options new_world (JsDOMException "NotAllowedError")
           eq_refl eq_refl).
Defined.

Lemma startSendingVideo_enabled E o w s :
  navigator_getUserMedia E (now w) = inr s ->
  getVideoTracks s <> [] ->
  AudioCodesSession.hasEnabledSendVideo
    (data (snd (AudioCodesSession.startSendingVideo E o w))) = true.
Proof.
  intros Hcam Htracks.
  unfold AudioCodesSession.startSendingVideo.
  unfold bind at 1, get at 1.
  destruct (AudioCodesSession.hasEnabledSendVideo (data w)) eqn:Hflag; [exact Hflag|].
  unfold bind at 1, try_catch at 1, AudioCodesWebRTCWrapper.getUserMedia at 1.
  unfold bind at 1, emit at 1. unfold bind at 1, get at 1.
  unfold bind at 1, suspend at 1. cbn [now]. rewrite Hcam. cbn [of_sum ret].
  destruct (getVideoTracks s) as [|videoTrack rest] eqn:Hv; [congruence|].
  unfold bind at 1, emit at 1. unfold bind at 1, get at 1.
  unfold bind at 1, put_localStream at 1.
  unfold bind at 1. unfold AudioCodesSession._setEnabledSendVideo at 1.
  unfold bind at 1, emit at 1, modify_data at 1.
  match goal with
  | |- AudioCodesSession.hasEnabledSendVideo (data (snd (?m ?w2))) = true =>
      assert (Hrest : frame same_enabledSend any_action m);
      [|specialize (Hrest w2); destruct Hrest as (Hk & _)]
  end.
  { assert (forall b, frame same_enabledSend any_action
                        (AudioCodesSession._setEnabledReceiveVideo b)).
    { intros b. unfold AudioCodesSession._setEnabledReceiveVideo. frame_tac. }
    frame_tac. }
  unfold same_enabledSend in Hk. unfold AudioCodesSession.hasEnabledSendVideo.
  rewrite Hk. reflexivity.
Qed.

(** X9. Once the camera is granted, [startSendingVideo] leaves the call enabled
    to send video however it ends - also when adding the track or the
    re-INVITE fails: the flag is not set back. A second [startSendingVideo]
    then throws Error('video already started') and does nothing. *)
Theorem startSendingVideo_failure_is_not_rolled_back
        (E : Env) (o o' : AudioCodesSession.Options) (w : World) (s : MediaStream)
        (Hcam : navigator_getUserMedia E (now w) = inr s)
        (Htracks : getVideoTracks s <> []) :
  let w' := snd (AudioCodesSession.startSendingVideo E o w) in
  AudioCodesSession.hasEnabledSendVideo (data w') = true
  /\ AudioCodesSession.startSendingVideo E o' w' = (Throw (JsError "video already started"), w').
Proof.
  cbn zeta.
  pose proof (startSendingVideo_enabled E o w s Hcam Htracks) as Hflag.
  split; [exact Hflag|].
  unfold AudioCodesSession.startSendingVideo at 1, bind, get. simpl.
  now rewrite Hflag.
Qed.

Lemma startSendingVideo_failure_is_not_rolled_back_witness :
  AudioCodesSession.hasEnabledSendVideo
    (data (snd (AudioCodesSession.startSendingVideo camera_only_env
                  AudioCodesSession.no_options new_world))) = true.
Proof.
  exact (proj1 (startSendingVideo_failure_is_not_rolled_back camera_only_env
                  AudioCodesSession.no_options AudioCodesSession.no_options new_world
                  [camera] eq_refl ltac:(discriminate))).
Defined.

(** X10. [stopSendingVideo] on a connection that has no video transceiver throws
    'no video transceiver found' before anything is done: the call stays
    enabled to send video and nothing is asked of the browser or of JsSIP. *)
Theorem stopSendingVideo_without_transceiver_changes_nothing
        (E : Env) (o : AudioCodesSession.Options) (w : World)
        (Hon : AudioCodesSession.hasEnabledSendVideo (data w) = true)
        (Hnone : AudioCodesWebRTCWrapper.getTransceiver (connection w) "video" = None) :
  AudioCodesSession.stopSendingVideo E o w
  = (Throw (JsString "no video transceiver found"), w).
Proof.
  unfold AudioCodesSession.stopSendingVideo, AudioCodesWebRTCWrapper.removeVideo,
    bind, try_catch, get. cbv beta iota.
  rewrite Hon. cbn [negb]. rewrite Hnone. reflexivity.
Qed.

Lemma stopSendingVideo_without_transceiver_changes_nothing_witness :
  AudioCodesSession.stopSendingVideo accepting_env AudioCodesSession.no_options
    enabled_without_transceiver
  = (Throw (JsString "no video transceiver found"), enabled_without_transceiver).
Proof.
  exact (stopSendingVideo_without_transceiver_changes_nothing accepting_env
           AudioCodesSession.no_options enabled_without_transceiver eq_refl eq_refl).
Defined.

(** ** The local stream after [removeVideo] *)

Lemma remove_and_stop_run ts : forall w,
  AudioCodesWebRTCWrapper.remove_and_stop ts w
  = (Normal tt,
     mkWorld (data w) (connection w) (fold_left stream_removeTrack ts (localStream w))
             (now w) (trace w ++ flat_map (fun t => [StreamRemoveTrack t; TrackStop t]) ts)).
Proof.
  induction ts as [|t ts IH]; intros w; simpl.
  - rewrite app_nil_r. now destruct w.
  - unfold bind at 1, emit at 1. unfold bind at 1, get at 1.
    unfold bind at 1, put_localStream at 1. unfold bind at 1, emit at 1.
    rewrite IH. simpl. rewrite <- !app_assoc. reflexivity.
Qed.

Lemma fold_removeTrack ts : forall s,
  fold_left stream_removeTrack ts s
  = List.filter (fun x => negb (existsb (track_eqb x) ts)) s.
Proof.
  induction ts as [|t ts IH]; intros s; simpl.
  - induction s as [|x s IHs]; simpl; congruence.
  - rewrite IH. unfold stream_removeTrack.
    induction s as [|x s IHs]; simpl; [reflexivity|].
    destruct (track_eqb x t); simpl; [exact IHs|].
    destruct (existsb (track_eqb x) ts); simpl; congruence.
Qed.

Lemma track_eqb_refl x : track_eqb x x = true.
Proof. unfold track_eqb. now rewrite !String.eqb_refl. Qed.

Lemma track_eqb_kind x t : track_eqb x t = true -> kind x = kind t.
Proof.
  unfold track_eqb. intros H. apply andb_true_iff in H as [H _].
  now apply String.eqb_eq.
Qed.

Lemma no_video_left s :
  getVideoTracks (fold_left stream_removeTrack (getVideoTracks s) s) = [].
Proof.
  rewrite fold_removeTrack. unfold getVideoTracks.
  assert (H : forall l,
             (forall x, In x l -> String.eqb (kind x) "video" = true ->
                        existsb (track_eqb x)
                          (List.filter (fun t => String.eqb (kind t) "video") s) = true) ->
             List.filter (fun t => String.eqb (kind t) "video")
               (List.filter (fun x => negb (existsb (track_eqb x)
                  (List.filter (fun t => String.eqb (kind t) "video") s))) l) = []).
  { induction l as [|x l IHl]; intros Hl; simpl; [reflexivity|].
    destruct (existsb _ _) eqn:Hex; simpl.
    - apply IHl. intros y Hy. apply Hl. now right.
    - destruct (String.eqb (kind x) "video") eqn:Hk.
      + rewrite Hl in Hex by (auto; now left). discriminate.
      + apply IHl. intros y Hy. apply Hl. now right. }
  apply H. intros x Hx Hk. apply existsb_exists. exists x. split.
  - apply List.filter_In. auto.
  - apply track_eqb_refl.
Qed.

Lemma audio_left s ts :
  Forall (fun t => kind t = "video") ts ->
  getAudioTracks (fold_left stream_removeTrack ts s) = getAudioTracks s.
Proof.
  intros Hts. rewrite fold_removeTrack. unfold getAudioTracks.
  induction s as [|x s IHs]; simpl; [reflexivity|].
  destruct (existsb (track_eqb x) ts) eqn:Hex; simpl.
  - apply existsb_exists in Hex as (t & Hin & Heq).
    apply track_eqb_kind in Heq.
    rewrite List.Forall_forall in Hts. specialize (Hts t Hin).
    rewrite Heq, Hts. simpl. exact IHs.
  - destruct (String.eqb (kind x) "audio"); simpl; congruence.
Qed.

(** X11. When [removeVideo] completes, the local stream has no video track left,
    every video track it had was taken out of the stream and stopped, and
    its audio tracks are the ones it had. *)
Theorem removeVideo_clears_video_tracks
        (E : Env) (w w' : World)
        (Hdone : AudioCodesWebRTCWrapper.removeVideo E w = (Normal tt, w')) :
  getVideoTracks (localStream w') = []
  /\ getAudioTracks (localStream w') = getAudioTracks (localStream w)
  /\ Forall (fun t => In (StreamRemoveTrack t) (trace w') /\ In (TrackStop t) (trace w'))
            (getVideoTracks (localStream w)).
Proof.
  unfold AudioCodesWebRTCWrapper.removeVideo in Hdone.
  unfold bind at 1, get at 1 in Hdone.
  destruct (AudioCodesWebRTCWrapper.getTransceiver (connection w) "video") as [i|];
    [|discriminate].
  unfold bind at 1 in Hdone.
  assert (Hrm : exists c w1,
             AudioCodesWebRTCWrapper.browser_removeTrack E i w = (c, w1)
             /\ localStream w1 = localStream w).
  { unfold AudioCodesWebRTCWrapper.browser_removeTrack, bind, emit, get, of_sum,
      put_connection. simpl.
    destruct (connection_removeTrack E (now w) (connection w) i); simpl; eauto. }
  destruct Hrm as (c & w1 & Hrm & Hs). rewrite Hrm in Hdone.
  destruct c as [[]|e|]; try discriminate.
  unfold bind at 1, get at 1 in Hdone.
  rewrite remove_and_stop_run in Hdone. injection Hdone as <-. simpl. rewrite Hs.
  split; [apply no_video_left|]. split.
  - apply audio_left. unfold getVideoTracks. apply List.Forall_forall. intros t Ht.
    apply List.filter_In in Ht as [_ Ht]. now apply String.eqb_eq.
  - apply List.Forall_forall. intros t Ht.
    split; apply in_or_app; right; apply List.in_flat_map; exists t; simpl; auto.
Qed.

Lemma removeVideo_clears_video_tracks_witness :
  getVideoTracks (localStream (snd (AudioCodesWebRTCWrapper.removeVideo accepting_env
                                      sending_world))) = []
  /\ getAudioTracks (localStream (snd (AudioCodesWebRTCWrapper.removeVideo accepting_env
                                         sending_world))) = [microphone].
Proof.
  pose proof (removeVideo_clears_video_tracks accepting_env sending_world
                (snd (AudioCodesWebRTCWrapper.removeVideo accepting_env sending_world))
                eq_refl) as (H1 & H2 & _).
  split; [exact H1 | exact H2].
Defined.

(** ** Stopping and starting again *)

(** X12. Video that was stopped is started again on the same sender: when
    [stopSendingVideo] completes, the session remembers that video was sent
    ([_wasUsedSendVideo]) and is no longer enabled to send it; and with that
    memory [addVideo], on a connection that has a video transceiver, sets
    its direction and replaces the track of its sender - it never adds a
    track, so it never returns true. *)
Theorem restart_reuses_the_video_sender
        (E : Env) (o : AudioCodesSession.Options) (w w' : World)
        (Hstopped : AudioCodesSession.stopSendingVideo E o w = (Normal tt, w')) :
  _wasUsedSendVideo (data w') = true
  /\ AudioCodesSession.hasEnabledSendVideo (data w') = false
  /\ forall (w2 : World) (i : nat) (videoTrack : MediaStreamTrack) (enabledReceiveVideo : bool),
       AudioCodesWebRTCWrapper.getTransceiver (connection w2) "video" = Some i ->
       let r := AudioCodesWebRTCWrapper.addVideo E videoTrack enabledReceiveVideo
                  (_wasUsedSendVideo (data w')) w2 in
       fst r <> Normal true
       /\ trace (snd r)
          = trace w2 ++ [SetDirection i (if enabledReceiveVideo then "sendrecv" else "sendonly");
                         ReplaceTrack i videoTrack].
Proof.
  assert (Hflags : _wasUsedSendVideo (data w') = true
                   /\ AudioCodesSession.hasEnabledSendVideo (data w') = false).
  { unfold AudioCodesSession.stopSendingVideo in Hstopped.
    unfold bind at 1, get at 1 in Hstopped.
    destruct (negb (AudioCodesSession.hasEnabledSendVideo (data w))); [discriminate|].
    unfold bind at 1 in Hstopped.
    destruct (try_catch (AudioCodesWebRTCWrapper.removeVideo E) (fun e => throw e) w)
      as [[[]|e|] w1]; try discriminate.
    unfold bind at 1, AudioCodesSession._setEnabledSendVideo at 1 in Hstopped.
    unfold bind at 1, emit at 1, modify_data at 1 in Hstopped.
    unfold bind at 1, modify_data at 1 in Hstopped.
    match type of Hstopped with
    | AudioCodesSession._renegotiate E o ?w2 = _ =>
        pose proof (renegotiate_any_frame E eq o w2) as (Hd & _)
    end.
    rewrite Hstopped in Hd. cbn [snd data] in Hd. rewrite <- Hd. split; reflexivity. }
  destruct Hflags as (Hused & Hoff). split; [exact Hused|]. split; [exact Hoff|].
  intros w2 i videoTrack enabledReceiveVideo Hvt. cbn zeta. rewrite Hused.
  set (dir := if enabledReceiveVideo then "sendrecv" else "sendonly").
  assert (Hadd : exists c w5,
             AudioCodesWebRTCWrapper.addVideo E videoTrack enabledReceiveVideo true w2
             = (c, w5)
             /\ c <> Normal true
             /\ trace w5 = trace w2 ++ [SetDirection i dir; ReplaceTrack i videoTrack]).
  { unfold AudioCodesWebRTCWrapper.addVideo.
    unfold bind at 1, get at 1. rewrite Hvt.
    rewrite andb_false_r. fold dir.
    unfold bind at 1, AudioCodesWebRTCWrapper.setDirection at 1.
    unfold bind at 1, emit at 1. unfold bind at 1, get at 1. cbn [connection].
    assert (Hset : exists w3,
               (match connection w2 !! i with
                | Some t => put_connection
                              (<[i := mkTransceiver (sender_track t) (receiver_track t) dir]>
                                 (connection w2))
                | None => ret tt
                end) (mkWorld (data w2) (connection w2) (localStream w2) (now w2)
                              (trace w2 ++ [SetDirection i dir]))
               = (Normal tt, w3) /\ trace w3 = trace w2 ++ [SetDirection i dir]).
    { destruct (connection w2 !! i); eexists; split; reflexivity. }
    destruct Hset as (w3 & -> & Htr3).
    unfold bind at 1, promise_of at 1.
    assert (Hrep : exists c w4,
               AudioCodesWebRTCWrapper.browser_replaceTrack E i videoTrack w3 = (c, w4)
               /\ trace w4 = trace w3 ++ [ReplaceTrack i videoTrack]).
    { unfold AudioCodesWebRTCWrapper.browser_replaceTrack, bind, emit, get, of_sum,
        put_connection. simpl.
      destruct (sender_replaceTrack E (now w3) (connection w3) i videoTrack); simpl; eauto. }
    destruct Hrep as (c & w4 & -> & Htr4).
    unfold bind, suspend, await, ret, throw.
    destruct c as [[]|e|]; simpl; do 2 eexists; (split; [reflexivity|]);
      simpl; rewrite Htr4, Htr3, <- app_assoc; (split; [discriminate | reflexivity]). }
  destruct Hadd as (c & w5 & -> & Hc & Htr). split; [exact Hc | exact Htr].
Qed.

Lemma restart_reuses_the_video_sender_witness :
  _wasUsedSendVideo
    (data (snd (AudioCodesSession.stopSendingVideo accepting_env
                  AudioCodesSession.no_options sending_world))) = true
  /\ AudioCodesSession.hasEnabledSendVideo
       (data (snd (AudioCodesSession.stopSendingVideo accepting_env
                     AudioCodesSession.no_options sending_world))) = false.
Proof.
  assert (Hfst : fst (AudioCodesSession.stopSendingVideo accepting_env
                        AudioCodesSession.no_options sending_world) = Normal tt).
  { unfold AudioCodesSession.stopSendingVideo, AudioCodesSession._renegotiate.
    cbn -[AudioCodesSession.renegotiate_loop].
    rewrite renegotiate_loop_unfold. reflexivity. }
  destruct (AudioCodesSession.stopSendingVideo accepting_env
              AudioCodesSession.no_options sending_world) as [c w1] eqn:Hrun.
  cbn [fst] in Hfst. subst c. cbn [snd].
  destruct (restart_reuses_the_video_sender accepting_env AudioCodesSession.no_options
              sending_world w1 Hrun) as (H1 & H2 & _).
  split; [exact H1 | exact H2].
Defined.

(* ===================================================================== *)
(** * More on screen sharing and re-INVITE                                *)
(* ===================================================================== *)

Lemma onEndedScreenSharing_clears E w :
  _screenSharing (data (snd (AudioCodesSession._onEndedScreenSharing E w))) = None.
Proof.
  unfold AudioCodesSession._onEndedScreenSharing.
  unfold bind at 1, get at 1. unfold bind at 1, modify_data at 1.
  match goal with
  | |- _screenSharing (data (snd (?m ?w2))) = None =>
      assert (Hrest : frame screenSharing_kept any_action m);
      [|specialize (Hrest w2); destruct Hrest as ([Hk|Hk] & _); exact Hk]
  end.
  assert (Hset : forall b, frame screenSharing_kept any_action
                             (AudioCodesSession._setEnabledSendVideo b)).
  { intros b. unfold AudioCodesSession._setEnabledSendVideo. frame_tac.
    unfold screenSharing_kept. now left. }
  assert (Hstop : forall o, frame screenSharing_kept any_action
                              (AudioCodesSession.stopSendingVideo E o)).
  { intros o. unfold AudioCodesSession.stopSendingVideo. frame_tac.
    unfold screenSharing_kept. now left. }
  unfold AudioCodesSession.isTerminated. frame_tac.
Qed.

(** X13. [stopScreenSharing] always returns, whatever becomes of the
    renegotiation its 'ended' handler starts, and leaves the session without
    a screen-sharing record. With a record, the first thing it does is to
    stop the screen track; without one it does nothing at all. *)
Theorem stopScreenSharing_always_returns (E : Env) (w : World) :
  exists w',
    AudioCodesSession.stopScreenSharing E w = (Normal tt, w')
    /\ _screenSharing (data w') = None
    /\ match _screenSharing (data w) with
       | Some ss => exists tr, trace w' = trace w ++ TrackStop (track ss) :: tr
       | None => w' = w
       end.
Proof.
  unfold AudioCodesSession.stopScreenSharing.
  unfold bind at 1, get at 1.
  destruct (_screenSharing (data w)) as [ss|] eqn:Hss.
  2: { exists w. cbn [ret]. auto. }
  unfold bind at 1, emit at 1. unfold bind at 1, promise_of at 1.
  set (w1 := mkWorld (data w) (connection w) (localStream w) (now w)
                     (trace w ++ [TrackStop (track ss)])).
  pose proof (onEndedScreenSharing_clears E w1) as Hclear.
  pose proof (onEndedScreenSharing_keeps E w1) as (_ & tr & Htr & _).
  destruct (AudioCodesSession._onEndedScreenSharing E w1) as [[[]|e|] w2];
    simpl in Hclear, Htr; eexists; (split; [reflexivity|]); (split; [exact Hclear|]);
    exists tr; rewrite Htr; unfold w1; simpl; now rewrite <- app_assoc.
Qed.

(** X14. On a terminated call the 'ended' handler of the screen track only
    forgets the screen-sharing record: no track is replaced or removed, no
    re-INVITE is sent and no listener is called - also when there was no
    record. *)
Theorem onEndedScreenSharing_on_terminated_call
        (E : Env) (w : World)
        (Hended : isEnded (js_session E (now w)) = true) :
  AudioCodesSession._onEndedScreenSharing E w
  = (Normal tt,
     mkWorld (set_screenSharing (data w) None) (connection w) (localStream w)
             (now w) (trace w)).
Proof.
  unfold AudioCodesSession._onEndedScreenSharing, AudioCodesSession.isTerminated,
    bind, get, modify_data, ret. cbn [now]. now rewrite Hended.
Qed.

Lemma onEndedScreenSharing_on_terminated_call_witness :
  AudioCodesSession._onEndedScreenSharing ended_env sharing_world
  = (Normal tt,
     mkWorld (mkData false false None (mkVideo true true true true))
             (connection sharing_world) (localStream sharing_world) 3
             (trace sharing_world)).
Proof.
  exact (onEndedScreenSharing_on_terminated_call ended_env sharing_world eq_refl).
Defined.

(** X15. When screen sharing ends on a live call that was sending camera video,
    and the camera cannot be put back - the connection has no video sender
    with a track, or the local stream has no video track - the rejection of
    [replaceSenderTrack] is lost: the handler does not wait for that
    promise, so it goes on exactly as if the track had been replaced, with
    the re-INVITE 'X-Screen-Sharing: off' and the listener, and never asks
    the browser to replace a track. *)
Theorem screen_sharing_end_loses_failed_restore
        (E : Env) (w : World) (ss : ScreenSharing)
        (Hss : _screenSharing (data w) = Some ss)
        (Hhad : hadSendVideo ss = true)
        (Hlive : isEnded (js_session E (now w)) = false)
        (Hmissing : AudioCodesWebRTCWrapper.findSender (connection w) "video" 0 = None
                    \/ getVideoTracks (localStream w) = []) :
  let off := AudioCodesSession.header_options "X-Screen-Sharing: off" in
  let w0 := mkWorld (set_screenSharing (data w) None) (connection w) (localStream w)
                    (now w) (trace w) in
  let callback := if listeners_callScreenSharingEnded E
                  then emit CallScreenSharingEnded else ret tt in
  (exists reason,
      AudioCodesWebRTCWrapper.replaceSenderTrack E "video" w0
      = (Normal (Rejected (JsString reason)), w0)
      /\ (reason = "No video sender" \/ reason = "No video track"))
  /\ AudioCodesSession._onEndedScreenSharing E w
     = (AudioCodesSession._renegotiate E off ;;; callback) w0.
Proof.
  cbn zeta.
  set (w0 := mkWorld (set_screenSharing (data w) None) (connection w) (localStream w)
                     (now w) (trace w)).
  assert (Hrep : exists reason,
             AudioCodesWebRTCWrapper.replaceSenderTrack E "video" w0
             = (Normal (Rejected (JsString reason)), w0)
             /\ (reason = "No video sender" \/ reason = "No video track")).
  { unfold AudioCodesWebRTCWrapper.replaceSenderTrack, bind, get. cbv beta iota.
    cbn [connection localStream w0].
    destruct (AudioCodesWebRTCWrapper.findSender (connection w) "video" 0) as [i|].
    - destruct Hmissing as [Hm|Hm]; [discriminate|].
      replace (if String.eqb "video" "audio"
               then getAudioTracks (localStream w)
               else getVideoTracks (localStream w))
        with (getVideoTracks (localStream w)) by reflexivity.
      rewrite Hm. eexists. split; [reflexivity | now right].
    - eexists. split; [reflexivity | now left]. }
  split; [exact Hrep|].
  destruct Hrep as (reason & Hrep & _).
  unfold AudioCodesSession._onEndedScreenSharing, AudioCodesSession.isTerminated.
  unfold bind at 1, get at 1. rewrite Hss.
  unfold bind at 1, modify_data at 1.
  unfold bind at 1. unfold bind at 1, get at 1, ret at 1. cbn [now]. rewrite Hlive, Hhad.
  fold w0. unfold bind at 1. unfold bind at 1. rewrite Hrep.
  unfold bind at 1. reflexivity.
Qed.

Lemma screen_sharing_end_loses_failed_restore_witness :
  AudioCodesSession._onEndedScreenSharing accepting_env sharing_without_camera
  = (AudioCodesSession._renegotiate accepting_env
       (AudioCodesSession.header_options "X-Screen-Sharing: off") ;;;
     emit CallScreenSharingEnded)
      (mkWorld (mkData false false None (mkVideo true true true true))
               (connection sharing_without_camera) [microphone] 0 []).
Proof.
  exact (proj2 (screen_sharing_end_loses_failed_restore accepting_env sharing_without_camera
                  (mkScreenSharing screen true) eq_refl eq_refl eq_refl
                  (or_intror eq_refl))).
Defined.

(** X16. [sendReInvite] calls the listener [callShowStreams] exactly when the
    renegotiation succeeded and the option [showStreams] is set, and then as
    the last thing it does; when the renegotiation fails or never ends, the
    listener is not called. *)
Theorem sendReInvite_shows_streams_after_success
        (E : Env) (o : AudioCodesSession.Options) (w : World) :
  exists tr,
    trace (snd (AudioCodesSession.sendReInvite E o w)) = trace w ++ tr
    /\ (In CallShowStreams tr <->
        fst (AudioCodesSession._renegotiate E o w) = Normal tt
        /\ showStreams (AudioCodesSession.rest o) = Some true)
    /\ (In CallShowStreams tr ->
        exists tr', tr = tr' ++ [CallShowStreams] /\ ~ In CallShowStreams tr')
    /\ (fst (AudioCodesSession._renegotiate E o w) <> Normal tt ->
        AudioCodesSession.sendReInvite E o w = AudioCodesSession._renegotiate E o w).
Proof.
  destruct (renegotiate_frame E same_initial (fun a => a <> CallShowStreams)
              ltac:(discriminate) ltac:(discriminate) o w) as (_ & tr1 & Htr1 & Hno).
  assert (Hnot : ~ In CallShowStreams tr1).
  { intros Hin. rewrite List.Forall_forall in Hno. now apply (Hno _ Hin). }
  unfold AudioCodesSession.sendReInvite, bind.
  destruct (AudioCodesSession._renegotiate E o w) as [[[]|e|] w1]; simpl in *.
  - destruct (showStreams (AudioCodesSession.rest o)) as [[|]|] eqn:Hshow; simpl.
    + exists (tr1 ++ [CallShowStreams]). rewrite Htr1, <- app_assoc.
      split; [reflexivity|]. split; [|split].
      * split; [auto|]. intros _. apply in_or_app. right. now left.
      * intros _. eauto.
      * congruence.
    + exists tr1. split; [exact Htr1|]. split; [|split]; try tauto.
      split; [tauto | intros [_ H]; discriminate].
    + exists tr1. split; [exact Htr1|]. split; [|split]; try tauto.
      split; [tauto | intros [_ H]; discriminate].
  - exists tr1. split; [exact Htr1|]. split; [|split]; try tauto.
    split; [tauto | intros [H _]; discriminate].
  - exists tr1. split; [exact Htr1|]. split; [|split]; try tauto.
    split; [tauto | intros [H _]; discriminate].
Qed.

(* ===================================================================== *)
(** * More on the keep-alive monitor                                      *)
(* ===================================================================== *)

Section KeepAliveMore.
Import AudioCodesUA.

Ltac split_cases :=
  repeat match goal with
         | |- context [if ?b then _ else _] => destruct b eqn:?; simpl
         | |- context [match ?x with _ => _ end] => destruct x eqn:?; simpl
         end.

(** What one pong writes: nothing, or the statistics line. *)
Lemma onPong_output now u :
  output (_onPong now u) = output u
  \/ exists lo hi text,
       output (_onPong now u) = output u ++ [StatsReport (wsPongStats u) lo hi text]
       /\ 0 < wsPongStats u
       /\ lo = Z.min (wsPongStatDelayMin u) (now - wsPongStatTime u)
       /\ hi = Z.max (wsPongStatDelayMax u) (now - wsPongStatTime u).
Proof.
  destruct u as [sock pingT pongT pingMs pongMs was stats num time dmin dmax dist out].
  unfold _onPong. simpl.
  destruct (pongMs =? 0); simpl; [now left|].
  destruct was; simpl.
  all: destruct (Z.gtb_spec stats 0); simpl; [|now left].
  all: destruct (Z.ltb_spec (now - time) dmin); simpl.
  all: destruct (Z.gtb_spec (now - time) dmax); simpl.
  all: destruct dist as [d|]; simpl.
  all: destruct (Z.eqb_spec (num + 1) stats); simpl; [|now left].
  all: right; subst stats; do 3 eexists; (split; [reflexivity|]); repeat split; lia.
Qed.

(** What one event writes. *)
Lemma step_output u ev u' :
  step u ev = Some u' ->
  exists outs,
    output u' = output u ++ outs
    /\ match ev with
       | SetKeepAlive _ _ _ _ | Disconnected => outs = []
       | Connected ws => outs = [] \/ outs = [Hook ws]
       | Message d _ =>
           if String.eqb d CRLF
           then outs = [] \/ exists p lo hi text, outs = [StatsReport p lo hi text]
           else outs = [Forward d]
       | PingTick _ _ =>
           outs = [] \/ exists task, wsPingTask u = Some task
                                     /\ outs = [Send (websocket task) CRLFCRLF]
       | PongTimeout => outs = [] \/ exists ws, wsSocket u = Some ws /\ outs = [Close ws]
       end.
Proof.
  intros Hstep.
  destruct ev as [pingS pongS stats pongDist|ws| |msg t|readyState t|]; simpl in Hstep.
  - injection Hstep as <-. exists []. rewrite app_nil_r. split; [|reflexivity].
    unfold setWebSocketKeepAlive. now destruct pongDist.
  - injection Hstep as <-. unfold _startWsKeepAlive, _stopWsKeepAlive. simpl.
    destruct (wsPingMs u =? 0); simpl.
    + exists []. rewrite app_nil_r. auto.
    + exists [Hook ws]. split; [|auto]. split_cases; reflexivity.
  - injection Hstep as <-. exists []. rewrite app_nil_r. split; [|reflexivity].
    unfold _stopWsKeepAlive. split_cases; reflexivity.
  - destruct (existsb _ (output u)); [|discriminate]. injection Hstep as <-.
    unfold _onMessageHook. destruct (String.eqb msg CRLF).
    + destruct (onPong_output t u) as [H|(lo & hi & text & H & _)]; rewrite H.
      * exists []. rewrite app_nil_r. auto.
      * eexists. split; [reflexivity|]. right. eauto.
    + exists [Forward msg]. auto.
  - destruct (wsPingTask u) as [task|] eqn:Htask; [|discriminate].
    injection Hstep as <-. unfold ping.
    destruct (readyState =? WebSocket_OPEN).
    + exists [Send (websocket task) CRLFCRLF]. split; [|eauto].
      split_cases; reflexivity.
    + exists []. rewrite app_nil_r. split; [|auto]. split_cases; reflexivity.
  - destruct (wsPongTask u) eqn:Hp; [|discriminate]. injection Hstep as <-.
    unfold _onPongTimeout, _stopWsKeepAlive. simpl.
    destruct (wsWasPong u); simpl.
    + destruct (wsSocket u) as [ws|] eqn:Hws.
      * exists [Close ws]. split; [|eauto].
        destruct (wsPingTask u); simpl; rewrite Hws; reflexivity.
      * exists []. rewrite app_nil_r. split; [|auto].
        destruct (wsPingTask u); simpl; rewrite Hws; reflexivity.
    + exists []. rewrite app_nil_r. auto.
Qed.



Lemma step_silent u ev u' :
  wsPingTask u = None -> wsPongTask u = None ->
  (not_Connected ev \/ wsPingMs u = 0 /\ not_reconfigured ev) ->
  step u ev = Some u' ->
  wsPingTask u' = None /\ wsPongTask u' = None
  /\ (wsPingMs u = 0 /\ not_reconfigured ev -> wsPingMs u' = 0)
  /\ exists outs, output u' = output u ++ outs /\ Forall touches_no_websocket outs.
Proof.
  intros Hping Hpong Hev Hstep.
  destruct (step_output _ _ _ Hstep) as (outs & Hout & Houts).
  destruct u as [sock pingT pongT pingMs pongMs was stats num time dmin dmax dist out].
  simpl in *. subst pingT pongT.
  destruct ev as [pingS pongS stats' pongDist|ws| |msg t|readyState t|];
    simpl in Hstep; try discriminate.
  - injection Hstep as <-. unfold setWebSocketKeepAlive.
    destruct pongDist; simpl; repeat split; try tauto;
      exists outs; subst outs; split; auto; constructor.
  - destruct Hev as [[]|[-> _]]. injection Hstep as <-.
    unfold _startWsKeepAlive. simpl. repeat split.
    exists []. rewrite app_nil_r. split; [reflexivity | constructor].
  - injection Hstep as <-. unfold _stopWsKeepAlive. simpl. repeat split; try tauto.
    exists []. rewrite app_nil_r. split; [reflexivity | constructor].
  - destruct (existsb _ out); [|discriminate]. injection Hstep as <-.
    unfold _onMessageHook in *.
    destruct (String.eqb msg CRLF).
    + pose proof (onPong_tasks t (mkUA sock None None pingMs pongMs was stats num time
                                       dmin dmax dist out)) as (H1 & _ & _ & H4 & _).
      simpl in H1, H4. split; [exact H1|]. split; [destruct H4 as [H4|H4]; [exact H4|now rewrite H4]|].
      split.
      * intros [-> _]. unfold _onPong. simpl. split_cases; reflexivity.
      * exists outs. split; [exact Hout|].
        destruct Houts as [-> | (p & lo & hi & text & ->)]; repeat constructor.
    + simpl. repeat split; try tauto.
      exists [Forward msg]. split; [reflexivity | repeat constructor].
Qed.

Lemma run_silent evs : forall u u',
  wsPingTask u = None -> wsPongTask u = None ->
  (Forall not_Connected evs \/ wsPingMs u = 0 /\ Forall not_reconfigured evs) ->
  run u evs = Some u' ->
  wsPingTask u' = None /\ wsPongTask u' = None
  /\ exists outs, output u' = output u ++ outs /\ Forall touches_no_websocket outs.
Proof.
  induction evs as [|ev evs IH]; simpl; intros u u' Hping Hpong Hevs Hrun.
  - injection Hrun as <-. repeat split; auto.
    exists []. rewrite app_nil_r. split; [reflexivity | constructor].
  - destruct (step u ev) as [u1|] eqn:Hstep; [|discriminate].
    assert (Hev : not_Connected ev \/ wsPingMs u = 0 /\ not_reconfigured ev).
    { destruct Hevs as [H|[H0 H]]; inversion H; subst; auto. }
    destruct (step_silent _ _ _ Hping Hpong Hev Hstep) as (Hping1 & Hpong1 & Hms & o1 & Ho1 & Hf1).
    assert (Hevs1 : Forall not_Connected evs
                    \/ wsPingMs u1 = 0 /\ Forall not_reconfigured evs).
    { destruct Hevs as [H|[H0 H]]; inversion H; subst; auto. }
    destruct (IH _ _ Hping1 Hpong1 Hevs1 Hrun) as (Hping2 & Hpong2 & o2 & Ho2 & Hf2).
    repeat split; auto. exists (o1 ++ o2). split.
    + now rewrite Ho2, Ho1, app_assoc.
    + apply Forall_app; auto.
Qed.

(** X18. After 'disconnected' the monitor is silent until the next 'connected':
    both timers are cleared, so no tick and no pong timeout can fire, and
    whatever else happens nothing is sent to a websocket, none is closed and
    none is hooked. *)
Theorem disconnected_monitor_is_silent (evs : list Event) (u u' : UA)
        (Hevs : Forall not_Connected evs)
        (Hrun : run (_stopWsKeepAlive u) evs = Some u') :
  step (_stopWsKeepAlive u) PongTimeout = None
  /\ (forall readyState now, step (_stopWsKeepAlive u) (PingTick readyState now) = None)
  /\ wsPingTask u' = None /\ wsPongTask u' = None
  /\ exists outs, output u' = output u ++ outs /\ Forall touches_no_websocket outs.
Proof.
  assert (Hstop : wsPingTask (_stopWsKeepAlive u) = None
                  /\ wsPongTask (_stopWsKeepAlive u) = None
                  /\ output (_stopWsKeepAlive u) = output u).
  { unfold _stopWsKeepAlive. destruct (wsPingTask u) eqn:H1; simpl;
      destruct (wsPongTask u) eqn:H2; simpl; auto. }
  destruct Hstop as (H1 & H2 & H3).
  split; [simpl; now rewrite H2|]. split; [intros; simpl; now rewrite H1|].
  destruct (run_silent evs _ _ H1 H2 (or_introl Hevs) Hrun) as (H4 & H5 & outs & H6 & H7).
  rewrite H3 in H6. eauto 6.
Qed.

Lemma disconnected_monitor_is_silent_witness :
  run (_stopWsKeepAlive after_first_probe) late_traffic = Some after_late_traffic
  /\ exists outs, output after_late_traffic = output after_first_probe ++ outs
                  /\ Forall touches_no_websocket outs.
Proof.
  assert (Hrun : run (_stopWsKeepAlive after_first_probe) late_traffic
                 = Some after_late_traffic) by (vm_compute; reflexivity).
  split; [exact Hrun|].
  assert (Hevs : Forall not_Connected late_traffic) by (repeat constructor).
  exact (proj2 (proj2 (proj2 (proj2 (disconnected_monitor_is_silent late_traffic
                                       after_first_probe after_late_traffic Hevs Hrun))))).
Defined.

(** X19. A monitor with no ping interval (the default: [setWebSocketKeepAlive] was
    not called, or called with 0 seconds) never starts a timer: connecting
    installs no hook, and as long as it is not configured again nothing is
    sent to a websocket and none is closed. *)
Theorem monitor_without_ping_interval_is_idle (evs : list Event) (u u' : UA)
        (Hoff : wsPingMs u = 0)
        (Hping : wsPingTask u = None)
        (Hpong : wsPongTask u = None)
        (Hevs : Forall not_reconfigured evs)
        (Hrun : run u evs = Some u') :
  wsPingTask u' = None /\ wsPongTask u' = None
  /\ (forall ws, output (_startWsKeepAlive ws u) = output u
                 /\ wsSocket (_startWsKeepAlive ws u) = Some ws)
  /\ exists outs, output u' = output u ++ outs /\ Forall touches_no_websocket outs.
Proof.
  destruct (run_silent evs _ _ Hping Hpong (or_intror (conj Hoff Hevs)) Hrun)
    as (H4 & H5 & H6).
  repeat split; auto; unfold _startWsKeepAlive; simpl; now rewrite Hoff.
Qed.

Lemma monitor_without_ping_interval_is_idle_witness :
  run constructor reconnection = Some after_reconnection
  /\ wsPingTask after_reconnection = None /\ wsPongTask after_reconnection = None.
Proof.
  assert (Hrun : run constructor reconnection = Some after_reconnection)
    by (vm_compute; reflexivity).
  assert (Hevs : Forall not_reconfigured reconnection) by (repeat constructor).
  split; [exact Hrun|].
  destruct (monitor_without_ping_interval_is_idle reconnection constructor
              after_reconnection eq_refl eq_refl eq_refl Hevs Hrun)
    as (H1 & H2 & _).
  split; [exact H1 | exact H2].
Defined.


(** ** The websocket that is pinged *)

Lemma onPong_pingMs now u : wsPingMs (_onPong now u) = wsPingMs u.
Proof.
  destruct u as [sock pingT pongT pingMs pongMs was stats num time dmin dmax dist out].
  unfold _onPong. simpl. split_cases; reflexivity.
Qed.

Lemma step_pings_current_websocket u ev u' :
  pings_current_websocket u -> not_reconfigured ev -> step u ev = Some u' ->
  pings_current_websocket u'.
Proof.
  unfold pings_current_websocket. intros Hok Hev Hstep.
  destruct ev as [pingS pongS stats pongDist|ws| |msg t|readyState t|];
    simpl in Hstep; try contradiction.
  - injection Hstep as <-.
    destruct u as [sock pingT pongT pingMs pongMs was stats num time dmin dmax dist out].
    unfold _startWsKeepAlive, _stopWsKeepAlive. simpl in *.
    destruct (Z.eqb_spec pingMs 0) as [H0|H0]; simpl.
    + intros task Htask. destruct (Hok task Htask) as (_ & Hms). contradiction.
    + intros task. destruct pingT; simpl; destruct pongT; simpl;
        intros [= <-]; simpl; auto.
  - injection Hstep as <-.
    destruct u as [sock pingT pongT pingMs pongMs was stats num time dmin dmax dist out].
    unfold _stopWsKeepAlive. simpl. intros task.
    destruct pingT; simpl; destruct pongT; simpl; discriminate.
  - destruct (existsb _ (output u)); [|discriminate]. injection Hstep as <-.
    unfold _onMessageHook. destruct (String.eqb msg CRLF); [|exact Hok].
    destruct (onPong_tasks t u) as (H1 & H2 & _).
    intros task. rewrite H1, H2, onPong_pingMs. apply Hok.
  - destruct (wsPingTask u) as [task0|] eqn:Htask0; [|discriminate].
    injection Hstep as <-.
    destruct u as [sock pingT pongT pingMs pongMs was stats num time dmin dmax dist out].
    unfold ping. simpl in *. subst pingT. intros task.
    destruct (_ && _); simpl; destruct (stats >? 0); simpl;
      destruct (readyState =? WebSocket_OPEN); simpl; apply Hok.
  - destruct (wsPongTask u) eqn:Hp; [|discriminate]. injection Hstep as <-.
    destruct u as [sock pingT pongT pingMs pongMs was stats num time dmin dmax dist out].
    unfold _onPongTimeout, _stopWsKeepAlive. simpl in *. intros task.
    destruct was; simpl.
    + destruct pingT; simpl; destruct sock; simpl; discriminate.
    + apply Hok.
Qed.

(** X20. Every probe goes to the websocket of the last 'connected' event: over
    any run in which [setWebSocketKeepAlive] is not called again, the
    interval task is the one started for the websocket the monitor holds, so
    a tick on an open websocket sends the probe CRLF CRLF to that websocket
    and to no other. *)
Theorem probes_go_to_the_current_websocket (evs : list Event) (u0 u : UA)
        (Hstart : pings_current_websocket u0)
        (Hevs : Forall not_reconfigured evs)
        (Hrun : run u0 evs = Some u) :
  pings_current_websocket u
  /\ forall now u',
       step u (PingTick WebSocket_OPEN now) = Some u' ->
       exists ws, wsSocket u = Some ws /\ output u' = output u ++ [Send ws CRLFCRLF].
Proof.
  assert (Hok : pings_current_websocket u).
  { revert u0 Hstart Hrun. induction Hevs as [|ev evs Hev Hevs IH]; simpl; intros u0 Hstart Hrun.
    - now injection Hrun as <-.
    - destruct (step u0 ev) as [u1|] eqn:Hstep; [|discriminate].
      eapply IH; [|exact Hrun]. eapply step_pings_current_websocket; eauto. }
  split; [exact Hok|]. intros now u' Hstep. simpl in Hstep.
  destruct (wsPingTask u) as [task|] eqn:Htask; [|discriminate].
  destruct (Hok task Htask) as (Hws & _).
  injection Hstep as <-. exists (websocket task). split; [exact Hws|].
  unfold ping. simpl. split_cases; reflexivity.
Qed.

Lemma probes_go_to_the_current_websocket_witness :
  run configured two_probes = Some after_two_probes
  /\ wsSocket after_two_probes = Some 2%nat
  /\ exists ws, wsSocket after_two_probes = Some ws
                /\ output (ping (mkPingTask 10000 2) WebSocket_OPEN 21000 after_two_probes)
                   = output after_two_probes ++ [Send ws CRLFCRLF].
Proof.
  assert (Hrun : run configured two_probes = Some after_two_probes)
    by (vm_compute; reflexivity).
  assert (Hevs : Forall not_reconfigured two_probes) by (repeat constructor).
  assert (Hstart : pings_current_websocket configured) by (intros task; discriminate).
  split; [exact Hrun|]. split; [reflexivity|].
  exact (proj2 (probes_go_to_the_current_websocket two_probes configured after_two_probes
                  Hstart Hevs Hrun) 21000 _ eq_refl).
Defined.

(** ** The distribution of the pong delays *)

Lemma counted_zeros n : counted (replicate n 0) = 0.
Proof. induction n as [|n IH]; simpl; [reflexivity|]. exact IH. Qed.

Lemma counted_insert (d : list Z) : forall (i : nat) (x y : Z),
  d !! i = Some x -> counted (<[i := y]> d) = counted d - x + y.
Proof.
  unfold counted.
  induction d as [|a d IH]; intros i x y Hi; [discriminate|].
  destruct i as [|i]; simpl in *.
  - injection Hi as ->. lia.
  - rewrite (IH i x y Hi). lia.
Qed.

Lemma increment_counted (d : list Z) (n : Z) :
  0 <= n < Z.of_nat (length d) ->
  counted (increment d n) = counted d + 1 /\ length (increment d n) = length d.
Proof.
  intros Hn. rewrite increment_in_range by exact Hn.
  destruct (d !! Z.to_nat n) as [x|] eqn:Hx.
  - split; [|apply length_insert]. rewrite (counted_insert d _ x _ Hx). simpl. lia.
  - apply lookup_ge_None in Hx. lia.
Qed.

Lemma onPong_hist_ok L t now u :
  (0 < L)%nat -> t <= now -> hist_ok L t u -> hist_ok L now (_onPong now u).
Proof.
  intros HL Ht (d & Hd & Hlen & Hsum & Htime).
  destruct u as [sock pingT pongT pingMs pongMs was stats num time dmin dmax dist out].
  simpl in *. subst dist.
  assert (Hn : 0 <= (if (now - time) / 250 >=? Z.of_nat (length d)
                     then Z.of_nat (length d) - 1 else (now - time) / 250)
               < Z.of_nat (length d)).
  { pose proof (Z.div_pos (now - time) 250 ltac:(lia) ltac:(lia)).
    destruct (Z.geb_spec ((now - time) / 250) (Z.of_nat (length d))); lia. }
  destruct (increment_counted d _ Hn) as (Hinc & Hlen').
  unfold _onPong, hist_ok. simpl.
  destruct (pongMs =? 0); simpl; [exists d; repeat split; auto; lia|].
  destruct was; simpl.
  all: destruct (stats >? 0); simpl; [|exists d; repeat split; auto; lia].
  all: destruct (now - time <? dmin); simpl.
  all: destruct (now - time >? dmax); simpl.
  all: destruct (num + 1 =? stats); simpl.
  all: eexists; (split; [reflexivity|]).
  all: rewrite ?length_replicate, ?counted_zeros, ?Hlen', ?Hinc.
  all: repeat split; lia.
Qed.

Lemma step_hist_ok L t u ev u' :
  (0 < L)%nat -> hist_ok L t u -> not_reconfigured ev -> chronological t [ev] ->
  step u ev = Some u' ->
  exists t', hist_ok L t' u' /\ forall rest, chronological t (ev :: rest) -> chronological t' rest.
Proof.
  intros HL Hok Hev Ht Hstep.
  destruct ev as [pingS pongS stats' pongDist|ws| |msg now|readyState now|];
    simpl in Hstep, Ht; try contradiction.
  - injection Hstep as <-. exists t. split; [|auto].
    destruct u as [sock pingT pongT pingMs pongMs was stats num time dmin dmax dist out].
    destruct Hok as (d & Hd & H). exists d. simpl in *.
    unfold _startWsKeepAlive, _stopWsKeepAlive. simpl.
    destruct (pingMs =? 0); simpl; [auto|].
    destruct pingT; simpl; destruct pongT; simpl; auto.
  - injection Hstep as <-. exists t. split; [|auto].
    destruct u as [sock pingT pongT pingMs pongMs was stats num time dmin dmax dist out].
    destruct Hok as (d & Hd & H). exists d. simpl in *.
    unfold _stopWsKeepAlive. simpl.
    destruct pingT; simpl; destruct pongT; simpl; auto.
  - destruct (existsb _ (output u)); [|discriminate]. injection Hstep as <-.
    exists now. split; [|simpl; tauto].
    unfold _onMessageHook. destruct (String.eqb msg CRLF).
    + apply (onPong_hist_ok L t); tauto.
    + destruct Hok as (d & Hd & H1 & H2 & H3). exists d. simpl. repeat split; auto. lia.
  - destruct (wsPingTask u) as [task|]; [|discriminate]. injection Hstep as <-.
    exists now. split; [|simpl; tauto].
    destruct u as [sock pingT pongT pingMs pongMs was stats num time dmin dmax dist out].
    destruct Hok as (d & Hd & H1 & H2 & H3). exists d. simpl in *.
    unfold ping. simpl.
    destruct (_ && _); simpl; destruct (stats >? 0); simpl;
      destruct (readyState =? WebSocket_OPEN); simpl; repeat split; auto; lia.
  - destruct (wsPongTask u); [|discriminate]. injection Hstep as <-.
    exists t. split; [|auto].
    destruct u as [sock pingT pongT pingMs pongMs was stats num time dmin dmax dist out].
    destruct Hok as (d & Hd & H). exists d. simpl in *.
    unfold _onPongTimeout, _stopWsKeepAlive. simpl.
    destruct was; simpl; [|auto].
    destruct pingT; simpl; destruct sock; simpl; auto.
Qed.

(** X21. The distribution accounts for every pong: on a monitor configured once
    with the distribution on and a pong timeout of at least a second, whose
    events carry times that do not go back, the distribution always has 4
    buckets per second of the pong timeout and its buckets add up to the
    number of pongs counted since the last report. *)
Theorem distribution_counts_every_pong
        (pingSeconds pongSeconds pongStats : Z) (evs : list Event) (u : UA)
        (Hpong : 1 <= pongSeconds)
        (Hevs : Forall not_reconfigured evs)
        (Htimes : chronological 0 evs)
        (Hrun : run (setWebSocketKeepAlive pingSeconds pongSeconds pongStats true constructor)
                    evs = Some u) :
  exists dist,
    wsPongStatDist u = Some dist
    /\ Z.of_nat (length dist) = 4 * pongSeconds
    /\ counted dist = wsPongStatNum u.
Proof.
  set (L := Z.to_nat (pongSeconds * 4)).
  assert (HL : (0 < L)%nat) by (unfold L; lia).
  assert (Hstart : hist_ok L 0
            (setWebSocketKeepAlive pingSeconds pongSeconds pongStats true constructor)).
  { eexists. split; [reflexivity|]. rewrite length_replicate, counted_zeros.
    simpl. repeat split; lia. }
  revert Hrun Hstart Htimes.
  generalize (setWebSocketKeepAlive pingSeconds pongSeconds pongStats true constructor).
  generalize 0 at 1 2.
  induction Hevs as [|ev evs Hev Hevs IH]; intros t u0 Hrun Hok Htimes; simpl in Hrun.
  - injection Hrun as <-. destruct Hok as (d & Hd & Hlen & Hsum & _).
    exists d. repeat split; auto. rewrite Hlen. unfold L. lia.
  - destruct (step u0 ev) as [u1|] eqn:Hstep; [|discriminate].
    assert (Ht1 : chronological t [ev]).
    { destruct ev; simpl in *; tauto. }
    destruct (step_hist_ok L t u0 ev u1 HL Hok Hev Ht1 Hstep) as (t' & Hok1 & Hnext).
    eapply IH; eauto.
Qed.

Lemma distribution_counts_every_pong_witness :
  run configured two_probes = Some after_two_probes
  /\ exists dist, wsPongStatDist after_two_probes = Some dist
                  /\ Z.of_nat (length dist) = 4 * 10
                  /\ counted dist = wsPongStatNum after_two_probes.
Proof.
  assert (Hrun : run configured two_probes = Some after_two_probes)
    by (vm_compute; reflexivity).
  assert (Hevs : Forall not_reconfigured two_probes) by (repeat constructor).
  assert (Htimes : chronological 0 two_probes) by (simpl; lia).
  split; [exact Hrun|].
  exact (distribution_counts_every_pong 10 10 60 two_probes after_two_probes
           ltac:(lia) Hevs Htimes Hrun).
Defined.

End KeepAliveMore.

(* ===================================================================== *)
(** * Answering and making calls                                          *)
(* ===================================================================== *)

Section Answering.
Import Calls.
Variable p : Phone.
Variable E : Env.
Variable js_answer : Options -> option JsVal.

Lemma legal_answer_symbol videoOption s :
  as_symbol videoOption = Some s ->
  legal [AUDIO; RECVONLY_VIDEO; VIDEO] (convert videoOption) = inr s.
Proof.
  destruct videoOption as [[|]|[]|]; simpl; intros [= <-]; reflexivity.
Qed.

Lemma setters_run (es er vs vr : bool) d c ls t tr :
  (AudioCodesSession._setEnabledSendVideo es ;;;
   AudioCodesSession._setEnabledReceiveVideo er ;;;
   AudioCodesSession._setVideoState vs vr) (mkWorld d c ls t tr)
  = (Normal tt,
     mkWorld (set_video d (mkVideo vs vr es er)) c ls t
             (tr ++ [SetEnabledSendVideo es; SetEnabledReceiveVideo er; SetVideoState vs vr])).
Proof.
  unfold AudioCodesSession._setEnabledSendVideo,
    AudioCodesSession._setEnabledReceiveVideo, AudioCodesSession._setVideoState,
    bind, emit, modify_data. simpl. rewrite <- !app_assoc. reflexivity.
Qed.

Lemma audio_setters_run (x : bool) d c ls t tr :
  (AudioCodesSession._setEnabledSendVideo false ;;;
   (let* w := get in
    AudioCodesSession._setEnabledReceiveVideo
      (if AudioCodesSession.hasVideo (data w) then false else x)) ;;;
   AudioCodesSession._setVideoState false false) (mkWorld d c ls t tr)
  = (Normal tt,
     mkWorld (set_video d (mkVideo false false false
                                   (if AudioCodesSession.hasVideo d then false else x)))
             c ls t
             (tr ++ [SetEnabledSendVideo false;
                     SetEnabledReceiveVideo
                       (if AudioCodesSession.hasVideo d then false else x);
                     SetVideoState false false])).
Proof.
  unfold AudioCodesSession._setEnabledSendVideo,
    AudioCodesSession._setEnabledReceiveVideo, AudioCodesSession._setVideoState,
    AudioCodesSession.hasVideo, AudioCodesSession.hasSendVideo,
    AudioCodesSession.hasReceiveVideo, bind, emit, modify_data, get.
  simpl. rewrite <- !app_assoc. reflexivity.
Qed.

(** What [answer] does on a session that was not answered, for a legal
    option. *)
Lemma answer_run videoOption s h o a w :
  _answer_called a = false ->
  as_symbol videoOption = Some s ->
  let hasVideo := AudioCodesSession.hasVideo (data w) in
  let s' := effective_option hasVideo s in
  let options := _callOptions p (Symbol_eqb s' VIDEO) false h o in
  answer p E js_answer videoOption h o a w
  = (Normal (Some (options,
                   match navigator_getUserMedia E (now w) with
                   | inr stream =>
                       match js_answer (set_mediaStream options (Some stream)) with
                       | None => [JsAnswer (set_mediaStream options (Some stream))]
                       | Some _ => [JsAnswer (set_mediaStream options (Some stream));
                                    JsTerminate 488]
                       end
                   | inl _ => [JsTerminate 488]
                   end)),
     (mkAnswerData true
        (if hasVideo
         then match s with
              | AUDIO => Some "inactive"
              | RECVONLY_VIDEO => Some "recvonly"
              | VIDEO => _answer_set_video_transceiver a
              end
         else _answer_set_video_transceiver a)
        (if hasVideo && Symbol_eqb s AUDIO && video_call_audio_answer_fix p
            && existsb (Browser_eqb (browser p)) [safari; ios_safari; firefox]
         then true else _video_call_audio_answer a),
      mkWorld (set_video (data w) (answered_video p hasVideo s))
              (connection w) (localStream w) (S (now w))
              (trace w ++ answered_actions p hasVideo s ++ [GetUserMedia]))).
Proof.
  intros Hnew Hs. cbn zeta. unfold answer. rewrite Hnew, (legal_answer_symbol _ _ Hs).
  destruct w as [d c ls t tr]. cbn [data now trace connection localStream].
  set (hv := AudioCodesSession.hasVideo d).
  set (s' := effective_option hv s).
  assert (Hs' : (if negb hv && (Symbol_eqb s RECVONLY_VIDEO || Symbol_eqb s VIDEO)
                 then AUDIO else s) = s').
  { unfold s', effective_option. destruct hv, s; reflexivity. }
  rewrite Hs'.
  set (options := _callOptions p (Symbol_eqb s' VIDEO) false h o).
  assert (Hflags :
    (match s' with
     | AUDIO =>
         AudioCodesSession._setEnabledSendVideo false ;;;
         (let* w := get in
          AudioCodesSession._setEnabledReceiveVideo
            (if AudioCodesSession.hasVideo (data w) then false else enableAddVideo p)) ;;;
         AudioCodesSession._setVideoState false false
     | VIDEO =>
         AudioCodesSession._setEnabledSendVideo true ;;;
         AudioCodesSession._setEnabledReceiveVideo true ;;;
         AudioCodesSession._setVideoState true true
     | RECVONLY_VIDEO =>
         AudioCodesSession._setEnabledSendVideo false ;;;
         AudioCodesSession._setEnabledReceiveVideo true ;;;
         AudioCodesSession._setVideoState false true
     end) (mkWorld d c ls t tr)
    = (Normal tt,
       mkWorld (set_video d (answered_video p hv s)) c ls t
               (tr ++ answered_actions p hv s))).
  { unfold answered_actions, answered_video. fold s'.
    destruct s'; [apply audio_setters_run | apply setters_run..]. }
  unfold bind at 1. rewrite Hflags.
  unfold promise_of, AudioCodesWebRTCWrapper.getUserMedia, bind, emit, get, suspend.
  cbn [data now trace connection localStream].
  assert (Ha : (if hv
                then match s' with
                     | AUDIO =>
                         if video_call_audio_answer_fix p
                            && existsb (Browser_eqb (browser p)) [safari; ios_safari; firefox]
                         then mkAnswerData true (Some "inactive") true
                         else mkAnswerData true (Some "inactive") (_video_call_audio_answer a)
                     | RECVONLY_VIDEO =>
                         mkAnswerData true (Some "recvonly") (_video_call_audio_answer a)
                     | VIDEO =>
                         mkAnswerData true (_answer_set_video_transceiver a)
                                      (_video_call_audio_answer a)
                     end
                else mkAnswerData true (_answer_set_video_transceiver a)
                                  (_video_call_audio_answer a))
               = mkAnswerData true
                   (if hv
                    then match s with
                         | AUDIO => Some "inactive"
                         | RECVONLY_VIDEO => Some "recvonly"
                         | VIDEO => _answer_set_video_transceiver a
                         end
                    else _answer_set_video_transceiver a)
                   (if hv && Symbol_eqb s AUDIO && video_call_audio_answer_fix p
                       && existsb (Browser_eqb (browser p)) [safari; ios_safari; firefox]
                    then true else _video_call_audio_answer a)).
  { unfold s', effective_option.
    destruct hv, s; cbn [andb Symbol_eqb]; try reflexivity.
    destruct (video_call_audio_answer_fix p && _); reflexivity. }
  cbn [_answer_called _answer_set_video_transceiver _video_call_audio_answer].
  rewrite Ha.
  destruct (navigator_getUserMedia E t) as [e|stream]; cbn [of_sum throw ret].
  - rewrite <- app_assoc. reflexivity.
  - destruct (js_answer (set_mediaStream options (Some stream)));
      rewrite <- app_assoc; reflexivity.
Qed.


(** X22. [answer] takes effect at most once: whatever the first call of
    [answer] was given and however it ended - also when it threw - the
    session is marked as answered, and every later call returns at once
    without touching the flags, the browser or JsSIP. *)
Theorem answer_takes_effect_once
        (videoOption videoOption' : VideoOption) (h h' : option (list string))
        (o o' : option Options) (a : AnswerData) (w : World) :
  let after := snd (answer p E js_answer videoOption h o a w) in
  _answer_called (fst after) = true
  /\ answer p E js_answer videoOption' h' o' (fst after) (snd after) = (Normal None, after).
Proof.
  cbn zeta.
  assert (H : _answer_called (fst (snd (answer p E js_answer videoOption h o a w))) = true).
  { unfold answer. destruct (_answer_called a) eqn:Ha; [exact Ha|].
    destruct (legal _ _) as [e|s]; [reflexivity|].
    match goal with
    | |- context [match ?m w with _ => _ end] => destruct (m w) as [[calls|e|] w']
    end; cbn [snd fst].
    all: destruct (AudioCodesSession.hasVideo (data w)); try reflexivity.
    all: match goal with
         | |- context [match ?x with AUDIO => _ | _ => _ end] => destruct x
         end; try reflexivity.
    all: destruct (video_call_audio_answer_fix p && _); reflexivity. }
  split; [exact H|].
  destruct (snd (answer p E js_answer videoOption h o a w)) as [a1 w1].
  cbn [fst snd] in *. unfold answer. now rewrite H.
Qed.

(** X23. An illegal [videoOption] spends the answer: on a session not yet
    answered, [answer] with a value that is neither a boolean nor one of
    the three symbols throws 'Illegal videoOption=...' after the session
    was marked as answered. Nothing else is changed and nothing was asked
    of the browser or of JsSIP, yet a later [answer] with a legal option is
    ignored. *)
Theorem illegal_videoOption_spends_the_answer
        (text : string) (h : option (list string)) (o : option Options)
        (a : AnswerData) (w : World)
        (Hnew : _answer_called a = false) :
  let spent := mkAnswerData true (_answer_set_video_transceiver a)
                            (_video_call_audio_answer a) in
  answer p E js_answer (OtherValue (inr text)) h o a w
  = (Throw (JsString ("Illegal videoOption=" ++ text)), (spent, w))
  /\ forall videoOption' h' o',
       answer p E js_answer videoOption' h' o' spent w = (Normal None, (spent, w)).
Proof.
  cbn zeta. split.
  - unfold answer. rewrite Hnew. reflexivity.
  - intros. reflexivity.
Qed.

(** X24. An INVITE that offered no video can only be answered with audio:
    whatever legal option [answer] is given, it does what it does for
    [AUDIO] - no camera is asked for (the constraints have no [video]), the
    call neither sends nor receives video and is not enabled to send it, and
    it is enabled to receive video only if the phone has [enableAddVideo]
    set; nothing is planned for the video transceiver. *)
Theorem answer_without_offered_video_is_audio
        (videoOption : VideoOption) (s : Symbol) (h : option (list string))
        (o : option Options) (a : AnswerData) (w : World)
        (Hnew : _answer_called a = false)
        (Hlegal : as_symbol videoOption = Some s)
        (Hno : AudioCodesSession.hasVideo (data w) = false) :
  answer p E js_answer videoOption h o a w
  = answer p E js_answer (OfSymbol AUDIO) h o a w
  /\ exists options calls a' w',
       answer p E js_answer videoOption h o a w = (Normal (Some (options, calls)), (a', w'))
       /\ mediaConstraints options
          = Some (mkMediaConstraints (audio (constraints p (browser p))) None)
       /\ _video (data w') = mkVideo false false false (enableAddVideo p)
       /\ _answer_set_video_transceiver a' = _answer_set_video_transceiver a.
Proof.
  pose proof (answer_run videoOption s h o a w Hnew Hlegal) as H1.
  pose proof (answer_run (OfSymbol AUDIO) AUDIO h o a w Hnew eq_refl) as H2.
  cbn zeta in H1, H2. rewrite Hno in H1, H2.
  unfold answered_video, answered_actions, effective_option in H1, H2.
  cbn [andb Symbol_eqb] in H1, H2.
  split; [now rewrite H1, H2|].
  do 4 eexists. split; [exact H1|]. repeat split.
Qed.

(** X25. On an INVITE that offered video both ways, [answer] leaves the call in
    the state of its option: inactive for [AUDIO], recvonly for
    [RECVONLY_VIDEO], sendrecv for [VIDEO], both as negotiated state and as
    enabled state. The camera is asked for exactly for [VIDEO], and for the
    two other options the direction planned for the video transceiver is
    that state. *)
Theorem answer_to_video_offer
        (videoOption : VideoOption) (s : Symbol) (h : option (list string))
        (o : option Options) (a : AnswerData) (w : World)
        (Hnew : _answer_called a = false)
        (Hlegal : as_symbol videoOption = Some s)
        (Hoffer : AudioCodesSession.hasVideo (data w) = true) :
  let state := match s with
               | AUDIO => "inactive"
               | RECVONLY_VIDEO => "recvonly"
               | VIDEO => "sendrecv"
               end in
  exists options calls a' w',
    answer p E js_answer videoOption h o a w = (Normal (Some (options, calls)), (a', w'))
    /\ AudioCodesSession.getVideoState (data w') = state
    /\ AudioCodesSession.getEnabledVideoState (data w') = state
    /\ mediaConstraints options
       = Some (mkMediaConstraints (audio (constraints p (browser p)))
                                  (if Symbol_eqb s VIDEO
                                   then Some (video (constraints p (browser p)))
                                   else None))
    /\ _answer_set_video_transceiver a'
       = (if Symbol_eqb s VIDEO then _answer_set_video_transceiver a else Some state).
Proof.
  pose proof (answer_run videoOption s h o a w Hnew Hlegal) as H1.
  cbn zeta in H1 |- *. rewrite Hoffer in H1.
  do 4 eexists. split; [exact H1|].
  unfold answered_video, effective_option. destruct s; repeat split.
Qed.

End Answering.

Lemma illegal_videoOption_spends_the_answer_witness :
  Calls.answer default_phone accepting_env (fun _ => None)
    (Calls.OtherValue (inr "video")) None None not_answered video_offer
  = (Throw (JsString "Illegal videoOption=video"),
     (Calls.mkAnswerData true None false, video_offer)).
Proof.
  exact (proj1 (illegal_videoOption_spends_the_answer default_phone accepting_env
                  (fun _ => None) "video" None None not_answered video_offer eq_refl)).
Defined.

Lemma answer_without_offered_video_is_audio_witness :
  Calls.answer default_phone accepting_env (fun _ => None)
    (Calls.OfSymbol Calls.VIDEO) None None not_answered new_world
  = Calls.answer default_phone accepting_env (fun _ => None)
      (Calls.OfSymbol Calls.AUDIO) None None not_answered new_world.
Proof.
  exact (proj1 (answer_without_offered_video_is_audio default_phone accepting_env
                  (fun _ => None) (Calls.OfSymbol Calls.VIDEO) Calls.VIDEO None None
                  not_answered new_world eq_refl eq_refl eq_refl)).
Defined.

Lemma answer_to_video_offer_witness :
  exists options calls a' w',
    Calls.answer default_phone accepting_env (fun _ => None)
      (Calls.OfSymbol Calls.RECVONLY_VIDEO) None None not_answered video_offer
    = (Normal (Some (options, calls)), (a', w'))
    /\ AudioCodesSession.getVideoState (data w') = "recvonly"
    /\ AudioCodesSession.getEnabledVideoState (data w') = "recvonly"
    /\ Calls.mediaConstraints options
       = Some (Calls.mkMediaConstraints (Calls.OfBool true) None)
    /\ Calls._answer_set_video_transceiver a' = Some "recvonly".
Proof.
  exact (answer_to_video_offer default_phone accepting_env (fun _ => None)
           (Calls.OfSymbol Calls.RECVONLY_VIDEO) Calls.RECVONLY_VIDEO None None
           not_answered video_offer eq_refl eq_refl eq_refl).
Defined.

(** ** Incoming and outgoing calls *)

Section Calling.
Import Calls.

Lemma getTransceiver_from_bound ts k : forall i0 i,
  AudioCodesWebRTCWrapper.getTransceiver_from ts k i0 = Some i ->
  (i0 <= i < i0 + length ts)%nat.
Proof.
  induction ts as [|t ts IH]; simpl; intros i0 i H; [discriminate|].
  destruct (AudioCodesWebRTCWrapper.has_kind (sender_track t) k);
    [injection H as <-; lia|].
  destruct (AudioCodesWebRTCWrapper.has_kind (receiver_track t) k);
    [injection H as <-; lia|].
  apply IH in H. lia.
Qed.

(** X26. The 'newRTCSession' handler gives every incoming call its video flags
    and never fails on the description: with a body, the call can send and
    receive video as the video block of the INVITE allows, read as a remote
    description (nothing without a video block); without a body it can do
    both, so that it may be answered with or without video. The call is not
    enabled to send video, and enabled to receive it as [enableAddVideo]
    says. *)
Theorem incoming_call_video_flags (p : Phone) (body : option string) (w : World) :
  exists send recv,
    newRTCSession p "remote" body w
    = (Normal tt,
       mkWorld (mkData true false None (mkVideo send recv false (enableAddVideo p)))
               (connection w) (localStream w) (now w)
               (trace w ++ [SetEnabledReceiveVideo (enableAddVideo p);
                            SetVideoState send recv]))
    /\ match body with
       | Some (String c text) =>
           exists dir,
             AudioCodesSDP.getMediaDirection
               (AudioCodesSDP.constructor (String c text)) "video" true
             = Some (send, recv, dir)
       | _ => send = true /\ recv = true
       end.
Proof.
  assert (Hno : newRTCSession p "remote" None w
                = (Normal tt,
                   mkWorld (mkData true false None (mkVideo true true false (enableAddVideo p)))
                           (connection w) (localStream w) (now w)
                           (trace w ++ [SetEnabledReceiveVideo (enableAddVideo p);
                                        SetVideoState true true]))).
  { unfold newRTCSession, AudioCodesSession._setEnabledReceiveVideo,
      AudioCodesSession._setVideoState, bind, emit, modify_data, ret. simpl.
    rewrite <- app_assoc. reflexivity. }
  destruct body as [[|c text]|].
  - exists true, true. split; [exact Hno | auto].
  - destruct (getMediaDirection_is_Some (AudioCodesSDP.constructor (String c text)) "video" true)
      as (send & recv & Hdir).
    exists send, recv. split; [|eauto].
    unfold newRTCSession. rewrite Hdir.
    unfold AudioCodesSession._setEnabledReceiveVideo,
      AudioCodesSession._setVideoState, bind, emit, modify_data, ret. simpl.
    rewrite <- app_assoc. reflexivity.
  - exists true, true. split; [exact Hno | auto].
Qed.

(** X27. An incoming INVITE whose description has no video block is answered
    with audio whatever option is given: after the 'newRTCSession' handler,
    [answer] with any legal option asks for no camera and leaves the video
    state inactive. *)
Theorem audio_invite_is_answered_with_audio
        (p : Phone) (E : Env) (js_answer : Options -> option JsVal)
        (body : string) (videoOption : VideoOption) (s : Symbol)
        (h : option (list string)) (o : option Options) (w : World)
        (Hbody : body <> "")
        (Hlegal : as_symbol videoOption = Some s)
        (Haudio : AudioCodesSDP.getMedia (AudioCodesSDP.constructor body) "video" = None) :
  let w1 := snd (newRTCSession p "remote" (Some body) w) in
  exists options calls a' w',
    answer p E js_answer videoOption h o not_answered w1
    = (Normal (Some (options, calls)), (a', w'))
    /\ mediaConstraints options
       = Some (mkMediaConstraints (audio (constraints p (browser p))) None)
    /\ AudioCodesSession.getVideoState (data w') = "inactive"
    /\ AudioCodesSession.hasEnabledSendVideo (data w') = false.
Proof.
  cbn zeta. destruct body as [|c text]; [congruence|].
  assert (Hrun : newRTCSession p "remote" (Some (String c text)) w
                 = (Normal tt,
                    mkWorld (mkData true false None
                                    (mkVideo false false false (enableAddVideo p)))
                            (connection w) (localStream w) (now w)
                            (trace w ++ [SetEnabledReceiveVideo (enableAddVideo p);
                                         SetVideoState false false]))).
  { unfold newRTCSession, AudioCodesSDP.getMediaDirection,
      AudioCodesSDP.getMediaDirectionValue. rewrite Haudio.
    unfold AudioCodesSession._setEnabledReceiveVideo,
      AudioCodesSession._setVideoState, bind, emit, modify_data, ret. simpl.
    rewrite <- app_assoc. reflexivity. }
  rewrite Hrun. cbn [snd].
  match goal with
  | |- context [answer p E js_answer videoOption h o not_answered ?w1] =>
      pose proof (answer_run p E js_answer videoOption s h o not_answered w1
                    eq_refl Hlegal) as Hans
  end.
  cbn zeta in Hans. cbn [data AudioCodesSession.hasVideo AudioCodesSession.hasSendVideo
                         AudioCodesSession.hasReceiveVideo _video Runtime.send receive andb]
    in Hans.
  unfold answered_video, answered_actions, effective_option in Hans.
  cbn [Symbol_eqb] in Hans.
  do 4 eexists. split; [exact Hans|]. split; [reflexivity|].
  split; reflexivity.
Qed.

Lemma audio_invite_is_answered_with_audio_witness :
  exists options calls a' w',
    answer default_phone accepting_env (fun _ => None) (OfSymbol VIDEO) None None not_answered
      (snd (newRTCSession default_phone "remote" (Some audio_only_invite) new_world))
    = (Normal (Some (options, calls)), (a', w'))
    /\ mediaConstraints options = Some (mkMediaConstraints (OfBool true) None)
    /\ AudioCodesSession.getVideoState (data w') = "inactive"
    /\ AudioCodesSession.hasEnabledSendVideo (data w') = false.
Proof.
  exact (audio_invite_is_answered_with_audio default_phone accepting_env (fun _ => None)
           audio_only_invite (OfSymbol VIDEO) VIDEO None None new_world
           ltac:(vm_compute; discriminate) eq_refl eq_refl).
Defined.


(** X28. The 'connecting' handler applies the direction [answer] planned for
    the video transceiver, once: with a direction planned and a video
    transceiver on the connection, that transceiver gets the direction and
    the plan is forgotten, so that a second 'connecting' event changes
    nothing. *)
Theorem connecting_applies_the_planned_direction
        (a : AnswerData) (w : World) (dir : string) (i : nat)
        (Hplan : _answer_set_video_transceiver a = Some dir)
        (Hvt : AudioCodesWebRTCWrapper.getTransceiver (connection w) "video" = Some i) :
  exists a' w' t,
    connecting a w = (Normal a', w')
    /\ _answer_set_video_transceiver a' = None
    /\ connection w !! i = Some t
    /\ connection w'
       = <[i := mkTransceiver (sender_track t) (receiver_track t) dir]> (connection w)
    /\ direction <$> (connection w' !! i) = Some dir
    /\ trace w' = trace w ++ [SetDirection i dir]
    /\ connecting a' w' = (Normal a', w').
Proof.
  pose proof (getTransceiver_from_bound _ _ _ _ Hvt) as Hi.
  assert (Hrun : exists t,
             connection w !! i = Some t
             /\ connecting a w
                = (Normal (mkAnswerData (_answer_called a) None (_video_call_audio_answer a)),
                   mkWorld (data w)
                           (<[i := mkTransceiver (sender_track t) (receiver_track t) dir]>
                              (connection w))
                           (localStream w) (now w) (trace w ++ [SetDirection i dir]))).
  { unfold connecting. rewrite Hplan.
    unfold AudioCodesWebRTCWrapper.setDirection, bind, get, emit, put_connection, ret.
    cbv beta iota. rewrite Hvt. cbn [connection].
    match goal with
    | |- context [match ?x with Some _ => _ | None => _ end] => destruct x as [t|] eqn:Ht
    end.
    - exists t. split; reflexivity.
    - apply lookup_ge_None in Ht. lia. }
  destruct Hrun as (t & Ht & Hrun).
  do 3 eexists. split; [exact Hrun|]. cbn [_answer_set_video_transceiver connection trace].
  split; [reflexivity|]. split; [exact Ht|]. split; [reflexivity|].
  split; [|split; reflexivity].
  match goal with
  | |- _ <$> ?l = _ =>
      replace l with (Some (mkTransceiver (sender_track t) (receiver_track t) dir));
      [reflexivity|]
  end.
  symmetry. apply list_lookup_insert_eq. lia.
Qed.

Lemma connecting_applies_the_planned_direction_witness :
  exists a' w' t,
    connecting (mkAnswerData true (Some "inactive") false) sending_world = (Normal a', w')
    /\ _answer_set_video_transceiver a' = None
    /\ connection sending_world !! 1%nat = Some t
    /\ connection w'
       = <[1%nat := mkTransceiver (sender_track t) (receiver_track t) "inactive"]>
           (connection sending_world)
    /\ direction <$> (connection w' !! 1%nat) = Some "inactive"
    /\ trace w' = trace sending_world ++ [SetDirection 1 "inactive"]
    /\ connecting a' w' = (Normal a', w').
Proof.
  exact (connecting_applies_the_planned_direction
           (mkAnswerData true (Some "inactive") false) sending_world "inactive" 1
           eq_refl eq_refl).
Defined.

(** X29. [call] takes [AUDIO] and [VIDEO] (or false and true) only: with
    [RECVONLY_VIDEO], which [answer] accepts, it throws
    'Illegal videoOption=Symbol(recvonly_video)' before JsSIP is asked for a
    call. When JsSIP creates the session, the new call is enabled to send
    video exactly for [VIDEO], and enabled to receive it for [VIDEO] or when
    the phone has [enableAddVideo] set; it sends and receives no video until
    an answer says so. *)
Theorem call_sets_the_enabled_flags
        (p : Phone) (jssip_call : string -> Options -> option JsVal)
        (videoOption : VideoOption) (s : Symbol) (call_to : string)
        (h : option (list string)) (o : option Options) (w : World)
        (Hlegal : as_symbol videoOption = Some s)
        (Hs : s <> RECVONLY_VIDEO)
        (Hcreated : forall options, jssip_call call_to options = None) :
  call p jssip_call (OfSymbol RECVONLY_VIDEO) call_to h o w
  = (Throw (JsString "Illegal videoOption=Symbol(recvonly_video)"), w)
  /\ exists w',
       call p jssip_call videoOption call_to h o w
       = (Normal (_callOptions p (Symbol_eqb s VIDEO) true h o), w')
       /\ _video (data w')
          = mkVideo false false (Symbol_eqb s VIDEO)
                    (Symbol_eqb s VIDEO || enableAddVideo p)
       /\ _initial (data w') = true.
Proof.
  split; [reflexivity|].
  unfold call.
  assert (Hl : legal [AUDIO; VIDEO] (convert videoOption) = inr s).
  { destruct videoOption as [[|]|[]|]; simpl in *; try discriminate;
      injection Hlegal as <-; try reflexivity; congruence. }
  rewrite Hl, Hcreated.
  unfold newRTCSession, AudioCodesSession._setEnabledReceiveVideo,
    AudioCodesSession._setEnabledSendVideo, bind, emit, modify_data, ret.
  destruct s; [| |congruence]; simpl; eexists; repeat split.
Qed.

Lemma call_sets_the_enabled_flags_witness :
  exists w',
    call default_phone (fun _ _ => None) (OfBoolean true) "alice" None None new_world
    = (Normal (_callOptions default_phone true true None None), w')
    /\ _video (data w') = mkVideo false false true true
    /\ _initial (data w') = true.
Proof.
  exact (proj2 (call_sets_the_enabled_flags default_phone (fun _ _ => None)
                  (OfBoolean true) VIDEO "alice" None None new_world
                  eq_refl ltac:(discriminate) (fun _ => eq_refl))).
Defined.

Lemma lookup_map {A B : Type} (f : A -> B) (l : list A) : forall i : nat,
  List.map f l !! i = f <$> (l !! i).
Proof.
  induction l as [|x l IH]; intros [|i]; simpl; try reflexivity. apply IH.
Qed.

(** X30. The ICE servers handed to JsSIP are objects: [setServerConfig] turns
    every short-form address into an object with the URL 'stun:' + address
    and leaves the objects as they are, keeping number and order; converting
    again changes nothing; and [_callOptions] puts that list into
    [pcConfig.iceServers] of every call, over whatever the caller's
    [extraOptions] had there. *)
Theorem ice_servers_are_objects
        (p : Phone) (ices : list IceEntry) (sendVideo isOutgoing : bool)
        (h : option (list string)) (o : option Options) :
  let servers := _convertIceList ices in
  pc_iceServers <$> pcConfig (_callOptions (setServerConfig p ices) sendVideo isOutgoing h o)
  = Some (Some servers)
  /\ length servers = length ices
  /\ Forall (fun e => match e with IceServer _ _ _ => True | IceAddress _ => False end) servers
  /\ (forall i address, ices !! i = Some (IceAddress address) ->
                        servers !! i = Some (IceServer ("stun:" ++ address) None None))
  /\ (forall i urls username credential,
        ices !! i = Some (IceServer urls username credential) ->
        servers !! i = Some (IceServer urls username credential))
  /\ _convertIceList servers = servers.
Proof.
  cbn zeta. split; [reflexivity|]. unfold _convertIceList.
  split; [apply length_map|]. split; [|split; [|split]].
  - induction ices as [|[addr|u n c] ices IH]; simpl;
      [constructor | constructor; [exact I | exact IH]..].
  - intros i address Hi. now rewrite lookup_map, Hi.
  - intros i urls username credential Hi. now rewrite lookup_map, Hi.
  - rewrite List.map_map. apply List.map_ext. intros [addr|u n c]; reflexivity.
Qed.

End Calling.
